(** * The validation engine of Data-Alchemist, embedded in Rocq

    Source: [src/unnamed/part_001] ([runValidations] and its twelve checks,
    followed by the type declarations of [@/types/data]).

    Conventions of the embedding.
    - A JavaScript [number] is an integer ([Z]): the data model declares
      every numeric field as an integer, so [typeof x === "number"] holds
      and [isNaN x] fails for every element of a numeric list.  Numbers
      are doubles: a sum is rounded to 53 significant bits, to the nearest
      double, a tie going to the even one ([Js.add]); it is exact as long
      as its magnitude is at most 2^53.  The doubles are taken to be
      finite (magnitudes below 2^1024).
    - A property that a record may lack at run time is an [option]:
      [None] is JavaScript's [undefined].  This is done for the primary
      keys, the names and every list-typed field.  Reading a property of
      [undefined] (calling [.some], [.length], iterating with [for-of])
      raises a [TypeError], which rejects the promise of [runValidations].
    - The engine threads one mutable array, [errors], through all checks.
      A check is therefore a computation in a state-and-exception monad
      [M]: it receives the array, and either returns it extended or throws.
    - [hasCycle] is a recursive closure; it is defined by recursion on a
      fuel counter, and running out of fuel is a third outcome, which is
      proved never to happen.
    - JavaScript's [Map] and [Set] iterate in insertion order; they are
      association lists and duplicate-free lists here.  The two sets that
      are only ever queried ([visited], [recursionStack]) are [gset]s.
    - [JSON.parse] is the language's own; the engine is parametrised by
      the predicate that tells which strings it accepts.

    The file has three parts: the engine, the vocabulary of the
    properties, and the proofs.  The theorems about the specification's
    properties carry the property's number (C1 to C10) in their
    comment. *)

From stdpp Require Import gmap strings list pretty.

Open Scope Z_scope.

(** * The engine *)

(** ** JavaScript helpers *)

Module Js.

(** [o || d] for a string that may be undefined: the empty string and
    [undefined] are falsy. *)
Definition strOr (o : option string) (d : string) : string :=
  match o with
  | Some s => if String.eqb s "" then d else s
  | None => d
  end.

(** [`${o}`] for a string that may be undefined. *)
Definition str (o : option string) : string :=
  match o with
  | Some s => s
  | None => "undefined"
  end.

(** Truthiness of a string that may be undefined. *)
Definition truthy (o : option string) : bool :=
  match o with
  | Some s => negb (String.eqb s "")
  | None => false
  end.

(** [typeof x !== "number" || isNaN(x)] on a number of the model. *)
Definition notANumber (_ : Z) : bool := false.

(** [xs.includes(x)] *)
Definition includes `{EqDecision A} (xs : list A) (x : A) : bool :=
  existsb (fun y => bool_decide (y = x)) xs.

(** [xs.indexOf(x)]: the first index holding [x], or [-1]. *)
Fixpoint indexOfFrom `{EqDecision A} (i : Z) (xs : list A) (x : A) : Z :=
  match xs with
  | [] => -1
  | y :: xs' => if bool_decide (y = x) then i else indexOfFrom (i + 1) xs' x
  end.

Definition indexOf `{EqDecision A} (xs : list A) (x : A) : Z :=
  indexOfFrom 0 xs x.

(** [xs.filter((x, index) => f x index)] *)
Fixpoint filterIndexFrom {A} (i : Z) (f : A -> Z -> bool) (xs : list A)
  : list A :=
  match xs with
  | [] => []
  | x :: xs' =>
      if f x i then x :: filterIndexFrom (i + 1) f xs'
      else filterIndexFrom (i + 1) f xs'
  end.

Definition filterIndex {A} (f : A -> Z -> bool) (xs : list A) : list A :=
  filterIndexFrom 0 f xs.

(** [xs.find(f)] *)
Fixpoint find {A} (f : A -> bool) (xs : list A) : option A :=
  match xs with
  | [] => None
  | x :: xs' => if f x then Some x else find f xs'
  end.

(** [xs.join(sep)] *)
Fixpoint join (sep : string) (xs : list string) : string :=
  match xs with
  | [] => ""
  | [x] => x
  | x :: xs' => x +:+ sep +:+ join sep xs'
  end.

(** [xs.length] as a number. *)
Definition len {A} (xs : list A) : Z := Z.of_nat (length xs).

(** A [Set] in insertion order: [add] keeps the first occurrence. *)
Definition setAdd `{EqDecision A} (s : list A) (x : A) : list A :=
  if includes s x then s else s ++ [x].

(** [[...new Set(xs)]] *)
Definition newSet `{EqDecision A} (xs : list A) : list A :=
  fold_left setAdd xs [].

(** A [Map] in insertion order: [set] on a present key replaces the
    value where the key already stands. *)
Fixpoint mapSet `{EqDecision K} {V} (m : list (K * V)) (k : K) (v : V)
  : list (K * V) :=
  match m with
  | [] => [(k, v)]
  | (k', v') :: m' =>
      if bool_decide (k' = k) then (k, v) :: m'
      else (k', v') :: mapSet m' k v
  end.

Fixpoint mapGet `{EqDecision K} {V} (m : list (K * V)) (k : K) : option V :=
  match m with
  | [] => None
  | (k', v') :: m' => if bool_decide (k' = k) then Some v' else mapGet m' k
  end.

Definition mapValues {K V} (m : list (K * V)) : list V := map snd m.

(** [m.get(k) || 0] *)
Definition getOr0 `{EqDecision K} (m : list (K * Z)) (k : K) : Z :=
  match mapGet m k with
  | Some v => v
  | None => 0
  end.

(** *** Addition of numbers

    A double has a significand of 53 bits.  The doubles of magnitude
    between 2^e and 2^(e+1) are the multiples of 2^(e-52): every integer up
    to 2^53, every second integer up to 2^54, and so on. *)

(** The exponent of the spacing of the doubles around the magnitude
    [a]. *)
Definition ulpExp (a : Z) : Z := Z.max 0 (Z.log2 a - 52).

(** The multiple of 2^k nearest to [a >= 0]; half-way, the even
    multiple. *)
Definition roundHalfEven (k a : Z) : Z :=
  let u := 2 ^ k in
  let q := a / u in
  let r := a mod u in
  u * (if 2 * r <? u then q
       else if u <? 2 * r then q + 1
       else if Z.even q then q else q + 1).

(** The double nearest to the integer [x]. *)
Definition toDouble (x : Z) : Z :=
  Z.sgn x * roundHalfEven (ulpExp (Z.abs x)) (Z.abs x).

(** [x + y] on numbers: the exact sum, rounded. *)
Definition add (x y : Z) : Z := toDouble (x + y).

End Js.

(** ** Data model ([@/types/data]) *)

(** [AttributesJSON] is declared as an object but may arrive as a string
    that still has to be parsed. *)
Inductive Attributes : Type :=
  | AttrUndefined
  | AttrObject
  | AttrString (s : string).

(** The fields the engine reads; [Email], [Name] and [GroupTag] are
    never inspected. *)
Record ClientData : Type := {
  ClientID : option string;
  ClientName : option string;
  PriorityLevel : Z;
  RequestedTaskIDs : option (list string);
  AttributesJSON : Attributes;
}.

Record WorkerData : Type := {
  WorkerID : option string;
  WorkerName : option string;
  Skills : option (list string);
  AvailableSlots : option (list Z);
  MaxLoadPerPhase : Z;
}.

Record TaskData : Type := {
  TaskID : option string;
  TaskName : option string;
  Duration : Z;
  RequiredSkills : option (list string);
  PreferredPhases : option (list Z);
  MaxConcurrent : Z;
}.

Inductive Severity : Type := error | warning.

Inductive Entity : Type := clients | workers | tasks.

Module ValidationError.
(** [severity] and [category] are optional and never set by the engine. *)
Record t : Type := mk {
  id : string;
  type : Severity;
  entity : Entity;
  entityId : option string;
  field : option string;
  message : string;
  suggestion : option string;
}.
End ValidationError.

Inductive RuleType : Type :=
  | coRun | slotRestriction | loadLimit | phaseWindow | patternMatch
  | precedenceOverride.

(** [parameters] is a [Record<string, any>]; the engine reads three of its
    keys, each of which may be absent. *)
Record Parameters : Type := {
  param_tasks : option (list string);
  param_taskId : option string;
  param_allowedPhases : option (list Z);
}.

Module BusinessRule.
Record t : Type := mk {
  id : string;
  type : RuleType;
  name : string;
  description : string;
  parameters : Parameters;
  active : bool;
}.
End BusinessRule.

Global Instance Severity_eq_dec : EqDecision Severity.
Proof. solve_decision. Defined.
Global Instance Entity_eq_dec : EqDecision Entity.
Proof. solve_decision. Defined.
Global Instance RuleType_eq_dec : EqDecision RuleType.
Proof. solve_decision. Defined.
Global Instance ValidationError_eq_dec : EqDecision ValidationError.t.
Proof. solve_decision. Defined.

(** ** The monad of the checks *)

Inductive outcome (A : Type) : Type :=
  | Returned (a : A)
  | Thrown
  | OutOfFuel.
Arguments Returned {A} a.
Arguments Thrown {A}.
Arguments OutOfFuel {A}.

Definition M (A : Type) : Type :=
  list ValidationError.t -> outcome (A * list ValidationError.t).

Definition ret {A} (a : A) : M A := fun errors => Returned (a, errors).

Definition bind {A B} (m : M A) (k : A -> M B) : M B :=
  fun errors =>
    match m errors with
    | Returned (a, errors') => k a errors'
    | Thrown => Thrown
    | OutOfFuel => OutOfFuel
    end.

Notation "x <- m ;; k" := (bind m (fun x => k))
  (at level 100, m at next level, right associativity).
Notation "m ;;; k" := (bind m (fun _ => k))
  (at level 100, right associativity).

(** [errors.push(e)] *)
Definition push (e : ValidationError.t) : M unit :=
  fun errors => Returned (tt, errors ++ [e]).

(** A [TypeError]. *)
Definition throw {A} : M A := fun _ => Thrown.

Definition outOfFuel {A} : M A := fun _ => OutOfFuel.

(** Reading a property (or calling a method) of a value that may be
    undefined. *)
Definition deref {A} (o : option A) : M A :=
  match o with
  | Some a => ret a
  | None => throw
  end.

(** [if (c) { m }] *)
Definition when (c : bool) (m : M unit) : M unit :=
  if c then m else ret tt.

(** [for (const x of xs) { body }] *)
Fixpoint forEach {A} (xs : list A) (body : A -> M unit) : M unit :=
  match xs with
  | [] => ret tt
  | x :: xs' => body x ;;; forEach xs' body
  end.

(** [xs.filter(p)] with a callback that may throw. *)
Fixpoint filterM {A} (p : A -> M bool) (xs : list A) : M (list A) :=
  match xs with
  | [] => ret []
  | x :: xs' =>
      b <- p x ;;
      r <- filterM p xs' ;;
      ret (if b then x :: r else r)
  end.

(** [xs.some(p)] and [xs.every(p)] with a callback that may throw; both
    stop at the first decisive element. *)
Fixpoint someM {A} (p : A -> M bool) (xs : list A) : M bool :=
  match xs with
  | [] => ret false
  | x :: xs' => b <- p x ;; if b then ret true else someM p xs'
  end.

Fixpoint everyM {A} (p : A -> M bool) (xs : list A) : M bool :=
  match xs with
  | [] => ret true
  | x :: xs' => b <- p x ;; if b then everyM p xs' else ret false
  end.


(** ** The twelve checks *)

(** The double-quote character of the messages. *)
Definition dquote : string :=
  String (Ascii.Ascii false true false false false true false false) "".

(** The value of a dynamic property read [record[field]], as far as
    [validateRequiredFields] looks at it: its truthiness and, for an
    array, its length. *)
Inductive JsValue : Type :=
  | VUndefined
  | VString (s : string)
  | VNumber (n : Z)
  | VArray (length : Z).

Definition ofString (o : option string) : JsValue :=
  match o with
  | Some s => VString s
  | None => VUndefined
  end.

Definition ofArray {A} (o : option (list A)) : JsValue :=
  match o with
  | Some xs => VArray (Js.len xs)
  | None => VUndefined
  end.

(** [!v] *)
Definition falsy (v : JsValue) : bool :=
  match v with
  | VUndefined => true
  | VString s => String.eqb s ""
  | VNumber n => n =? 0
  | VArray _ => false
  end.

(** [Array.isArray(v) && v.length === 0] *)
Definition isEmptyArray (v : JsValue) : bool :=
  match v with
  | VArray n => n =? 0
  | _ => false
  end.

Definition clientField (client : ClientData) (field : string) : JsValue :=
  if String.eqb field "ClientID" then ofString (ClientID client)
  else if String.eqb field "ClientName" then ofString (ClientName client)
  else if String.eqb field "PriorityLevel" then VNumber (PriorityLevel client)
  else if String.eqb field "RequestedTaskIDs"
       then ofArray (RequestedTaskIDs client)
  else VUndefined.

Definition workerField (worker : WorkerData) (field : string) : JsValue :=
  if String.eqb field "WorkerID" then ofString (WorkerID worker)
  else if String.eqb field "WorkerName" then ofString (WorkerName worker)
  else if String.eqb field "Skills" then ofArray (Skills worker)
  else if String.eqb field "AvailableSlots"
       then ofArray (AvailableSlots worker)
  else if String.eqb field "MaxLoadPerPhase"
       then VNumber (MaxLoadPerPhase worker)
  else VUndefined.

Definition taskField (task : TaskData) (field : string) : JsValue :=
  if String.eqb field "TaskID" then ofString (TaskID task)
  else if String.eqb field "TaskName" then ofString (TaskName task)
  else if String.eqb field "Duration" then VNumber (Duration task)
  else if String.eqb field "RequiredSkills"
       then ofArray (RequiredSkills task)
  else if String.eqb field "PreferredPhases"
       then ofArray (PreferredPhases task)
  else if String.eqb field "MaxConcurrent" then VNumber (MaxConcurrent task)
  else VUndefined.

(** *** 1. Missing required fields *)

Definition requiredClientFields : list string :=
  ["ClientID"; "ClientName"; "PriorityLevel"].

Definition requiredWorkerFields : list string :=
  ["WorkerID"; "WorkerName"; "Skills"; "AvailableSlots"; "MaxLoadPerPhase"].

Definition requiredTaskFields : list string :=
  ["TaskID"; "TaskName"; "Duration"; "RequiredSkills"].

Definition validateRequiredFields
    (clientsData : list ClientData) (workersData : list WorkerData)
    (tasksData : list TaskData) : M unit :=
  forEach clientsData (fun client =>
    forEach requiredClientFields (fun field =>
      when (falsy (clientField client field))
        (push {|
          ValidationError.id :=
            "client-" +:+ Js.strOr (ClientID client) "unknown"
              +:+ "-missing-" +:+ field;
          ValidationError.type := error;
          ValidationError.entity := clients;
          ValidationError.entityId :=
            Some (Js.strOr (ClientID client) "Unknown");
          ValidationError.field := Some field;
          ValidationError.message :=
            "Required field " +:+ dquote +:+ field +:+ dquote
              +:+ " is missing";
          ValidationError.suggestion := Some ("Add a value for " +:+ field);
        |}))) ;;;
  forEach workersData (fun worker =>
    forEach requiredWorkerFields (fun field =>
      when (falsy (workerField worker field)
            || isEmptyArray (workerField worker field))
        (push {|
          ValidationError.id :=
            "worker-" +:+ Js.strOr (WorkerID worker) "unknown"
              +:+ "-missing-" +:+ field;
          ValidationError.type := error;
          ValidationError.entity := workers;
          ValidationError.entityId :=
            Some (Js.strOr (WorkerID worker) "Unknown");
          ValidationError.field := Some field;
          ValidationError.message :=
            "Required field " +:+ dquote +:+ field +:+ dquote
              +:+ " is missing or empty";
          ValidationError.suggestion := Some ("Add a value for " +:+ field);
        |}))) ;;;
  forEach tasksData (fun task =>
    forEach requiredTaskFields (fun field =>
      when (falsy (taskField task field)
            || isEmptyArray (taskField task field))
        (push {|
          ValidationError.id :=
            "task-" +:+ Js.strOr (TaskID task) "unknown"
              +:+ "-missing-" +:+ field;
          ValidationError.type := error;
          ValidationError.entity := tasks;
          ValidationError.entityId :=
            Some (Js.strOr (TaskID task) "Unknown");
          ValidationError.field := Some field;
          ValidationError.message :=
            "Required field " +:+ dquote +:+ field +:+ dquote
              +:+ " is missing or empty";
          ValidationError.suggestion := Some ("Add a value for " +:+ field);
        |}))).

(** *** 2. Duplicate IDs *)

(** [ids.filter((id, index) => ids.indexOf(id) !== index)] *)
Definition repeated (ids : list (option string)) : list (option string) :=
  Js.filterIndex (fun id index => negb (Js.indexOf ids id =? index)) ids.

Definition duplicateClient (duplicateId : option string)
  : ValidationError.t := {|
  ValidationError.id := "duplicate-client-" +:+ Js.str duplicateId;
  ValidationError.type := error;
  ValidationError.entity := clients;
  ValidationError.entityId := duplicateId;
  ValidationError.field := None;
  ValidationError.message := "Duplicate Client ID: " +:+ Js.str duplicateId;
  ValidationError.suggestion := Some "Ensure all Client IDs are unique";
|}.

Definition duplicateWorker (duplicateId : option string)
  : ValidationError.t := {|
  ValidationError.id := "duplicate-worker-" +:+ Js.str duplicateId;
  ValidationError.type := error;
  ValidationError.entity := workers;
  ValidationError.entityId := duplicateId;
  ValidationError.field := None;
  ValidationError.message := "Duplicate Worker ID: " +:+ Js.str duplicateId;
  ValidationError.suggestion := Some "Ensure all Worker IDs are unique";
|}.

Definition duplicateTask (duplicateId : option string)
  : ValidationError.t := {|
  ValidationError.id := "duplicate-task-" +:+ Js.str duplicateId;
  ValidationError.type := error;
  ValidationError.entity := tasks;
  ValidationError.entityId := duplicateId;
  ValidationError.field := None;
  ValidationError.message := "Duplicate Task ID: " +:+ Js.str duplicateId;
  ValidationError.suggestion := Some "Ensure all Task IDs are unique";
|}.

Definition validateDuplicateIds
    (clientsData : list ClientData) (workersData : list WorkerData)
    (tasksData : list TaskData) : M unit :=
  let clientIds := List.filter Js.truthy (map ClientID clientsData) in
  let duplicateClientIds := repeated clientIds in
  forEach (Js.newSet duplicateClientIds) (fun duplicateId =>
    push (duplicateClient duplicateId)) ;;;
  let workerIds := List.filter Js.truthy (map WorkerID workersData) in
  let duplicateWorkerIds := repeated workerIds in
  forEach (Js.newSet duplicateWorkerIds) (fun duplicateId =>
    push (duplicateWorker duplicateId)) ;;;
  let taskIds := List.filter Js.truthy (map TaskID tasksData) in
  let duplicateTaskIds := repeated taskIds in
  forEach (Js.newSet duplicateTaskIds) (fun duplicateId =>
    push (duplicateTask duplicateId)).

(** *** 3. Malformed lists *)

Definition validateMalformedLists
    (clientsData : list ClientData) (workersData : list WorkerData)
    (tasksData : list TaskData) : M unit :=
  forEach workersData (fun worker =>
    slots <- deref (AvailableSlots worker) ;;
    when (existsb Js.notANumber slots)
      (push {|
        ValidationError.id :=
          "worker-" +:+ Js.str (WorkerID worker) +:+ "-malformed-slots";
        ValidationError.type := error;
        ValidationError.entity := workers;
        ValidationError.entityId := WorkerID worker;
        ValidationError.field := Some "AvailableSlots";
        ValidationError.message :=
          "Available slots must contain only numeric values";
        ValidationError.suggestion :=
          Some "Ensure all slot values are valid numbers";
      |})) ;;;
  forEach tasksData (fun task =>
    phases <- deref (PreferredPhases task) ;;
    when (existsb Js.notANumber phases)
      (push {|
        ValidationError.id :=
          "task-" +:+ Js.str (TaskID task) +:+ "-malformed-phases";
        ValidationError.type := error;
        ValidationError.entity := tasks;
        ValidationError.entityId := TaskID task;
        ValidationError.field := Some "PreferredPhases";
        ValidationError.message :=
          "Preferred phases must contain only numeric values";
        ValidationError.suggestion :=
          Some "Ensure all phase values are valid numbers";
      |})).

(** *** 4. Out-of-range values *)

Definition validateRangeValues
    (clientsData : list ClientData) (workersData : list WorkerData)
    (tasksData : list TaskData) : M unit :=
  forEach clientsData (fun client =>
    when ((PriorityLevel client <? 1) || (PriorityLevel client >? 5))
      (push {|
        ValidationError.id :=
          "client-" +:+ Js.str (ClientID client) +:+ "-invalid-priority";
        ValidationError.type := error;
        ValidationError.entity := clients;
        ValidationError.entityId := ClientID client;
        ValidationError.field := Some "PriorityLevel";
        ValidationError.message :=
          "Priority level must be between 1-5, got "
            +:+ pretty (PriorityLevel client);
        ValidationError.suggestion :=
          Some "Set priority level to a value between 1 (lowest) and 5 (highest)";
      |})) ;;;
  forEach tasksData (fun task =>
    when (Duration task <? 1)
      (push {|
        ValidationError.id :=
          "task-" +:+ Js.str (TaskID task) +:+ "-invalid-duration";
        ValidationError.type := error;
        ValidationError.entity := tasks;
        ValidationError.entityId := TaskID task;
        ValidationError.field := Some "Duration";
        ValidationError.message :=
          "Duration must be at least 1, got " +:+ pretty (Duration task);
        ValidationError.suggestion :=
          Some "Set duration to a positive number of phases";
      |}) ;;;
    when (MaxConcurrent task <? 1)
      (push {|
        ValidationError.id :=
          "task-" +:+ Js.str (TaskID task) +:+ "-invalid-concurrent";
        ValidationError.type := error;
        ValidationError.entity := tasks;
        ValidationError.entityId := TaskID task;
        ValidationError.field := Some "MaxConcurrent";
        ValidationError.message := "Max concurrent must be at least 1";
        ValidationError.suggestion :=
          Some "Set a positive number for maximum parallel assignments";
      |})) ;;;
  forEach workersData (fun worker =>
    when (MaxLoadPerPhase worker <? 1)
      (push {|
        ValidationError.id :=
          "worker-" +:+ Js.str (WorkerID worker) +:+ "-invalid-load";
        ValidationError.type := error;
        ValidationError.entity := workers;
        ValidationError.entityId := WorkerID worker;
        ValidationError.field := Some "MaxLoadPerPhase";
        ValidationError.message := "Max load per phase must be at least 1";
        ValidationError.suggestion :=
          Some "Set a positive number for maximum workload capacity";
      |}) ;;;
    slots <- deref (AvailableSlots worker) ;;
    when (existsb (fun slot => slot <? 1) slots)
      (push {|
        ValidationError.id :=
          "worker-" +:+ Js.str (WorkerID worker) +:+ "-invalid-slots";
        ValidationError.type := error;
        ValidationError.entity := workers;
        ValidationError.entityId := WorkerID worker;
        ValidationError.field := Some "AvailableSlots";
        ValidationError.message := "Available slots must be positive numbers";
        ValidationError.suggestion :=
          Some "Ensure all phase numbers are 1 or greater";
      |})).

(** *** 5. Broken JSON *)

(** [JSON_parses s] tells whether [JSON.parse(s)] returns rather than
    throws; the parser is the language's own and is taken as given. *)
Definition validateJSONFields (JSON_parses : string -> bool)
    (clientsData : list ClientData) : M unit :=
  forEach clientsData (fun client =>
    let parsed :=
      match AttributesJSON client with
      | AttrString s => if String.eqb s "" then true else JSON_parses s
      | _ => true
      end in
    when (negb parsed)
      (push {|
        ValidationError.id :=
          "client-" +:+ Js.str (ClientID client) +:+ "-broken-json";
        ValidationError.type := error;
        ValidationError.entity := clients;
        ValidationError.entityId := ClientID client;
        ValidationError.field := Some "AttributesJSON";
        ValidationError.message :=
          "Invalid JSON format in AttributesJSON field";
        ValidationError.suggestion :=
          Some "Fix the JSON syntax or use the object format";
      |})).

(** *** 6. Unknown references *)

Definition unknownTask (client : ClientData) (taskId : string)
  : ValidationError.t := {|
  ValidationError.id :=
    "client-" +:+ Js.str (ClientID client) +:+ "-unknown-task-" +:+ taskId;
  ValidationError.type := error;
  ValidationError.entity := clients;
  ValidationError.entityId := ClientID client;
  ValidationError.field := Some "RequestedTaskIDs";
  ValidationError.message :=
    "Requested task " +:+ dquote +:+ taskId +:+ dquote +:+ " does not exist";
  ValidationError.suggestion :=
    Some "Remove this task ID or add the corresponding task to the tasks data";
|}.

Definition validateReferences
    (clientsData : list ClientData) (workersData : list WorkerData)
    (tasksData : list TaskData) : M unit :=
  let taskIds := Js.newSet (map TaskID tasksData) in
  forEach clientsData (fun client =>
    requested <- deref (RequestedTaskIDs client) ;;
    forEach requested (fun taskId =>
      when (negb (Js.includes taskIds (Some taskId)))
        (push (unknownTask client taskId)))).

(** *** 7. Circular co-run groups *)

(** [rule.parameters.tasks || []] *)
Definition tasksOf (rule : BusinessRule.t) : list string :=
  default [] (param_tasks (BusinessRule.parameters rule)).

Definition isCoRun (rule : BusinessRule.t) : bool :=
  bool_decide (BusinessRule.type rule = coRun).

Definition isPhaseWindow (rule : BusinessRule.t) : bool :=
  bool_decide (BusinessRule.type rule = phaseWindow).

(** The two sets that the closure [hasCycle] captures and mutates. *)
Record CycleState : Type := {
  visited : gset string;
  recursionStack : gset string;
}.

(** [r.id !== rule.id && r.parameters.tasks?.includes(taskId)] *)
Definition isRelated (rule : BusinessRule.t) (taskId : string)
    (r : BusinessRule.t) : bool :=
  negb (String.eqb (BusinessRule.id r) (BusinessRule.id rule))
  && match param_tasks (BusinessRule.parameters r) with
     | Some ts => Js.includes ts taskId
     | None => false
     end.

(** The inner loop of [hasCycle] over the tasks of one related rule;
    [call] is the recursive call.  The result [true] is the early
    [return true]. *)
Fixpoint relatedTasksLoop
    (call : string -> CycleState -> option (bool * CycleState))
    (taskId : string) (relatedTasks : list string) (st : CycleState)
  : option (bool * CycleState) :=
  match relatedTasks with
  | [] => Some (false, st)
  | relatedTask :: rest =>
      if String.eqb relatedTask taskId
      then relatedTasksLoop call taskId rest st
      else
        match call relatedTask st with
        | None => None
        | Some (true, st') => Some (true, st')
        | Some (false, st') => relatedTasksLoop call taskId rest st'
        end
  end.

(** The outer loop of [hasCycle] over the related rules. *)
Fixpoint relatedRulesLoop
    (call : string -> CycleState -> option (bool * CycleState))
    (taskId : string) (relatedRules : list BusinessRule.t) (st : CycleState)
  : option (bool * CycleState) :=
  match relatedRules with
  | [] => Some (false, st)
  | relatedRule :: rest =>
      match relatedTasksLoop call taskId (tasksOf relatedRule) st with
      | None => None
      | Some (true, st') => Some (true, st')
      | Some (false, st') => relatedRulesLoop call taskId rest st'
      end
  end.

(** [hasCycle], by recursion on [fuel]; [None] is fuel exhaustion. *)
Fixpoint hasCycle (coRunRules : list BusinessRule.t) (rule : BusinessRule.t)
    (fuel : nat) (taskId : string) (st : CycleState)
  : option (bool * CycleState) :=
  match fuel with
  | O => None
  | S fuel' =>
      if bool_decide (taskId ∈ recursionStack st) then Some (true, st)
      else if bool_decide (taskId ∈ visited st) then Some (false, st)
      else
        let st1 := {| visited := {[taskId]} ∪ visited st;
                      recursionStack := {[taskId]} ∪ recursionStack st |} in
        let relatedRules := List.filter (isRelated rule taskId) coRunRules in
        match relatedRulesLoop (hasCycle coRunRules rule fuel') taskId
                relatedRules st1 with
        | None => None
        | Some (true, st') => Some (true, st')
        | Some (false, st') =>
            Some (false, {| visited := visited st';
                            recursionStack := recursionStack st' ∖ {[taskId]} |})
        end
  end.

Definition circularCoRun (rule : BusinessRule.t) (taskId : string)
  : ValidationError.t := {|
  ValidationError.id := "circular-corun-" +:+ BusinessRule.id rule;
  ValidationError.type := error;
  ValidationError.entity := tasks;
  ValidationError.entityId := Some taskId;
  ValidationError.field := None;
  ValidationError.message :=
    "Circular co-run dependency detected in rule " +:+ dquote
      +:+ BusinessRule.name rule +:+ dquote;
  ValidationError.suggestion :=
    Some "Remove circular dependencies between co-run task groups";
|}.

(** [for (const taskId of tasks) { if (hasCycle(taskId)) { push; break } }] *)
Fixpoint scanTasks (coRunRules : list BusinessRule.t) (rule : BusinessRule.t)
    (fuel : nat) (taskIds : list string) (st : CycleState) : M unit :=
  match taskIds with
  | [] => ret tt
  | taskId :: rest =>
      match hasCycle coRunRules rule fuel taskId st with
      | None => outOfFuel
      | Some (true, _) => push (circularCoRun rule taskId)
      | Some (false, st') => scanTasks coRunRules rule fuel rest st'
      end
  end.

(** One more than the number of task entries of all co-run rules: every
    call of [hasCycle] that does not return at once marks a task that was
    not yet visited, so the recursion is never deeper than that. *)
Definition cycleFuel (coRunRules : list BusinessRule.t) : nat :=
  S (length (flat_map tasksOf coRunRules)).

Definition validateCircularCoRuns (businessRules : list BusinessRule.t)
  : M unit :=
  let coRunRules := List.filter isCoRun businessRules in
  forEach coRunRules (fun rule =>
    let tasks := tasksOf rule in
    scanTasks coRunRules rule (cycleFuel coRunRules) tasks
      {| visited := ∅; recursionStack := ∅ |}).

(** *** 8. Co-run rules against phase windows *)

(** [for (const x of xs) { acc = step acc x }] on a local variable. *)
Fixpoint foldM {S A} (step : S -> A -> M S) (xs : list A) (acc : S) : M S :=
  match xs with
  | [] => ret acc
  | x :: xs' => acc' <- step acc x ;; foldM step xs' acc'
  end.

(** The body of the loop that fills [taskPhaseWindows].  A window is stored
    as it is read, so it is [None] when the task has no [PreferredPhases]. *)
Definition recordWindow (phaseWindowRules : list BusinessRule.t)
    (tasksData : list TaskData)
    (taskPhaseWindows : list (string * option (list Z))) (taskId : string)
  : list (string * option (list Z)) :=
  let task :=
    Js.find (fun t => bool_decide (TaskID t = Some taskId)) tasksData in
  let taskPhaseWindows :=
    match task with
    | Some task => Js.mapSet taskPhaseWindows taskId (PreferredPhases task)
    | None => taskPhaseWindows
    end in
  let phaseRule :=
    Js.find (fun rule =>
      bool_decide (param_taskId (BusinessRule.parameters rule) = Some taskId))
      phaseWindowRules in
  match phaseRule with
  | Some phaseRule =>
      Js.mapSet taskPhaseWindows taskId
        (Some (default []
                 (param_allowedPhases (BusinessRule.parameters phaseRule))))
  | None => taskPhaseWindows
  end.

(** [common.filter((phase) => phases.includes(phase))] *)
Definition commonWith (common phases : option (list Z))
  : M (option (list Z)) :=
  common <- deref common ;;
  kept <- filterM (fun phase =>
            phases <- deref phases ;; ret (Js.includes phases phase)) common ;;
  ret (Some kept).

(** [phaseArrays.reduce(callback)], without an initial value. *)
Definition reduceCommon (phaseArrays : list (option (list Z)))
  : M (option (list Z)) :=
  match phaseArrays with
  | [] => throw
  | first :: rest => foldM commonWith rest first
  end.

Definition conflictingPhases (coRunRule : BusinessRule.t)
    (coRunTasks : list string) : ValidationError.t := {|
  ValidationError.id := "conflicting-phases-" +:+ BusinessRule.id coRunRule;
  ValidationError.type := error;
  ValidationError.entity := tasks;
  ValidationError.entityId := Some (Js.join ", " coRunTasks);
  ValidationError.field := None;
  ValidationError.message :=
    "Co-run tasks have no overlapping phase windows: "
      +:+ Js.join ", " coRunTasks;
  ValidationError.suggestion :=
    Some "Adjust phase windows to allow co-run tasks to execute in the same phases";
|}.

(** The body of the loop over the co-run rules. *)
Definition checkCoRunRule (phaseWindowRules : list BusinessRule.t)
    (tasksData : list TaskData) (coRunRule : BusinessRule.t) : M unit :=
  let coRunTasks := tasksOf coRunRule in
  let taskPhaseWindows :=
    fold_left (recordWindow phaseWindowRules tasksData) coRunTasks [] in
  let phaseArrays := Js.mapValues taskPhaseWindows in
  when (Js.len phaseArrays >? 1)
    (commonPhases <- reduceCommon phaseArrays ;;
     commonPhases <- deref commonPhases ;;
     when (Js.len commonPhases =? 0)
       (push (conflictingPhases coRunRule coRunTasks))).

Definition validateRuleConflicts (businessRules : list BusinessRule.t)
    (tasksData : list TaskData) : M unit :=
  let phaseWindowRules := List.filter isPhaseWindow businessRules in
  let coRunRules := List.filter isCoRun businessRules in
  forEach coRunRules (checkCoRunRule phaseWindowRules tasksData).

(** *** 9. Overloaded workers *)

Definition validateWorkerOverload (workersData : list WorkerData) : M unit :=
  forEach workersData (fun worker =>
    slots <- deref (AvailableSlots worker) ;;
    when (Js.len slots <? MaxLoadPerPhase worker)
      (push {|
        ValidationError.id :=
          "worker-" +:+ Js.str (WorkerID worker) +:+ "-overloaded";
        ValidationError.type := warning;
        ValidationError.entity := workers;
        ValidationError.entityId := WorkerID worker;
        ValidationError.field := None;
        ValidationError.message :=
          "Worker has fewer available slots (" +:+ pretty (Js.len slots)
            +:+ ") than max load capacity ("
            +:+ pretty (MaxLoadPerPhase worker) +:+ ")";
        ValidationError.suggestion :=
          Some "Consider increasing available slots or reducing max load per phase";
      |})).

(** *** 10. Phase-slot saturation *)

(** [m.set(phase, (m.get(phase) || 0) + amount)] *)
Definition addTo (amount : Z) (m : list (Z * Z)) (phase : Z) : list (Z * Z) :=
  Js.mapSet m phase (Js.add (Js.getOr0 m phase) amount).

Definition phaseSaturation (phase required available : Z)
  : ValidationError.t := {|
  ValidationError.id := "phase-saturation-" +:+ pretty phase;
  ValidationError.type := warning;
  ValidationError.entity := tasks;
  ValidationError.entityId := Some ("Phase " +:+ pretty phase);
  ValidationError.field := None;
  ValidationError.message :=
    "Phase " +:+ pretty phase +:+ " is oversaturated: requires "
      +:+ pretty required +:+ " slots but only " +:+ pretty available
      +:+ " available";
  ValidationError.suggestion :=
    Some "Add more workers to this phase or redistribute tasks to other phases";
|}.

Definition validatePhaseSlotSaturation (workersData : list WorkerData)
    (tasksData : list TaskData) : M unit :=
  phaseSlots <-
    foldM (fun phaseSlots worker =>
      slots <- deref (AvailableSlots worker) ;;
      ret (fold_left (addTo (MaxLoadPerPhase worker)) slots phaseSlots))
      workersData [] ;;
  phaseRequirements <-
    foldM (fun phaseRequirements task =>
      preferred <- deref (PreferredPhases task) ;;
      let phases := if Js.len preferred >? 0 then preferred else [1] in
      ret (fold_left (addTo (Duration task)) phases phaseRequirements))
      tasksData [] ;;
  forEach phaseRequirements (fun '(phase, required) =>
    let available := Js.getOr0 phaseSlots phase in
    when (required >? available)
      (push (phaseSaturation phase required available))).

(** *** 11. Skill coverage *)

Definition validateSkillCoverage (workersData : list WorkerData)
    (tasksData : list TaskData) : M unit :=
  availableSkills <-
    foldM (fun availableSkills worker =>
      skills <- deref (Skills worker) ;;
      ret (fold_left Js.setAdd skills availableSkills))
      workersData [] ;;
  forEach tasksData (fun task =>
    required <- deref (RequiredSkills task) ;;
    forEach required (fun skill =>
      when (negb (Js.includes availableSkills skill))
        (push {|
          ValidationError.id :=
            "task-" +:+ Js.str (TaskID task) +:+ "-missing-skill-" +:+ skill;
          ValidationError.type := warning;
          ValidationError.entity := tasks;
          ValidationError.entityId := TaskID task;
          ValidationError.field := Some "RequiredSkills";
          ValidationError.message :=
            "No worker has the required skill " +:+ dquote +:+ skill
              +:+ dquote;
          ValidationError.suggestion :=
            Some "Add a worker with this skill or remove it from task requirements";
        |}))).

(** *** 12. Max-concurrency feasibility *)

Definition infeasibleConcurrency (task : TaskData) (qualified : Z)
  : ValidationError.t := {|
  ValidationError.id :=
    "task-" +:+ Js.str (TaskID task) +:+ "-infeasible-concurrency";
  ValidationError.type := warning;
  ValidationError.entity := tasks;
  ValidationError.entityId := TaskID task;
  ValidationError.field := Some "MaxConcurrent";
  ValidationError.message :=
    "Max concurrent (" +:+ pretty (MaxConcurrent task)
      +:+ ") exceeds qualified workers (" +:+ pretty qualified +:+ ")";
  ValidationError.suggestion :=
    Some "Reduce max concurrent value or add more qualified workers";
|}.

Definition infeasiblePhaseConcurrency (task : TaskData) (available : Z)
  : ValidationError.t := {|
  ValidationError.id :=
    "task-" +:+ Js.str (TaskID task) +:+ "-infeasible-phase-concurrency";
  ValidationError.type := warning;
  ValidationError.entity := tasks;
  ValidationError.entityId := TaskID task;
  ValidationError.field := None;
  ValidationError.message :=
    "Max concurrent (" +:+ pretty (MaxConcurrent task)
      +:+ ") exceeds available qualified workers (" +:+ pretty available
      +:+ ") in preferred phases";
  ValidationError.suggestion :=
    Some "Adjust preferred phases, reduce max concurrent, or add more qualified workers";
|}.

(** The body of the loop over the tasks. *)
Definition checkTaskConcurrency (workersData : list WorkerData)
    (task : TaskData) : M unit :=
  qualifiedWorkers <-
    filterM (fun worker =>
      required <- deref (RequiredSkills task) ;;
      everyM (fun skill =>
        skills <- deref (Skills worker) ;; ret (Js.includes skills skill))
        required)
      workersData ;;
  when (MaxConcurrent task >? Js.len qualifiedWorkers)
    (push (infeasibleConcurrency task (Js.len qualifiedWorkers))) ;;;
  preferred <- deref (PreferredPhases task) ;;
  when (Js.len preferred >? 0)
    (availableWorkers <-
       filterM (fun worker =>
         slots <- deref (AvailableSlots worker) ;;
         ret (existsb (fun slot => Js.includes preferred slot) slots))
         qualifiedWorkers ;;
     when (MaxConcurrent task >? Js.len availableWorkers)
       (push (infeasiblePhaseConcurrency task (Js.len availableWorkers)))).

Definition validateMaxConcurrencyFeasibility (workersData : list WorkerData)
    (tasksData : list TaskData) : M unit :=
  forEach tasksData (checkTaskConcurrency workersData).

(** ** The orchestrator *)

Definition runChecks (JSON_parses : string -> bool)
    (clientsData : list ClientData) (workersData : list WorkerData)
    (tasksData : list TaskData) (businessRules : list BusinessRule.t)
  : M unit :=
  validateRequiredFields clientsData workersData tasksData ;;;
  validateDuplicateIds clientsData workersData tasksData ;;;
  validateMalformedLists clientsData workersData tasksData ;;;
  validateRangeValues clientsData workersData tasksData ;;;
  validateJSONFields JSON_parses clientsData ;;;
  validateReferences clientsData workersData tasksData ;;;
  validateCircularCoRuns businessRules ;;;
  validateRuleConflicts businessRules tasksData ;;;
  validateWorkerOverload workersData ;;;
  validatePhaseSlotSaturation workersData tasksData ;;;
  validateSkillCoverage workersData tasksData ;;;
  validateMaxConcurrencyFeasibility workersData tasksData.

(** [runValidations]: the checks run on a fresh [errors] array, which is
    returned. *)
Definition runValidations (JSON_parses : string -> bool)
    (clientsData : list ClientData) (workersData : list WorkerData)
    (tasksData : list TaskData) (businessRules : list BusinessRule.t)
  : outcome (list ValidationError.t) :=
  match runChecks JSON_parses clientsData workersData tasksData businessRules
          [] with
  | Returned (_, errors) => Returned errors
  | Thrown => Thrown
  | OutOfFuel => OutOfFuel
  end.

(** * Vocabulary of the properties

    The definitions below are not part of the engine: they name what the
    theorems say about it. *)

(** ** Outcomes of a check *)

(** [appends m a out]: whatever [errors] holds, [m] neither throws nor
    runs out of fuel; it returns [a] and leaves [errors] extended by
    [out]. *)
Definition appends {A} (m : M A) (a : A) (out : list ValidationError.t)
  : Prop :=
  forall errors, m errors = Returned (a, errors ++ out).

(** [returns m]: whatever [errors] holds, [m] returns, having appended
    findings that do not depend on [errors]. *)
Definition returns {A} (m : M A) : Prop :=
  exists a out, appends m a out.

(** [throws m]: whatever [errors] holds, [m] throws. *)
Definition throws {A} (m : M A) : Prop :=
  forall errors, m errors = Thrown.

(** [halts m]: whatever [errors] holds, [m] does not run out of fuel; it
    returns or throws. *)
Definition halts {A} (m : M A) : Prop :=
  forall errors, m errors <> OutOfFuel.

(** ** Records and their list fields *)

(** The list fields of a record, read as empty when the record lacks
    them. *)
Definition skillsOf (worker : WorkerData) : list string :=
  default [] (Skills worker).
Definition slotsOf (worker : WorkerData) : list Z :=
  default [] (AvailableSlots worker).
Definition requiredOf (task : TaskData) : list string :=
  default [] (RequiredSkills task).
Definition preferredOf (task : TaskData) : list Z :=
  default [] (PreferredPhases task).

(** Records that carry every list field their type declares. *)
Definition clientComplete (client : ClientData) : Prop :=
  is_Some (RequestedTaskIDs client).
Definition workerComplete (worker : WorkerData) : Prop :=
  is_Some (Skills worker) /\ is_Some (AvailableSlots worker).
Definition taskComplete (task : TaskData) : Prop :=
  is_Some (RequiredSkills task) /\ is_Some (PreferredPhases task).

(** Records that lack a list field their type declares. *)
Definition clientIncomplete (client : ClientData) : Prop :=
  RequestedTaskIDs client = None.
Definition workerIncomplete (worker : WorkerData) : Prop :=
  Skills worker = None \/ AvailableSlots worker = None.
Definition taskIncomplete (task : TaskData) : Prop :=
  RequiredSkills task = None \/ PreferredPhases task = None.

(** ** Duplicate IDs *)

(** How many records of a collection carry the primary key [k]. *)
Definition occurrences (k : option string) (ids : list (option string))
  : nat :=
  length (List.filter (fun id => bool_decide (id = k)) ids).

(** [k] is a set, non-empty key shared by at least two records. *)
Definition duplicated (k : option string) (ids : list (option string))
  : Prop :=
  Js.truthy k = true /\ (2 <= occurrences k ids)%nat.

(** The non-empty key [k] is shared by at least two records. *)
Definition sharedKey (k : string) (ids : list (option string)) : Prop :=
  k <> "" /\ (2 <= occurrences (Some k) ids)%nat.

(** The duplicate finding that names the key [k] of a collection, as the
    specification asks for it: an error of the collection, whose id,
    entity id and message carry the key. *)
Definition duplicateFinding (collection : Entity) (word Word key : string)
  : ValidationError.t := {|
  ValidationError.id := "duplicate-" +:+ word +:+ "-" +:+ key;
  ValidationError.type := error;
  ValidationError.entity := collection;
  ValidationError.entityId := Some key;
  ValidationError.field := None;
  ValidationError.message := "Duplicate " +:+ Word +:+ " ID: " +:+ key;
  ValidationError.suggestion :=
    Some ("Ensure all " +:+ Word +:+ " IDs are unique");
|}.

(** ** Unknown references *)

(** The requested task IDs of a client, in order. *)
Definition requestsOf (client : ClientData) : list string :=
  default [] (RequestedTaskIDs client).

(** [taskId] is the [TaskID] of some task: equality of strings, nothing
    weaker. *)
Definition taskExists (tasksData : list TaskData) (taskId : string) : bool :=
  bool_decide (Some taskId ∈ map TaskID tasksData).

(** The finding [e] names [taskId] as a requested task that does not
    exist. *)
Definition referencesTask (taskId : string) (e : ValidationError.t) : bool :=
  bool_decide
    (ValidationError.message e
     = "Requested task " +:+ dquote +:+ taskId +:+ dquote
         +:+ " does not exist").

(** ** Cycle detection *)

(** The task entries of the co-run rules that [hasCycle] has not visited
    yet: the measure that bounds its recursion. *)
Definition unvisited (coRunRules : list BusinessRule.t) (st : CycleState)
  : list string :=
  List.filter (fun t => bool_decide (t ∉ visited st))
    (flat_map tasksOf coRunRules).

(** What a call of [hasCycle] guarantees while fewer than [bound] entries
    are unvisited: a result, and a visited set that only grew. *)
Definition returnsGrowing (coRunRules : list BusinessRule.t)
    (call : string -> CycleState -> option (bool * CycleState))
    (bound : nat) : Prop :=
  forall t st, (length (unvisited coRunRules st) < bound)%nat ->
    exists b st', call t st = Some (b, st') /\ visited st ⊆ visited st'.

(** What one co-run rule contributes to the cycle findings: nothing, or
    one finding that names one of its tasks. *)
Definition atMostOneCycleFinding (rule : BusinessRule.t)
    (out : list ValidationError.t) : Prop :=
  out = [] \/ exists taskId, taskId ∈ tasksOf rule
                             /\ out = [circularCoRun rule taskId].

(** No task is a member of two co-run rules; as the engine does, two
    rules are told apart by their [id]. *)
Definition noSharedTask (coRunRules : list BusinessRule.t) : Prop :=
  forall r1 r2 t,
    r1 ∈ coRunRules -> r2 ∈ coRunRules ->
    BusinessRule.id r1 <> BusinessRule.id r2 ->
    t ∈ tasksOf r1 -> t ∉ tasksOf r2.

(** Two co-run rules overlap: they have different ids, share a task, and
    one of them has another member as well.  Every cycle across rules
    contains such a pair. *)
Definition overlapping (coRunRules : list BusinessRule.t) : Prop :=
  exists r1 r2 t s,
    r1 ∈ coRunRules /\ r2 ∈ coRunRules
    /\ BusinessRule.id r1 <> BusinessRule.id r2
    /\ t ∈ tasksOf r1 /\ t ∈ tasksOf r2
    /\ s ∈ tasksOf r1 /\ s <> t.

(** The neighbours of every visited task, through the rules related to it,
    are visited too. *)
Definition closedUnderRelated (coRunRules : list BusinessRule.t)
    (rule : BusinessRule.t) (seen : gset string) : Prop :=
  forall v r t,
    v ∈ seen -> r ∈ coRunRules -> isRelated rule v r = true ->
    t ∈ tasksOf r -> t ∈ seen.

(** ** Phase windows *)

(** The phase-window rule that applies to a task (the first that names
    it) and the record of a task (the first that carries its ID). *)
Definition windowRuleFor (phaseWindowRules : list BusinessRule.t)
    (taskId : string) : option BusinessRule.t :=
  Js.find (fun rule =>
    bool_decide (param_taskId (BusinessRule.parameters rule) = Some taskId))
    phaseWindowRules.

Definition taskRecord (tasksData : list TaskData) (taskId : string)
  : option TaskData :=
  Js.find (fun t => bool_decide (TaskID t = Some taskId)) tasksData.

(** The allowed phases of a member task, in the words of the
    specification: those of its phase-window rule when there is one,
    otherwise its own preferred phases; [None] when it has neither and is
    unrestricted. *)
Definition resolvedWindow (phaseWindowRules : list BusinessRule.t)
    (tasksData : list TaskData) (taskId : string) : option (list Z) :=
  match windowRuleFor phaseWindowRules taskId with
  | Some phaseRule =>
      Some (default []
              (param_allowedPhases (BusinessRule.parameters phaseRule)))
  | None =>
      match taskRecord tasksData taskId with
      | Some task => Some (preferredOf task)
      | None => None
      end
  end.

(** The window of a restricted member. *)
Definition windowOf (phaseWindowRules : list BusinessRule.t)
    (tasksData : list TaskData) (taskId : string) : list Z :=
  default [] (resolvedWindow phaseWindowRules tasksData taskId).

(** At least two different member tasks are restricted. *)
Definition twoRestricted (phaseWindowRules : list BusinessRule.t)
    (tasksData : list TaskData) (coRunRule : BusinessRule.t) : Prop :=
  exists t1 t2,
    t1 <> t2 /\ t1 ∈ tasksOf coRunRule /\ t2 ∈ tasksOf coRunRule
    /\ is_Some (resolvedWindow phaseWindowRules tasksData t1)
    /\ is_Some (resolvedWindow phaseWindowRules tasksData t2).

(** No phase is allowed to every member: each phase is outside the window
    of some restricted member. *)
Definition noCommonPhase (phaseWindowRules : list BusinessRule.t)
    (tasksData : list TaskData) (coRunRule : BusinessRule.t) : Prop :=
  forall p : Z,
    exists t w, t ∈ tasksOf coRunRule
                /\ resolvedWindow phaseWindowRules tasksData t = Some w
                /\ p ∉ w.

(** A member that falls back on its own record has preferred phases to
    fall back on. *)
Definition fallbacksNonEmpty (phaseWindowRules : list BusinessRule.t)
    (tasksData : list TaskData) (coRunRule : BusinessRule.t) : Prop :=
  forall t task,
    t ∈ tasksOf coRunRule ->
    windowRuleFor phaseWindowRules t = None ->
    taskRecord tasksData t = Some task ->
    exists w, PreferredPhases task = Some w /\ w <> [].

(** What [recordWindow] stores for a task, if it stores anything. *)
Definition storedWindow (phaseWindowRules : list BusinessRule.t)
    (tasksData : list TaskData) (taskId : string)
  : option (option (list Z)) :=
  match windowRuleFor phaseWindowRules taskId with
  | Some phaseRule =>
      Some (Some (default []
                    (param_allowedPhases (BusinessRule.parameters phaseRule))))
  | None =>
      match taskRecord tasksData taskId with
      | Some task => Some (PreferredPhases task)
      | None => None
      end
  end.

(** The restricted members of a co-run rule, each once, in order of first
    mention: the keys of [taskPhaseWindows]. *)
Definition restrictedMembers (phaseWindowRules : list BusinessRule.t)
    (tasksData : list TaskData) (coRunRule : BusinessRule.t) : list string :=
  Js.newSet
    (List.filter
       (fun t => bool_decide
                   (is_Some (storedWindow phaseWindowRules tasksData t)))
       (tasksOf coRunRule)).

(** [common.filter((phase) => phases.includes(phase))] without the
    possibility of a missing list. *)
Definition intersect (common phases : list Z) : list Z :=
  List.filter (fun phase => Js.includes phases phase) common.

(** What one co-run rule contributes to the conflict findings. *)
Definition conflictFindingIff (phaseWindowRules : list BusinessRule.t)
    (tasksData : list TaskData) (coRunRule : BusinessRule.t)
    (out : list ValidationError.t) : Prop :=
  (out = [] \/ out = [conflictingPhases coRunRule (tasksOf coRunRule)])
  /\ (out = [conflictingPhases coRunRule (tasksOf coRunRule)]
      <-> twoRestricted phaseWindowRules tasksData coRunRule
          /\ noCommonPhase phaseWindowRules tasksData coRunRule).

(** ** Phase-slot saturation *)

(** How many times the phase [p] is listed in [l]. *)
Definition countIn (p : Z) (l : list Z) : Z :=
  Js.len (List.filter (Z.eqb p) l).

Definition sumZ (l : list Z) : Z := fold_right Z.add 0 l.

(** The phases a task's duration is attributed to: its preferred phases,
    or phase 1 when it has none. *)
Definition attributedTo (task : TaskData) : list Z :=
  if Js.len (preferredOf task) >? 0 then preferredOf task else [1].

(** Capacity available in phase [p]: every worker contributes its
    [MaxLoadPerPhase] once for each time [p] stands in its list of
    available slots. *)
Definition available (workersData : list WorkerData) (p : Z) : Z :=
  sumZ (map (fun worker => MaxLoadPerPhase worker * countIn p (slotsOf worker))
          workersData).

(** Capacity required in phase [p]: every task contributes its [Duration]
    once for each time [p] stands in the list of phases it is attributed
    to. *)
Definition required (tasksData : list TaskData) (p : Z) : Z :=
  sumZ (map (fun task => Duration task * countIn p (attributedTo task))
          tasksData).

(** The phases some task is attributed to, in order of first mention. *)
Definition attributedPhases (tasksData : list TaskData) : list Z :=
  Js.newSet (flat_map attributedTo tasksData).

(** The magnitude up to which integers add exactly as numbers. *)
Definition exactUpTo : Z := 2 ^ 53.

(** The volume of loads (of durations) in phase [p]: the sum of the
    magnitudes of what the workers (the tasks) contribute to [p].  No
    partial sum of the contributions, taken in any order, exceeds it in
    magnitude. *)
Definition loadVolume (workersData : list WorkerData) (p : Z) : Z :=
  sumZ (map (fun worker =>
               Z.abs (MaxLoadPerPhase worker) * countIn p (slotsOf worker))
          workersData).

Definition durationVolume (tasksData : list TaskData) (p : Z) : Z :=
  sumZ (map (fun task =>
               Z.abs (Duration task) * countIn p (attributedTo task))
          tasksData).

(** The two maps the saturation check builds, and the totals it reads
    from them. *)
Definition phaseSlotsOf (workersData : list WorkerData) : list (Z * Z) :=
  fold_left
    (fun phaseSlots worker =>
       fold_left (addTo (MaxLoadPerPhase worker)) (slotsOf worker) phaseSlots)
    workersData [].

Definition phaseRequirementsOf (tasksData : list TaskData) : list (Z * Z) :=
  fold_left
    (fun phaseRequirements task =>
       fold_left (addTo (Duration task)) (attributedTo task)
         phaseRequirements)
    tasksData [].

Definition availableTotal (workersData : list WorkerData) (p : Z) : Z :=
  Js.getOr0 (phaseSlotsOf workersData) p.

Definition requiredTotal (tasksData : list TaskData) (p : Z) : Z :=
  Js.getOr0 (phaseRequirementsOf tasksData) p.

(** The two totals when a worker (a task) counts once if its list
    contains [p] at all, however often. *)
Definition availableOnce (workersData : list WorkerData) (p : Z) : Z :=
  sumZ (map MaxLoadPerPhase
          (List.filter (fun worker => Js.includes (slotsOf worker) p)
             workersData)).

Definition requiredOnce (tasksData : list TaskData) (p : Z) : Z :=
  sumZ (map Duration
          (List.filter (fun task => Js.includes (attributedTo task) p)
             tasksData)).

(** ** Max-concurrency feasibility *)

(** A worker is qualified for a task when its skills include every skill
    the task requires. *)
Definition qualified (task : TaskData) (worker : WorkerData) : bool :=
  forallb (fun skill => Js.includes (skillsOf worker) skill) (requiredOf task).

Definition qualifiedFor (workersData : list WorkerData) (task : TaskData)
  : list WorkerData :=
  List.filter (qualified task) workersData.

(** A worker has at least one available slot among the preferred phases of
    the task. *)
Definition availableIn (task : TaskData) (worker : WorkerData) : bool :=
  existsb (fun slot => Js.includes (preferredOf task) slot) (slotsOf worker).

(** The qualified workers that are also available in a preferred phase. *)
Definition phaseConstrained (workersData : list WorkerData) (task : TaskData)
  : list WorkerData :=
  List.filter (availableIn task) (qualifiedFor workersData task).

(** [s.endsWith(suffix)] *)
Fixpoint endsWith (suffix s : string) : bool :=
  String.eqb suffix s
  || match s with
     | EmptyString => false
     | String _ s' => endsWith suffix s'
     end.

(** ** The [active] flag *)

(** Two rules that differ at most in their [active] flag. *)
Definition sameUpToActive (r r' : BusinessRule.t) : Prop :=
  BusinessRule.id r = BusinessRule.id r'
  /\ BusinessRule.type r = BusinessRule.type r'
  /\ BusinessRule.name r = BusinessRule.name r'
  /\ BusinessRule.description r = BusinessRule.description r'
  /\ BusinessRule.parameters r = BusinessRule.parameters r'.

(** The rule with its [active] flag set. *)
Definition activated (r : BusinessRule.t) : BusinessRule.t :=
  BusinessRule.mk (BusinessRule.id r) (BusinessRule.type r)
    (BusinessRule.name r) (BusinessRule.description r)
    (BusinessRule.parameters r) true.

(** ** Sample data *)

Definition sampleWorker (id : string) (skills : list string)
    (slots : list Z) (maxLoad : Z) : WorkerData := {|
  WorkerID := Some id;
  WorkerName := Some id;
  Skills := Some skills;
  AvailableSlots := Some slots;
  MaxLoadPerPhase := maxLoad;
|}.

Definition sampleTask (id : string) (duration : Z) (required : list string)
    (preferred : list Z) (maxConcurrent : Z) : TaskData := {|
  TaskID := Some id;
  TaskName := Some id;
  Duration := duration;
  RequiredSkills := Some required;
  PreferredPhases := Some preferred;
  MaxConcurrent := maxConcurrent;
|}.

(** Complete records for a run of the whole engine. *)
Definition sampleClient : ClientData := {|
  ClientID := Some "C1";
  ClientName := Some "Acme";
  PriorityLevel := 3;
  RequestedTaskIDs := Some ["T1"];
  AttributesJSON := AttrObject;
|}.

(** A client that asks twice for a task nobody declared. *)
Definition clientAskingTwice : ClientData := {|
  ClientID := Some "C1";
  ClientName := Some "Acme";
  PriorityLevel := 3;
  RequestedTaskIDs := Some ["T9"; "T9"];
  AttributesJSON := AttrObject;
|}.

(** A worker whose record lacks the list of available slots. *)
Definition workerWithoutSlots : WorkerData := {|
  WorkerID := Some "W1";
  WorkerName := Some "Ada";
  Skills := Some ["X"];
  AvailableSlots := None;
  MaxLoadPerPhase := 1;
|}.

(** Three workers, two of which have the skill X. *)
Definition twoWithX : list WorkerData :=
  [sampleWorker "W1" ["X"] [1] 1; sampleWorker "W2" ["X"; "Y"] [2] 1;
   sampleWorker "W3" ["Y"] [1] 1].

(** A task that requires the skill X three times over. *)
Definition taskNeedingThree : TaskData := sampleTask "T1" 1 ["X"] [1] 3.

(** A task without preferred phases, and the one worker qualified for
    it. *)
Definition taskAnyPhase : TaskData := sampleTask "T1" 1 ["X"] [] 1.
Definition soleWorker : WorkerData := sampleWorker "W1" ["X"] [1] 1.

(** Two workers of capacity 2 in phase 1, and a task of duration 5 there. *)
Definition twoWorkersPhase1 : list WorkerData :=
  [sampleWorker "W1" ["X"] [1] 2; sampleWorker "W2" ["X"] [1] 2].
Definition taskOfFive : TaskData := sampleTask "T1" 5 ["X"] [1] 1.

(** A worker that lists phase 1 twice, and a task of duration 3 there. *)
Definition workerListingTwice : WorkerData := sampleWorker "W1" ["X"] [1; 1] 2.
Definition taskOfThree : TaskData := sampleTask "T1" 3 ["X"] [1] 1.

(** A co-run rule; three rules that form a cycle, and two rules that
    share no task. *)
Definition sampleCoRun (id : string) (members : list string)
  : BusinessRule.t :=
  BusinessRule.mk id coRun ("rule " +:+ id) "" {|
    param_tasks := Some members;
    param_taskId := None;
    param_allowedPhases := None;
  |} true.

Definition cyclicRules : list BusinessRule.t :=
  [sampleCoRun "A" ["T1"; "T2"]; sampleCoRun "B" ["T2"; "T3"];
   sampleCoRun "C" ["T3"; "T1"]].

(** The same three groups under one id. *)
Definition sameIdRules : list BusinessRule.t :=
  [sampleCoRun "A" ["T1"; "T2"]; sampleCoRun "A" ["T2"; "T3"];
   sampleCoRun "A" ["T3"; "T1"]].

Definition disjointRules : list BusinessRule.t :=
  [sampleCoRun "A" ["T1"; "T2"]; sampleCoRun "B" ["T3"; "T4"]].

(** The cyclic rules with the second one switched off. *)
Definition cyclicRulesOneOff : list BusinessRule.t :=
  [sampleCoRun "A" ["T1"; "T2"];
   BusinessRule.mk "B" coRun "rule B" "" {|
     param_tasks := Some ["T2"; "T3"];
     param_taskId := None;
     param_allowedPhases := None;
   |} false;
   sampleCoRun "C" ["T3"; "T1"]].

(** A phase-window rule. *)
Definition samplePhaseWindow (id taskId : string) (allowed : list Z)
  : BusinessRule.t :=
  BusinessRule.mk id phaseWindow ("window " +:+ id) "" {|
    param_tasks := None;
    param_taskId := Some taskId;
    param_allowedPhases := Some allowed;
  |} true.

Definition pairT1T2 : BusinessRule.t := sampleCoRun "A" ["T1"; "T2"].

Definition tasksT1T2 : list TaskData :=
  [sampleTask "T1" 1 ["X"] [1; 2] 1; sampleTask "T2" 1 ["X"] [1; 2] 1].

Definition rulesWindow3 : list BusinessRule.t :=
  [pairT1T2; samplePhaseWindow "P" "T2" [3]].

Definition rulesWindow23 : list BusinessRule.t :=
  [pairT1T2; samplePhaseWindow "P" "T2" [2; 3]].

(** A co-run rule over T1 and T2 where T1 has a phase-window rule that
    allows no phase and T2 is restricted by nothing. *)
Definition rulesEmptyWindow : list BusinessRule.t :=
  [pairT1T2; samplePhaseWindow "P" "T1" []].

(** * The caller of the engine ([src/components/validation-panel.tsx]) *)

(** [errors.filter((e) => e.type === "error").length] and its sibling. *)
Definition errorCount (errors : list ValidationError.t) : Z :=
  Js.len (List.filter
            (fun e => bool_decide (ValidationError.type e = error)) errors).

Definition warningCount (errors : list ValidationError.t) : Z :=
  Js.len (List.filter
            (fun e => bool_decide (ValidationError.type e = warning)) errors).

(** [Math.round(n / d)] for integers [n] and [d > 0]: the nearest
    integer, a half going up. *)
Definition roundDiv (n d : Z) : Z := (2 * n + d) / (2 * d).

(** [getValidationScore].  The source computes
    [(passedChecks / totalChecks) * 100] in floating point; that product
    is a multiple of a third, at least a sixth away from any half, so
    rounding it and rounding the exact quotient agree for every count a
    list can have. *)
Definition getValidationScore (errors : list ValidationError.t) : Z :=
  let totalChecks := 12 in
  let passedChecks := totalChecks - errorCount errors in
  Z.max 0 (roundDiv (passedChecks * 100) totalChecks).

(** [handleValidation], as far as the findings go: the panel runs the
    engine without business rules and hands the result to
    [onValidationComplete], which replaces the findings on display; when
    the run throws, the [catch] only logs, and the findings stay as they
    were.  The progress bar and the timers are left out. *)
Definition handleValidation (JSON_parses : string -> bool)
    (errors : list ValidationError.t)
    (clientsData : list ClientData) (workersData : list WorkerData)
    (tasksData : list TaskData) : list ValidationError.t :=
  match runValidations JSON_parses clientsData workersData tasksData [] with
  | Returned validationErrors => validationErrors
  | Thrown => errors
  | OutOfFuel => errors
  end.

(** * More vocabulary *)

(** ** The findings of the checks, by name *)

Definition missingClientField (client : ClientData) (field : string)
  : ValidationError.t := {|
  ValidationError.id :=
    "client-" +:+ Js.strOr (ClientID client) "unknown"
      +:+ "-missing-" +:+ field;
  ValidationError.type := error;
  ValidationError.entity := clients;
  ValidationError.entityId := Some (Js.strOr (ClientID client) "Unknown");
  ValidationError.field := Some field;
  ValidationError.message :=
    "Required field " +:+ dquote +:+ field +:+ dquote +:+ " is missing";
  ValidationError.suggestion := Some ("Add a value for " +:+ field);
|}.

Definition missingWorkerField (worker : WorkerData) (field : string)
  : ValidationError.t := {|
  ValidationError.id :=
    "worker-" +:+ Js.strOr (WorkerID worker) "unknown"
      +:+ "-missing-" +:+ field;
  ValidationError.type := error;
  ValidationError.entity := workers;
  ValidationError.entityId := Some (Js.strOr (WorkerID worker) "Unknown");
  ValidationError.field := Some field;
  ValidationError.message :=
    "Required field " +:+ dquote +:+ field +:+ dquote
      +:+ " is missing or empty";
  ValidationError.suggestion := Some ("Add a value for " +:+ field);
|}.

Definition missingTaskField (task : TaskData) (field : string)
  : ValidationError.t := {|
  ValidationError.id :=
    "task-" +:+ Js.strOr (TaskID task) "unknown" +:+ "-missing-" +:+ field;
  ValidationError.type := error;
  ValidationError.entity := tasks;
  ValidationError.entityId := Some (Js.strOr (TaskID task) "Unknown");
  ValidationError.field := Some field;
  ValidationError.message :=
    "Required field " +:+ dquote +:+ field +:+ dquote
      +:+ " is missing or empty";
  ValidationError.suggestion := Some ("Add a value for " +:+ field);
|}.

Definition invalidPriority (client : ClientData) : ValidationError.t := {|
  ValidationError.id :=
    "client-" +:+ Js.str (ClientID client) +:+ "-invalid-priority";
  ValidationError.type := error;
  ValidationError.entity := clients;
  ValidationError.entityId := ClientID client;
  ValidationError.field := Some "PriorityLevel";
  ValidationError.message :=
    "Priority level must be between 1-5, got "
      +:+ pretty (PriorityLevel client);
  ValidationError.suggestion :=
    Some "Set priority level to a value between 1 (lowest) and 5 (highest)";
|}.

Definition invalidDuration (task : TaskData) : ValidationError.t := {|
  ValidationError.id :=
    "task-" +:+ Js.str (TaskID task) +:+ "-invalid-duration";
  ValidationError.type := error;
  ValidationError.entity := tasks;
  ValidationError.entityId := TaskID task;
  ValidationError.field := Some "Duration";
  ValidationError.message :=
    "Duration must be at least 1, got " +:+ pretty (Duration task);
  ValidationError.suggestion :=
    Some "Set duration to a positive number of phases";
|}.

Definition invalidConcurrent (task : TaskData) : ValidationError.t := {|
  ValidationError.id :=
    "task-" +:+ Js.str (TaskID task) +:+ "-invalid-concurrent";
  ValidationError.type := error;
  ValidationError.entity := tasks;
  ValidationError.entityId := TaskID task;
  ValidationError.field := Some "MaxConcurrent";
  ValidationError.message := "Max concurrent must be at least 1";
  ValidationError.suggestion :=
    Some "Set a positive number for maximum parallel assignments";
|}.

Definition invalidLoad (worker : WorkerData) : ValidationError.t := {|
  ValidationError.id :=
    "worker-" +:+ Js.str (WorkerID worker) +:+ "-invalid-load";
  ValidationError.type := error;
  ValidationError.entity := workers;
  ValidationError.entityId := WorkerID worker;
  ValidationError.field := Some "MaxLoadPerPhase";
  ValidationError.message := "Max load per phase must be at least 1";
  ValidationError.suggestion :=
    Some "Set a positive number for maximum workload capacity";
|}.

Definition invalidSlots (worker : WorkerData) : ValidationError.t := {|
  ValidationError.id :=
    "worker-" +:+ Js.str (WorkerID worker) +:+ "-invalid-slots";
  ValidationError.type := error;
  ValidationError.entity := workers;
  ValidationError.entityId := WorkerID worker;
  ValidationError.field := Some "AvailableSlots";
  ValidationError.message := "Available slots must be positive numbers";
  ValidationError.suggestion :=
    Some "Ensure all phase numbers are 1 or greater";
|}.

Definition overloaded (worker : WorkerData) : ValidationError.t := {|
  ValidationError.id :=
    "worker-" +:+ Js.str (WorkerID worker) +:+ "-overloaded";
  ValidationError.type := warning;
  ValidationError.entity := workers;
  ValidationError.entityId := WorkerID worker;
  ValidationError.field := None;
  ValidationError.message :=
    "Worker has fewer available slots ("
      +:+ pretty (Js.len (slotsOf worker))
      +:+ ") than max load capacity ("
      +:+ pretty (MaxLoadPerPhase worker) +:+ ")";
  ValidationError.suggestion :=
    Some "Consider increasing available slots or reducing max load per phase";
|}.

Definition missingSkill (task : TaskData) (skill : string)
  : ValidationError.t := {|
  ValidationError.id :=
    "task-" +:+ Js.str (TaskID task) +:+ "-missing-skill-" +:+ skill;
  ValidationError.type := warning;
  ValidationError.entity := tasks;
  ValidationError.entityId := TaskID task;
  ValidationError.field := Some "RequiredSkills";
  ValidationError.message :=
    "No worker has the required skill " +:+ dquote +:+ skill +:+ dquote;
  ValidationError.suggestion :=
    Some "Add a worker with this skill or remove it from task requirements";
|}.

(** ** Required fields *)

(** A string that is set and not empty; a list that is set and not
    empty. *)
Definition present (o : option string) : Prop :=
  exists s, o = Some s /\ s <> "".

Definition nonEmptyList {A} (o : option (list A)) : Prop :=
  exists l, o = Some l /\ l <> [].

Definition clientHasRequired (client : ClientData) : Prop :=
  present (ClientID client) /\ present (ClientName client)
  /\ PriorityLevel client <> 0.

Definition workerHasRequired (worker : WorkerData) : Prop :=
  present (WorkerID worker) /\ present (WorkerName worker)
  /\ nonEmptyList (Skills worker) /\ nonEmptyList (AvailableSlots worker)
  /\ MaxLoadPerPhase worker <> 0.

Definition taskHasRequired (task : TaskData) : Prop :=
  present (TaskID task) /\ present (TaskName task)
  /\ Duration task <> 0 /\ nonEmptyList (RequiredSkills task).

(** The required fields a record is reported for, in order. *)
Definition missingClientFields (client : ClientData) : list string :=
  List.filter (fun field => falsy (clientField client field))
    requiredClientFields.

Definition missingWorkerFields (worker : WorkerData) : list string :=
  List.filter (fun field => falsy (workerField worker field)
                            || isEmptyArray (workerField worker field))
    requiredWorkerFields.

Definition missingTaskFields (task : TaskData) : list string :=
  List.filter (fun field => falsy (taskField task field)
                            || isEmptyArray (taskField task field))
    requiredTaskFields.

(** ** Ranges *)

Definition clientInRange (client : ClientData) : Prop :=
  1 <= PriorityLevel client <= 5.

Definition taskInRange (task : TaskData) : Prop :=
  1 <= Duration task /\ 1 <= MaxConcurrent task.

Definition workerInRange (worker : WorkerData) : Prop :=
  1 <= MaxLoadPerPhase worker
  /\ forall slot, slot ∈ slotsOf worker -> 1 <= slot.

(** What the range check reports for one record. *)
Definition rangeFindingsOfClient (client : ClientData)
  : list ValidationError.t :=
  if (PriorityLevel client <? 1) || (PriorityLevel client >? 5)
  then [invalidPriority client] else [].

Definition rangeFindingsOfTask (task : TaskData) : list ValidationError.t :=
  (if Duration task <? 1 then [invalidDuration task] else [])
  ++ (if MaxConcurrent task <? 1 then [invalidConcurrent task] else []).

Definition rangeFindingsOfWorker (worker : WorkerData)
  : list ValidationError.t :=
  (if MaxLoadPerPhase worker <? 1 then [invalidLoad worker] else [])
  ++ (if existsb (fun slot => slot <? 1) (slotsOf worker)
      then [invalidSlots worker] else []).

(** ** Sample records with missing or zero fields *)

Definition clientWithoutID : ClientData := {|
  ClientID := None;
  ClientName := Some "Acme";
  PriorityLevel := 0;
  RequestedTaskIDs := Some [];
  AttributesJSON := AttrObject;
|}.

Definition workerWithoutID : WorkerData := {|
  WorkerID := Some "";
  WorkerName := Some "Ada";
  Skills := Some ["X"];
  AvailableSlots := Some [1];
  MaxLoadPerPhase := 0;
|}.

Definition taskWithoutID : TaskData := {|
  TaskID := None;
  TaskName := Some "Build";
  Duration := 0;
  RequiredSkills := Some ["X"];
  PreferredPhases := Some [];
  MaxConcurrent := 1;
|}.

(** ** Severities *)

Definition isError (e : ValidationError.t) : Prop :=
  ValidationError.type e = error.

Definition isWarning (e : ValidationError.t) : Prop :=
  ValidationError.type e = warning.

(** [pushesOnly P m]: when [m] returns, it has left the findings it was
    given in place and appended findings that satisfy [P]. *)
Definition pushesOnly {A} (P : ValidationError.t -> Prop) (m : M A) : Prop :=
  forall errors a errors',
    m errors = Returned (a, errors') ->
    exists out, errors' = errors ++ out /\ Forall P out.

(** ** Business rules *)

(** The rules the engine looks at. *)
Definition examined (rule : BusinessRule.t) : bool :=
  isCoRun rule || isPhaseWindow rule.

(** Every member of every co-run rule is named by a phase-window rule. *)
Definition everyMemberWindowed (businessRules : list BusinessRule.t) : Prop :=
  forall rule taskId,
    rule ∈ List.filter isCoRun businessRules ->
    taskId ∈ tasksOf rule ->
    is_Some (windowRuleFor (List.filter isPhaseWindow businessRules) taskId).

(** A rule of a type the engine does not look at. *)
Definition sampleLoadLimit : BusinessRule.t :=
  BusinessRule.mk "L" loadLimit "limit" "" {|
    param_tasks := Some ["T1"; "T2"];
    param_taskId := Some "T1";
    param_allowedPhases := Some [];
  |} true.

(** A co-run rule whose two members have a window each, and a task record
    that lacks its preferred phases. *)
Definition windowedRules : list BusinessRule.t :=
  [pairT1T2; samplePhaseWindow "P" "T1" [1]; samplePhaseWindow "Q" "T2" [2]].

Definition taskWithoutPhases : TaskData := {|
  TaskID := Some "T1";
  TaskName := Some "Build";
  Duration := 1;
  RequiredSkills := Some ["X"];
  PreferredPhases := None;
  MaxConcurrent := 1;
|}.

(** ** Skills and capacities *)

(** Some worker lists the skill. *)
Definition covered (workersData : list WorkerData) (skill : string) : bool :=
  existsb (fun worker => Js.includes (skillsOf worker) skill) workersData.

(** The required skills of a task that no worker lists, one entry for
    each time the task lists the skill. *)
Definition uncoveredSkills (workersData : list WorkerData) (task : TaskData)
  : list string :=
  List.filter (fun skill => negb (covered workersData skill))
    (requiredOf task).

(** What the overload check reports for one worker. *)
Definition overloadFindings (worker : WorkerData) : list ValidationError.t :=
  if Js.len (slotsOf worker) <? MaxLoadPerPhase worker
  then [overloaded worker] else [].

(** What the concurrency check reports for one task. *)
Definition concurrencyFindings (workersData : list WorkerData)
    (task : TaskData) : list ValidationError.t :=
  let q := Js.len (qualifiedFor workersData task) in
  let a := Js.len (phaseConstrained workersData task) in
  (if MaxConcurrent task >? q then [infeasibleConcurrency task q] else [])
  ++ (if (Js.len (preferredOf task) >? 0) && (MaxConcurrent task >? a)
      then [infeasiblePhaseConcurrency task a] else []).

(** A task that requires a skill no sample worker has. *)
Definition taskNeedingZ : TaskData := sampleTask "T2" 1 ["X"; "Z"] [1] 1.

(** A worker and a task with capacities below 1. *)
Definition workerOfNoLoad : WorkerData := sampleWorker "W1" ["X"] [] 0.
Definition taskOfNoConcurrency : TaskData := sampleTask "T1" 1 ["Q"] [1] 0.

(** Workers that add capacity to phase 1. *)
Definition reinforcements : list WorkerData :=
  [sampleWorker "W8" ["X"] [1; 2] 1; sampleWorker "W9" ["Y"] [1] 0].

(** ** Co-run rules that share tasks *)

(** The task [t] of [rule] is shared: a co-run rule of another id has it
    as a member, next to some other task. *)
Definition sharedTask (coRunRules : list BusinessRule.t)
    (rule : BusinessRule.t) (t : string) : Prop :=
  exists r x,
    r ∈ coRunRules /\ BusinessRule.id r <> BusinessRule.id rule
    /\ t ∈ tasksOf r /\ x ∈ tasksOf r /\ x <> t.

(** The task [t] of [rule] is on its own: the co-run rules of another id
    that have it as a member have no other member. *)
Definition unsharedTask (coRunRules : list BusinessRule.t)
    (rule : BusinessRule.t) (t : string) : Prop :=
  forall r x,
    r ∈ coRunRules -> BusinessRule.id r <> BusinessRule.id rule ->
    t ∈ tasksOf r -> x ∈ tasksOf r -> x = t.

(** What the cycle check reports for one co-run rule: nothing when none
    of its tasks is shared, otherwise one finding that names its first
    shared task. *)
Definition cycleFindingOf (coRunRules : list BusinessRule.t)
    (rule : BusinessRule.t) (out : list ValidationError.t) : Prop :=
  (out = [] /\ forall t, t ∈ tasksOf rule -> unsharedTask coRunRules rule t)
  \/ (exists pre t post,
        tasksOf rule = pre ++ t :: post
        /\ (forall v, v ∈ pre -> unsharedTask coRunRules rule v)
        /\ sharedTask coRunRules rule t
        /\ out = [circularCoRun rule t]).

(** * The rule builder ([src/components/ai-insights-panel.tsx]) *)

(** The handlers of the rule list, as functions of the list that
    [setRules] receives. *)

(** [rules.map((rule) => (rule.id === updatedRule.id ? updatedRule : rule))] *)
Definition handleUpdateRule (rules : list BusinessRule.t)
    (updatedRule : BusinessRule.t) : list BusinessRule.t :=
  map (fun rule =>
         if String.eqb (BusinessRule.id rule) (BusinessRule.id updatedRule)
         then updatedRule else rule)
    rules.

(** [rules.filter((rule) => rule.id !== ruleId)] *)
Definition handleDeleteRule (rules : list BusinessRule.t) (ruleId : string)
  : list BusinessRule.t :=
  List.filter (fun rule => negb (String.eqb (BusinessRule.id rule) ruleId))
    rules.

(** [rules.map((rule) =>
      (rule.id === ruleId ? { ...rule, active: !rule.active } : rule))] *)
Definition handleToggleRule (rules : list BusinessRule.t) (ruleId : string)
  : list BusinessRule.t :=
  map (fun rule =>
         if String.eqb (BusinessRule.id rule) ruleId
         then BusinessRule.mk (BusinessRule.id rule) (BusinessRule.type rule)
                (BusinessRule.name rule) (BusinessRule.description rule)
                (BusinessRule.parameters rule)
                (negb (BusinessRule.active rule))
         else rule)
    rules.

(** * Sums beyond the exact range *)

(** Three workers of phase 1 whose loads are 2^53, 1 and 1, in two
    orders, and a task of duration 2^53 + 2 there. *)
Definition heavyFirst : list WorkerData :=
  [sampleWorker "W1" ["X"] [1] (2 ^ 53); sampleWorker "W2" ["X"] [1] 1;
   sampleWorker "W3" ["X"] [1] 1].

Definition heavyLast : list WorkerData :=
  [sampleWorker "W2" ["X"] [1] 1; sampleWorker "W3" ["X"] [1] 1;
   sampleWorker "W1" ["X"] [1] (2 ^ 53)].

Definition taskOfHugeDuration : TaskData :=
  sampleTask "T1" (2 ^ 53 + 2) ["X"] [1] 1.


(** * Proofs *)

Set Warnings "-clear-no-such-hyp".

(** ** Laws of the monad's combinators *)

Lemma appends_ret {A} (a : A) : appends (ret a) a [].
Proof. intros errors. unfold ret. by rewrite app_nil_r. Qed.

Lemma appends_bind {A B} (m : M A) (k : A -> M B) a b o1 o2 :
  appends m a o1 -> appends (k a) b o2 -> appends (bind m k) b (o1 ++ o2).
Proof.
  intros Hm Hk errors. unfold bind. rewrite Hm, Hk. by rewrite app_assoc.
Qed.

Lemma appends_bind_pure {A B} (m : M A) (k : A -> M B) a b out :
  appends m a [] -> appends (k a) b out -> appends (bind m k) b out.
Proof. intros Hm Hk. by apply (appends_bind m k a b [] out). Qed.

Lemma appends_push e : appends (push e) tt [e].
Proof. by intros errors. Qed.

Lemma appends_deref {A} (a : A) : appends (deref (Some a)) a [].
Proof. apply appends_ret. Qed.

Lemma appends_when (c : bool) m out :
  (c = true -> appends m tt out) ->
  appends (when c m) tt (if c then out else []).
Proof.
  destruct c; simpl; intros H; [by apply H | apply appends_ret].
Qed.

Lemma appends_forEach {A} (xs : list A) body f :
  (forall x, x ∈ xs -> appends (body x) tt (f x)) ->
  appends (forEach xs body) tt (flat_map f xs).
Proof.
  induction xs as [|x xs IH]; intros H; simpl.
  - apply appends_ret.
  - eapply appends_bind.
    + apply H. left.
    + apply IH. intros y Hy. apply H. by right.
Qed.

Lemma appends_filterM {A} (p : A -> M bool) q (xs : list A) :
  (forall x, x ∈ xs -> appends (p x) (q x) []) ->
  appends (filterM p xs) (List.filter q xs) [].
Proof.
  induction xs as [|x xs IH]; intros H; simpl.
  - apply appends_ret.
  - change (@nil ValidationError.t) with ([] ++ [] ++ @nil ValidationError.t).
    eapply appends_bind; [apply H; left|].
    eapply appends_bind; [apply IH; intros y Hy; apply H; by right|].
    destruct (q x); apply appends_ret.
Qed.

Lemma appends_everyM {A} (p : A -> M bool) q (xs : list A) :
  (forall x, x ∈ xs -> appends (p x) (q x) []) ->
  appends (everyM p xs) (forallb q xs) [].
Proof.
  induction xs as [|x xs IH]; intros H; simpl.
  - apply appends_ret.
  - change (@nil ValidationError.t) with ([] ++ @nil ValidationError.t).
    eapply appends_bind; [apply H; left|].
    destruct (q x); simpl; [|apply appends_ret].
    apply IH. intros y Hy. apply H. by right.
Qed.

Lemma appends_foldM {S A} (step : S -> A -> M S) f (xs : list A) acc :
  (forall acc x, x ∈ xs -> appends (step acc x) (f acc x) []) ->
  appends (foldM step xs acc) (fold_left f xs acc) [].
Proof.
  revert acc. induction xs as [|x xs IH]; intros acc H; simpl.
  - apply appends_ret.
  - change (@nil ValidationError.t) with ([] ++ @nil ValidationError.t).
    eapply appends_bind; [apply H; left|].
    apply IH. intros acc' y Hy. apply H. by right.
Qed.

(** ** Arrays, sets and maps *)

Lemma includes_elem_of `{EqDecision A} (xs : list A) (x : A) :
  Js.includes xs x = true <-> x ∈ xs.
Proof.
  unfold Js.includes. rewrite existsb_exists. split.
  - intros (y & Hy & Heq). apply bool_decide_eq_true in Heq. subst.
    by apply list_elem_of_In.
  - intros H. exists x. split; [by apply list_elem_of_In|].
    by apply bool_decide_eq_true.
Qed.

Lemma includes_false `{EqDecision A} (xs : list A) (x : A) :
  Js.includes xs x = false <-> x ∉ xs.
Proof.
  rewrite <- includes_elem_of. destruct (Js.includes xs x); naive_solver.
Qed.

Lemma setAdd_spec `{EqDecision A} (s : list A) (x y : A) :
  y ∈ Js.setAdd s x <-> y ∈ s \/ y = x.
Proof.
  unfold Js.setAdd. destruct (Js.includes s x) eqn:E.
  - apply includes_elem_of in E. naive_solver.
  - rewrite elem_of_app, list_elem_of_singleton. naive_solver.
Qed.

Lemma setAdd_NoDup `{EqDecision A} (s : list A) (x : A) :
  NoDup s -> NoDup (Js.setAdd s x).
Proof.
  intros Hs. unfold Js.setAdd. destruct (Js.includes s x) eqn:E; [done|].
  apply includes_false in E. apply NoDup_app. split_and!; [done| |].
  - intros y Hy Hx. apply list_elem_of_singleton in Hx. by subst.
  - apply NoDup_singleton.
Qed.

Lemma fold_setAdd_spec `{EqDecision A} (xs s : list A) (y : A) :
  y ∈ fold_left Js.setAdd xs s <-> y ∈ s \/ y ∈ xs.
Proof.
  revert s. induction xs as [|x xs IH]; intros s; simpl.
  - rewrite elem_of_nil. naive_solver.
  - rewrite IH, setAdd_spec, elem_of_cons. naive_solver.
Qed.

Lemma fold_setAdd_NoDup `{EqDecision A} (xs s : list A) :
  NoDup s -> NoDup (fold_left Js.setAdd xs s).
Proof.
  revert s. induction xs as [|x xs IH]; intros s Hs; simpl; [done|].
  apply IH. by apply setAdd_NoDup.
Qed.

Lemma newSet_spec `{EqDecision A} (xs : list A) (y : A) :
  y ∈ Js.newSet xs <-> y ∈ xs.
Proof.
  unfold Js.newSet. rewrite fold_setAdd_spec, elem_of_nil. naive_solver.
Qed.

Lemma newSet_NoDup `{EqDecision A} (xs : list A) : NoDup (Js.newSet xs).
Proof. apply fold_setAdd_NoDup, NoDup_nil_2. Qed.

Lemma indexOfFrom_prefix `{EqDecision A} (pre suf : list A) (x : A) i :
  (x ∈ pre -> Js.indexOfFrom i (pre ++ x :: suf) x < i + Js.len pre) /\
  (x ∉ pre -> Js.indexOfFrom i (pre ++ x :: suf) x = i + Js.len pre).
Proof.
  unfold Js.len. revert i. induction pre as [|y pre IH]; intros i; simpl.
  - split; [by intros ?%elem_of_nil|].
    intros _. rewrite bool_decide_eq_true_2 by done. lia.
  - case_bool_decide as Hy.
    + subst. split; [lia|]. intros H. exfalso. apply H. left.
    + destruct (IH (i + 1)) as [IH1 IH2]. split.
      * intros [?|Hin]%elem_of_cons; [by subst|]. specialize (IH1 Hin). lia.
      * intros Hn. rewrite IH2; [lia|]. intros ?. apply Hn. by right.
Qed.

(** ** Duplicate IDs *)

Lemma occurrences_app k l1 l2 :
  occurrences k (l1 ++ l2) = (occurrences k l1 + occurrences k l2)%nat.
Proof. unfold occurrences. by rewrite List.filter_app, length_app. Qed.

Lemma occurrences_cons k x l :
  occurrences k (x :: l)
  = ((if bool_decide (x = k) then 1 else 0) + occurrences k l)%nat.
Proof. unfold occurrences. simpl. by case_bool_decide. Qed.

Lemma occurrences_pos k l : (1 <= occurrences k l)%nat <-> k ∈ l.
Proof.
  induction l as [|x l IH].
  - unfold occurrences; simpl. rewrite elem_of_nil. lia.
  - rewrite occurrences_cons, elem_of_cons. case_bool_decide; subst.
    + split; [by left | lia].
    + simpl. rewrite IH. naive_solver.
Qed.

Lemma repeated_from (suf pre : list (option string)) x :
  x ∈ Js.filterIndexFrom (Js.len pre)
        (fun id index => negb (Js.indexOf (pre ++ suf) id =? index)) suf
  <-> (1 <= occurrences x suf)%nat /\ (2 <= occurrences x (pre ++ suf))%nat.
Proof.
  revert pre. induction suf as [|y suf IH]; intros pre.
  - simpl. rewrite elem_of_nil. unfold occurrences at 1. simpl. lia.
  - cbn [Js.filterIndexFrom].
    assert (Hlen : Js.len pre + 1 = Js.len (pre ++ [y])).
    { unfold Js.len. rewrite length_app. simpl. lia. }
    assert (Hkeep : negb (Js.indexOf (pre ++ y :: suf) y =? Js.len pre) = true
                    <-> y ∈ pre).
    { unfold Js.indexOf.
      destruct (indexOfFrom_prefix pre suf y 0) as [H1 H2].
      rewrite negb_true_iff, Z.eqb_neq. split.
      - intros Hne. destruct (decide (y ∈ pre)) as [|Hn]; [done|].
        specialize (H2 Hn). lia.
      - intros Hin. specialize (H1 Hin). lia. }
    specialize (IH (pre ++ [y])). rewrite <- Hlen, <- app_assoc in IH.
    simpl in IH.
    rewrite occurrences_app, !occurrences_cons.
    rewrite occurrences_app, occurrences_cons in IH.
    destruct (negb _) eqn:Hk.
    + apply proj1 in Hkeep. specialize (Hkeep eq_refl).
      rewrite elem_of_cons, IH. case_bool_decide; subst.
      * apply occurrences_pos in Hkeep. split; [lia|]. intros _. by left.
      * simpl. naive_solver.
    + rewrite IH. case_bool_decide; subst; [|done].
      assert (occurrences x pre = 0%nat).
      { destruct (occurrences x pre) eqn:E; [done|].
        assert (x ∈ pre) as Hin by (apply occurrences_pos; lia).
        apply Hkeep in Hin. congruence. }
      lia.
Qed.

Lemma repeated_spec ids x :
  x ∈ repeated ids <-> (2 <= occurrences x ids)%nat.
Proof.
  unfold repeated, Js.filterIndex.
  pose proof (repeated_from ids [] x) as H. simpl in H. rewrite H. lia.
Qed.

Lemma occurrences_filter_truthy k ids :
  Js.truthy k = true ->
  occurrences k (List.filter Js.truthy ids) = occurrences k ids.
Proof.
  intros Hk. induction ids as [|x ids IH]; [done|]. simpl.
  destruct (Js.truthy x) eqn:E; rewrite !occurrences_cons, ?IH; [done|].
  case_bool_decide; [congruence | done].
Qed.

Lemma duplicateIds_spec ids k :
  k ∈ Js.newSet (repeated (List.filter Js.truthy ids)) <-> duplicated k ids.
Proof.
  rewrite newSet_spec, repeated_spec. unfold duplicated. split.
  - intros H. assert (Js.truthy k = true) as Hk.
    { assert (k ∈ List.filter Js.truthy ids) as Hin
        by (apply occurrences_pos; lia).
      apply list_elem_of_In, filter_In in Hin. tauto. }
    by rewrite occurrences_filter_truthy in H.
  - intros [Hk H]. by rewrite occurrences_filter_truthy.
Qed.

Lemma flat_map_singleton {A B} (f : A -> B) (xs : list A) :
  flat_map (fun x => [f x]) xs = map f xs.
Proof. induction xs as [|x xs IH]; simpl; by rewrite ?IH. Qed.

Lemma appends_pushAll {A} (xs : list A) (f : A -> ValidationError.t) :
  appends (forEach xs (fun x => push (f x))) tt (map f xs).
Proof.
  rewrite <- flat_map_singleton. apply appends_forEach.
  intros x _. apply appends_push.
Qed.

Lemma validateDuplicateIds_appends clientsData workersData tasksData :
  exists out,
    appends (validateDuplicateIds clientsData workersData tasksData) tt out.
Proof.
  eexists. unfold validateDuplicateIds.
  eapply appends_bind; [apply appends_pushAll|].
  eapply appends_bind; apply appends_pushAll.
Qed.

Lemma duplicateKeys_strings ids :
  exists keys : list string,
    Js.newSet (repeated (List.filter Js.truthy ids)) = map Some keys
    /\ NoDup keys
    /\ forall k, k ∈ keys <-> sharedKey k ids.
Proof.
  set (l := Js.newSet (repeated (List.filter Js.truthy ids))).
  assert (Hspec : forall o, o ∈ l <-> duplicated o ids)
    by (intros o; apply duplicateIds_spec).
  assert (Hnd : NoDup l) by apply newSet_NoDup.
  clearbody l.
  assert (Hsome : exists keys, l = map Some keys).
  { assert (Hall : Forall (fun o => Js.truthy o = true) l).
    { apply Forall_forall. intros o Ho. by apply Hspec in Ho as [? _]. }
    clear Hspec Hnd. induction Hall as [|o l Ho _ [keys ->]].
    - by exists [].
    - destruct o as [k|]; [|done]. by exists (k :: keys). }
  destruct Hsome as [keys ->]. exists keys. split_and!; [done| |].
  - by apply (NoDup_fmap (@Some string)).
  - intros k. rewrite <- (list_elem_of_fmap_inj (@Some string)), Hspec.
    unfold duplicated, sharedKey, Js.truthy.
    rewrite negb_true_iff, String.eqb_neq. done.
Qed.

Lemma duplicateClient_finding keys :
  map duplicateClient (map Some keys)
  = map (duplicateFinding clients "client" "Client") keys.
Proof. rewrite map_map. by apply map_ext. Qed.

Lemma duplicateWorker_finding keys :
  map duplicateWorker (map Some keys)
  = map (duplicateFinding workers "worker" "Worker") keys.
Proof. rewrite map_map. by apply map_ext. Qed.

Lemma duplicateTask_finding keys :
  map duplicateTask (map Some keys)
  = map (duplicateFinding tasks "task" "Task") keys.
Proof. rewrite map_map. by apply map_ext. Qed.

(** C6.  Whatever the three collections hold, the duplicate check returns.
    For each collection it appends one error finding per key of a
    duplicate-free list of keys, the finding carrying the key in its id,
    its entity id and its message; a key is in that list exactly when it
    is not empty and at least two records of the collection carry it.  So
    a key shared by N >= 2 records is named by exactly one finding,
    whatever N, and no finding stands for an unset or an empty key. *)
Theorem validateDuplicateIds_one_finding_per_key
    (clientsData : list ClientData) (workersData : list WorkerData)
    (tasksData : list TaskData) :
  exists dc dw dt : list string,
    appends (validateDuplicateIds clientsData workersData tasksData) tt
      (map (duplicateFinding clients "client" "Client") dc
       ++ map (duplicateFinding workers "worker" "Worker") dw
       ++ map (duplicateFinding tasks "task" "Task") dt)
    /\ NoDup dc
    /\ (forall k, k ∈ dc <->
          k <> ""
          /\ (2 <= length (List.filter
                             (fun client =>
                                bool_decide (ClientID client = Some k))
                             clientsData))%nat)
    /\ NoDup dw
    /\ (forall k, k ∈ dw <->
          k <> ""
          /\ (2 <= length (List.filter
                             (fun worker =>
                                bool_decide (WorkerID worker = Some k))
                             workersData))%nat)
    /\ NoDup dt
    /\ (forall k, k ∈ dt <->
          k <> ""
          /\ (2 <= length (List.filter
                             (fun task => bool_decide (TaskID task = Some k))
                             tasksData))%nat)
    /\ ("" ∉ dc) /\ ("" ∉ dw) /\ ("" ∉ dt).
Proof.
  assert (Hocc : forall {A} (key : A -> option string) (xs : list A) k,
            occurrences (Some k) (map key xs)
            = length (List.filter
                        (fun x => bool_decide (key x = Some k)) xs)).
  { intros A key xs k. unfold occurrences.
    induction xs as [|x xs IH]; simpl; [done|].
    destruct (bool_decide (key x = Some k)); simpl; by rewrite IH. }
  destruct (duplicateKeys_strings (map ClientID clientsData))
    as (dc & Ec & Hndc & Hc).
  destruct (duplicateKeys_strings (map WorkerID workersData))
    as (dw & Ew & Hndw & Hw).
  destruct (duplicateKeys_strings (map TaskID tasksData))
    as (dt & Et & Hndt & Ht).
  exists dc, dw, dt. split_and!; try done.
  - rewrite <- duplicateClient_finding, <- duplicateWorker_finding,
      <- duplicateTask_finding, <- Ec, <- Ew, <- Et.
    unfold validateDuplicateIds.
    eapply appends_bind; [apply appends_pushAll|].
    eapply appends_bind; apply appends_pushAll.
  - intros k. rewrite Hc. unfold sharedKey. by rewrite Hocc.
  - intros k. rewrite Hw. unfold sharedKey. by rewrite Hocc.
  - intros k. rewrite Ht. unfold sharedKey. by rewrite Hocc.
  - intros [? _]%Hc. done.
  - intros [? _]%Hw. done.
  - intros [? _]%Ht. done.
Qed.

(** ** Unknown references *)

Lemma flat_map_when {A B} (c : A -> bool) (f : A -> B) (xs : list A) :
  flat_map (fun x => if c x then [f x] else []) xs = map f (List.filter c xs).
Proof.
  induction xs as [|x xs IH]; simpl; [done|].
  destruct (c x); simpl; by rewrite IH.
Qed.

Lemma includes_taskIds tasksData taskId :
  Js.includes (Js.newSet (map TaskID tasksData)) (Some taskId)
  = taskExists tasksData taskId.
Proof.
  unfold taskExists. apply eq_true_iff_eq.
  by rewrite includes_elem_of, newSet_spec, bool_decide_eq_true.
Qed.

Lemma validateReferences_appends clientsData workersData tasksData :
  (forall client, client ∈ clientsData -> is_Some (RequestedTaskIDs client)) ->
  appends (validateReferences clientsData workersData tasksData) tt
    (flat_map (fun client =>
       map (unknownTask client)
         (List.filter (fun taskId => negb (taskExists tasksData taskId))
            (requestsOf client)))
       clientsData).
Proof.
  intros Hwf. unfold validateReferences. apply appends_forEach.
  intros client Hc. destruct (Hwf client Hc) as [requested Hr].
  unfold requestsOf. rewrite Hr. simpl.
  eapply appends_bind_pure; [apply appends_deref|].
  rewrite <- flat_map_when. apply appends_forEach. intros taskId _.
  rewrite includes_taskIds.
  destruct (taskExists tasksData taskId); simpl;
    [apply appends_ret | apply appends_push].
Qed.

(** C7, as the code has it.  When every client carries its request list,
    the reference check returns, and what it appends is, client by client
    and request by request in order, one finding for each occurrence of a
    task ID that no task carries.  Hence every finding names a requested ID
    that does not exist, none names one that exists, and an absent ID is
    reported once per occurrence, not once per ID. *)
Theorem validateReferences_one_finding_per_absent_request
    (clientsData : list ClientData) (workersData : list WorkerData)
    (tasksData : list TaskData) :
  (forall client, client ∈ clientsData -> is_Some (RequestedTaskIDs client)) ->
  let absent := fun taskId => negb (taskExists tasksData taskId) in
  let out :=
    flat_map (fun client =>
      map (unknownTask client) (List.filter absent (requestsOf client)))
      clientsData in
  appends (validateReferences clientsData workersData tasksData) tt out
  /\ Forall (fun e => exists client taskId,
               client ∈ clientsData /\ taskId ∈ requestsOf client
               /\ taskExists tasksData taskId = false
               /\ e = unknownTask client taskId) out.
Proof.
  intros Hwf absent out. split; [by apply validateReferences_appends|].
  apply Forall_forall. intros e He. subst out.
  apply list_elem_of_In, in_flat_map in He as (client & Hc & He).
  apply in_map_iff in He as (taskId & <- & Ht).
  apply filter_In in Ht as [Ht Habs].
  exists client, taskId. split_and!; try by apply list_elem_of_In.
  - by apply negb_true_iff in Habs.
  - done.
Qed.

(** The theorem at a client that carries its requests. *)
Lemma validateReferences_one_finding_per_absent_request_witness :
  (forall client, client ∈ [clientAskingTwice] ->
     is_Some (RequestedTaskIDs client))
  /\ appends (validateReferences [clientAskingTwice] [] []) tt
       [unknownTask clientAskingTwice "T9"; unknownTask clientAskingTwice "T9"].
Proof.
  assert (H : forall client, client ∈ [clientAskingTwice] ->
                is_Some (RequestedTaskIDs client)).
  { intros client ->%list_elem_of_singleton. by eexists. }
  split; [exact H|].
  exact (proj1 (validateReferences_one_finding_per_absent_request
                  [clientAskingTwice] [] [] H)).
Defined.

(** C7, as the specification words it, fails: the client below asks twice
    for the task T9, which does not exist, and two findings, not one,
    reference that ID. *)
Lemma validateReferences_repeated_request_reported_twice :
  exists out,
    validateReferences [clientAskingTwice] [] [] [] = Returned (tt, out)
    /\ "T9" ∈ requestsOf clientAskingTwice
    /\ taskExists [] "T9" = false
    /\ length (List.filter (referencesTask "T9") out) = 2%nat.
Proof.
  eexists. split; [by vm_compute|]. split_and!.
  - left.
  - done.
  - by vm_compute.
Qed.

(** ** Max-concurrency feasibility *)

Lemma appends_qualifiedWorkers workersData task :
  (forall worker, worker ∈ workersData -> is_Some (Skills worker)) ->
  is_Some (RequiredSkills task) ->
  appends
    (filterM (fun worker =>
       required <- deref (RequiredSkills task) ;;
       everyM (fun skill =>
         skills <- deref (Skills worker) ;; ret (Js.includes skills skill))
         required)
       workersData)
    (qualifiedFor workersData task) [].
Proof.
  intros Hw [required Hr]. apply appends_filterM. intros worker Hin.
  destruct (Hw worker Hin) as [skills Hs].
  unfold qualified, requiredOf, skillsOf. rewrite Hr, Hs. simpl.
  eapply appends_bind_pure; [apply appends_deref|].
  apply appends_everyM. intros skill _.
  eapply appends_bind_pure; [apply appends_deref | apply appends_ret].
Qed.

Lemma appends_phaseConstrained (ws : list WorkerData) task preferred :
  (forall worker, worker ∈ ws -> is_Some (AvailableSlots worker)) ->
  PreferredPhases task = Some preferred ->
  appends
    (filterM (fun worker =>
       slots <- deref (AvailableSlots worker) ;;
       ret (existsb (fun slot => Js.includes preferred slot) slots)) ws)
    (List.filter (availableIn task) ws) [].
Proof.
  intros Hw Hp. apply appends_filterM. intros worker Hin.
  destruct (Hw worker Hin) as [slots Hs].
  unfold availableIn, preferredOf, slotsOf. rewrite Hp, Hs. simpl.
  eapply appends_bind_pure; [apply appends_deref | apply appends_ret].
Qed.

Lemma checkTaskConcurrency_appends workersData task :
  Forall workerComplete workersData -> taskComplete task ->
  let q := Js.len (qualifiedFor workersData task) in
  let a := Js.len (phaseConstrained workersData task) in
  appends (checkTaskConcurrency workersData task) tt
    ((if MaxConcurrent task >? q then [infeasibleConcurrency task q] else [])
     ++ (if (Js.len (preferredOf task) >? 0) && (MaxConcurrent task >? a)
         then [infeasiblePhaseConcurrency task a] else [])).
Proof.
  intros Hw [Hr [preferred Hp]] q a. unfold checkTaskConcurrency.
  rewrite Forall_forall in Hw.
  eapply appends_bind_pure.
  { apply appends_qualifiedWorkers; [|done]. intros w Hin. by apply Hw. }
  eapply appends_bind; [apply appends_when; intros _; apply appends_push|].
  rewrite Hp. eapply appends_bind_pure; [apply appends_deref|].
  unfold preferredOf. rewrite Hp. simpl.
  destruct (Js.len preferred >? 0); simpl; [|apply appends_ret].
  eapply appends_bind_pure.
  { apply appends_phaseConstrained with (task := task); [|done].
    intros w Hin. apply Hw. apply list_elem_of_In.
    apply list_elem_of_In, filter_In in Hin. tauto. }
  apply appends_when. intros _. apply appends_push.
Qed.

(** C5, as the code has it.  For a task and workers that carry their
    lists, the check of one task returns and appends: the shortfall
    warning, citing [MaxConcurrent] and the number of qualified workers,
    exactly when the former exceeds the latter; then the phase warning,
    citing [MaxConcurrent] and the number of qualified workers available in
    a preferred phase, exactly when the task has preferred phases and
    [MaxConcurrent] exceeds that number.  With three workers of which two
    have the skill X, a task requiring X with [MaxConcurrent] 3 gets one
    shortfall warning, citing 3 and 2. *)
Theorem checkTaskConcurrency_two_warnings
    (workersData : list WorkerData) (task : TaskData) :
  (Forall workerComplete workersData -> taskComplete task ->
   let q := Js.len (qualifiedFor workersData task) in
   let a := Js.len (phaseConstrained workersData task) in
   appends (checkTaskConcurrency workersData task) tt
     ((if MaxConcurrent task >? q then [infeasibleConcurrency task q] else [])
      ++ (if (Js.len (preferredOf task) >? 0) && (MaxConcurrent task >? a)
          then [infeasiblePhaseConcurrency task a] else [])))
  /\ appends (validateMaxConcurrencyFeasibility twoWithX [taskNeedingThree]) tt
       [infeasibleConcurrency taskNeedingThree 2;
        infeasiblePhaseConcurrency taskNeedingThree 1]
  /\ ValidationError.message (infeasibleConcurrency taskNeedingThree 2)
     = "Max concurrent (3) exceeds qualified workers (2)".
Proof.
  split; [apply checkTaskConcurrency_appends|]. split; [|done].
  pose proof (checkTaskConcurrency_appends twoWithX taskNeedingThree) as H.
  simpl in H.
  replace [infeasibleConcurrency taskNeedingThree 2;
           infeasiblePhaseConcurrency taskNeedingThree 1]
    with (flat_map (fun task =>
            (if MaxConcurrent task >? Js.len (qualifiedFor twoWithX task)
             then [infeasibleConcurrency task
                     (Js.len (qualifiedFor twoWithX task))]
             else [])
            ++ (if (Js.len (preferredOf task) >? 0)
                   && (MaxConcurrent task
                       >? Js.len (phaseConstrained twoWithX task))
                then [infeasiblePhaseConcurrency task
                        (Js.len (phaseConstrained twoWithX task))]
                else []))
            [taskNeedingThree])
    by (by vm_compute).
  apply appends_forEach. intros t ->%list_elem_of_singleton.
  apply H; [repeat constructor; by eexists | split; by eexists].
Qed.

(** The theorem at the three sample workers and the task that needs
    three of them. *)
Lemma checkTaskConcurrency_two_warnings_witness :
  Forall workerComplete twoWithX /\ taskComplete taskNeedingThree
  /\ appends (checkTaskConcurrency twoWithX taskNeedingThree) tt
       [infeasibleConcurrency taskNeedingThree 2;
        infeasiblePhaseConcurrency taskNeedingThree 1].
Proof.
  assert (Hw : Forall workerComplete twoWithX).
  { repeat constructor; by eexists. }
  assert (Ht : taskComplete taskNeedingThree).
  { split; by eexists. }
  split_and!; [done..|].
  exact (proj1 (checkTaskConcurrency_two_warnings twoWithX taskNeedingThree)
           Hw Ht).
Defined.

(** C5, as the specification words it, fails: the task below has no
    preferred phase, so no qualified worker has a slot in its (empty) list
    of preferred phases and [MaxConcurrent] = 1 exceeds their number, 0; yet
    the check appends nothing. *)
Lemma checkTaskConcurrency_silent_without_preferred_phases :
  MaxConcurrent taskAnyPhase
    > Js.len (phaseConstrained [soleWorker] taskAnyPhase)
  /\ checkTaskConcurrency [soleWorker] taskAnyPhase [] = Returned (tt, []).
Proof. split; by vm_compute. Qed.

Lemma string_app_cons c (s1 s2 : string) :
  String c s1 +:+ s2 = String c (s1 +:+ s2).
Proof. reflexivity. Qed.

Lemma endsWith_refl y : endsWith y y = true.
Proof. destruct y; cbn [endsWith]; by rewrite String.eqb_refl. Qed.

Lemma endsWith_app y x : endsWith y (x +:+ y) = true.
Proof.
  induction x as [|c x IH].
  - apply endsWith_refl.
  - rewrite string_app_cons. cbn [endsWith]. by rewrite IH, orb_true_r.
Qed.

Lemma endsWith_app_inv suffix x y :
  endsWith suffix (x +:+ y) = true ->
  endsWith suffix y = true \/ endsWith y suffix = true.
Proof.
  induction x as [|c x IH]; [by left|].
  rewrite string_app_cons. cbn [endsWith].
  intros [Heq | Hrest]%orb_true_iff.
  - apply String.eqb_eq in Heq. subst suffix. right.
    rewrite <- string_app_cons. apply endsWith_app.
  - by apply IH.
Qed.

Lemma string_app_assoc (s1 s2 s3 : string) :
  s1 +:+ (s2 +:+ s3) = (s1 +:+ s2) +:+ s3.
Proof.
  induction s1 as [|c s1 IH]; [done|]. rewrite !string_app_cons. by f_equal.
Qed.

Lemma shortfall_id_not_phase task q :
  endsWith "infeasible-phase-concurrency"
    (ValidationError.id (infeasibleConcurrency task q)) = false.
Proof.
  change (ValidationError.id (infeasibleConcurrency task q))
    with ("task-" +:+ (Js.str (TaskID task) +:+ "-infeasible-concurrency")).
  rewrite string_app_assoc.
  destruct (endsWith _ _) eqn:E; [|done].
  apply endsWith_app_inv in E as [E | E]; vm_compute in E; discriminate.
Qed.

(** C10.  For a task whose list of preferred phases is empty, checked
    against workers that carry their skills (their available slots may be
    anything, or missing), the check returns and appends either nothing or
    the shortfall warning alone; no appended finding has an id that ends in
    infeasible-phase-concurrency. *)
Theorem checkTaskConcurrency_no_phase_warning_without_preference
    (workersData : list WorkerData) (task : TaskData) :
  (forall worker, worker ∈ workersData -> is_Some (Skills worker)) ->
  is_Some (RequiredSkills task) ->
  PreferredPhases task = Some [] ->
  exists out,
    appends (checkTaskConcurrency workersData task) tt out
    /\ (out = []
        \/ out = [infeasibleConcurrency task
                    (Js.len (qualifiedFor workersData task))])
    /\ Forall (fun e =>
         endsWith "infeasible-phase-concurrency" (ValidationError.id e)
         = false) out.
Proof.
  intros Hw Hr Hp.
  set (q := Js.len (qualifiedFor workersData task)).
  exists (if MaxConcurrent task >? q then [infeasibleConcurrency task q]
          else []).
  split_and!.
  - unfold checkTaskConcurrency.
    eapply appends_bind_pure; [by apply appends_qualifiedWorkers|].
    fold q.
    rewrite <- (app_nil_r (if MaxConcurrent task >? q then _ else _)).
    eapply appends_bind; [apply appends_when; intros _; apply appends_push|].
    rewrite Hp. eapply appends_bind_pure; [apply appends_deref|].
    apply appends_ret.
  - destruct (_ >? _); [by right | by left].
  - destruct (_ >? _); repeat constructor. apply shortfall_id_not_phase.
Qed.

(** The theorem at a task without preferred phases. *)
Lemma checkTaskConcurrency_no_phase_warning_without_preference_witness :
  exists out,
    appends (checkTaskConcurrency [soleWorker] taskAnyPhase) tt out
    /\ (out = []
        \/ out = [infeasibleConcurrency taskAnyPhase
                    (Js.len (qualifiedFor [soleWorker] taskAnyPhase))])
    /\ Forall (fun e =>
         endsWith "infeasible-phase-concurrency" (ValidationError.id e)
         = false) out.
Proof.
  apply (checkTaskConcurrency_no_phase_warning_without_preference
           [soleWorker] taskAnyPhase).
  - intros worker ->%list_elem_of_singleton. by eexists.
  - by eexists.
  - reflexivity.
Defined.

(** ** Maps in insertion order *)

Lemma mapGet_mapSet `{EqDecision K} {V} (m : list (K * V)) k v k' :
  Js.mapGet (Js.mapSet m k v) k'
  = if bool_decide (k = k') then Some v else Js.mapGet m k'.
Proof.
  induction m as [|[k0 v0] m IH]; simpl.
  - done.
  - destruct (decide (k0 = k)) as [->|E0].
    + rewrite bool_decide_eq_true_2 by done. simpl. by case_bool_decide.
    + rewrite (bool_decide_eq_false_2 (k0 = k)) by done. simpl. rewrite IH.
      repeat case_bool_decide; congruence.
Qed.

Lemma mapSet_keys `{EqDecision K} {V} (m : list (K * V)) k v :
  map fst (Js.mapSet m k v) = Js.setAdd (map fst m) k.
Proof.
  unfold Js.setAdd. induction m as [|[k0 v0] m IH]; simpl; [done|].
  destruct (decide (k0 = k)) as [->|E0].
  - by rewrite !bool_decide_eq_true_2.
  - rewrite !(bool_decide_eq_false_2 (k0 = k)) by done. simpl. rewrite IH.
    by destruct (Js.includes (map fst m) k).
Qed.

Lemma mapGet_entry `{EqDecision K} {V} (m : list (K * V)) k v :
  NoDup (map fst m) -> (k, v) ∈ m -> Js.mapGet m k = Some v.
Proof.
  induction m as [|[k0 v0] m IH]; simpl; intros Hnd Hin.
  - by apply elem_of_nil in Hin.
  - apply NoDup_cons in Hnd as [Hk0 Hnd].
    apply elem_of_cons in Hin as [[= <- <-] | Hin].
    + by rewrite bool_decide_eq_true_2.
    + case_bool_decide as E; [|by apply IH]. subst k0. exfalso. apply Hk0.
      apply list_elem_of_fmap. by exists (k, v).
Qed.

(** ** Phase-slot saturation *)

Lemma countIn_cons p q l :
  countIn p (q :: l) = (if bool_decide (q = p) then 1 else 0) + countIn p l.
Proof.
  unfold countIn, Js.len. simpl. destruct (Z.eqb_spec p q); case_bool_decide;
    try congruence; simpl; lia.
Qed.

(** ** Addition of numbers *)

Lemma roundHalfEven_multiple k n :
  0 <= k -> Js.roundHalfEven k (2 ^ k * n) = 2 ^ k * n.
Proof.
  intros Hk. unfold Js.roundHalfEven.
  assert (0 < 2 ^ k) by (apply Z.pow_pos_nonneg; lia).
  rewrite (Z.mul_comm (2 ^ k) n), Z.div_mul, Z.mod_mul by lia.
  destruct (Z.ltb_spec (2 * 0) (2 ^ k)); lia.
Qed.

Lemma roundHalfEven_between k a :
  0 <= k ->
  2 ^ k * (a / 2 ^ k) <= Js.roundHalfEven k a <= 2 ^ k * (a / 2 ^ k + 1).
Proof.
  intros Hk. unfold Js.roundHalfEven.
  assert (0 < 2 ^ k) by (apply Z.pow_pos_nonneg; lia).
  repeat match goal with |- context [if ?c then _ else _] => destruct c end;
    nia.
Qed.

Lemma roundHalfEven_mono k a b :
  0 <= k -> a <= b -> Js.roundHalfEven k a <= Js.roundHalfEven k b.
Proof.
  intros Hk Hab.
  assert (Hu : 0 < 2 ^ k) by (apply Z.pow_pos_nonneg; lia).
  pose proof (Z.div_le_mono a b (2 ^ k) Hu Hab) as Hq.
  destruct (Z.eq_dec (a / 2 ^ k) (b / 2 ^ k)) as [E|E].
  - unfold Js.roundHalfEven. cbv zeta. rewrite E.
    pose proof (Z.div_mod a (2 ^ k)) as Ha.
    pose proof (Z.div_mod b (2 ^ k)) as Hb.
    assert (a mod 2 ^ k <= b mod 2 ^ k) by lia.
    destruct (Z.ltb_spec (2 * (a mod 2 ^ k)) (2 ^ k)),
             (Z.ltb_spec (2 ^ k) (2 * (a mod 2 ^ k))),
             (Z.ltb_spec (2 * (b mod 2 ^ k)) (2 ^ k)),
             (Z.ltb_spec (2 ^ k) (2 * (b mod 2 ^ k)));
      try lia; destruct (Z.even (b / 2 ^ k)); nia.
  - pose proof (roundHalfEven_between k a Hk).
    pose proof (roundHalfEven_between k b Hk). nia.
Qed.

Lemma ulpExp_nonneg a : 0 <= Js.ulpExp a.
Proof. unfold Js.ulpExp. lia. Qed.

Lemma ulpExp_mono a b : a <= b -> Js.ulpExp a <= Js.ulpExp b.
Proof.
  intros H. unfold Js.ulpExp. pose proof (Z.log2_le_mono a b H). lia.
Qed.

(** Rounding a magnitude. *)
Lemma roundMagnitude_exact a :
  0 <= a <= 2 ^ 53 -> Js.roundHalfEven (Js.ulpExp a) a = a.
Proof.
  intros Ha. destruct (Z.eq_dec a (2 ^ 53)) as [->|Hne].
  - by vm_compute.
  - assert (Js.ulpExp a = 0) as ->.
    { unfold Js.ulpExp. destruct (Z.eq_dec a 0) as [->|H0]; [done|].
      assert (Z.log2 a < 53) by (apply Z.log2_lt_pow2; lia). lia. }
    pose proof (roundHalfEven_multiple 0 a ltac:(lia)) as H.
    by rewrite Z.pow_0_r, Z.mul_1_l in H.
Qed.

Lemma roundMagnitude_mono a b :
  0 <= a <= b ->
  Js.roundHalfEven (Js.ulpExp a) a <= Js.roundHalfEven (Js.ulpExp b) b.
Proof.
  intros [Ha Hab].
  pose proof (ulpExp_mono a b Hab) as Hk.
  pose proof (ulpExp_nonneg a) as Hka.
  destruct (Z.eq_dec (Js.ulpExp a) (Js.ulpExp b)) as [E|E].
  - rewrite E. apply roundHalfEven_mono; [rewrite <- E|]; done.
  - set (e := Z.log2 b).
    assert (He : Js.ulpExp b = e - 52 /\ 53 <= e).
    { unfold Js.ulpExp in *. subst e. lia. }
    destruct He as [Hkb He].
    assert (Hb : 2 ^ e <= b).
    { subst e. apply Z.log2_spec. destruct (Z.eq_dec b 0) as [->|]; [|lia].
      vm_compute in He. done. }
    assert (Hlt : a <= 2 ^ e).
    { destruct (Z.eq_dec a 0) as [->|H0]; [apply Z.pow_nonneg; lia|].
      apply Z.lt_le_incl, Z.log2_lt_pow2; [lia|].
      pose proof (Z.log2_le_mono a b Hab). unfold Js.ulpExp in *.
      fold e in H. lia. }
    assert (Hpa : 2 ^ e = 2 ^ Js.ulpExp a * 2 ^ (e - Js.ulpExp a)).
    { rewrite <- Z.pow_add_r by lia. f_equal. lia. }
    assert (Hpb : 2 ^ e = 2 ^ Js.ulpExp b * 2 ^ 52).
    { rewrite <- Z.pow_add_r by lia. f_equal. lia. }
    pose proof (roundHalfEven_multiple (Js.ulpExp a) (2 ^ (e - Js.ulpExp a))
                  Hka) as Hfa.
    rewrite <- Hpa in Hfa.
    pose proof (roundHalfEven_multiple (Js.ulpExp b) (2 ^ 52)
                  ltac:(lia)) as Hfb.
    rewrite <- Hpb in Hfb.
    pose proof (roundHalfEven_mono (Js.ulpExp a) a (2 ^ e) Hka Hlt).
    pose proof (roundHalfEven_mono (Js.ulpExp b) (2 ^ e) b ltac:(lia) Hb).
    lia.
Qed.

Lemma roundMagnitude_nonneg a :
  0 <= a -> 0 <= Js.roundHalfEven (Js.ulpExp a) a.
Proof.
  intros Ha. pose proof (roundMagnitude_mono 0 a ltac:(lia)) as H.
  by vm_compute (Js.roundHalfEven (Js.ulpExp 0) 0) in H.
Qed.

Lemma roundMagnitude_idem a :
  0 <= a ->
  Js.roundHalfEven (Js.ulpExp (Js.roundHalfEven (Js.ulpExp a) a))
    (Js.roundHalfEven (Js.ulpExp a) a)
  = Js.roundHalfEven (Js.ulpExp a) a.
Proof.
  intros Ha. destruct (Z_le_gt_dec a (2 ^ 53)) as [Hs|Hl].
  - rewrite (roundMagnitude_exact a) by lia.
    by rewrite (roundMagnitude_exact a) by lia.
  - set (e := Z.log2 a).
    assert (Hspec : 2 ^ e <= a < 2 ^ Z.succ e)
      by (subst e; apply Z.log2_spec; lia).
    assert (He : 53 <= e).
    { subst e. apply Z.log2_le_pow2; lia. }
    assert (Hk : Js.ulpExp a = e - 52) by (unfold Js.ulpExp; fold e; lia).
    set (v := Js.roundHalfEven (Js.ulpExp a) a).
    assert (Hlow : 2 ^ e <= v).
    { subst v. rewrite Hk.
      assert (Hp : 2 ^ e = 2 ^ (e - 52) * 2 ^ 52).
      { rewrite <- Z.pow_add_r by lia. f_equal. lia. }
      pose proof (roundHalfEven_multiple (e - 52) (2 ^ 52) ltac:(lia)) as Hf.
      rewrite <- Hp in Hf.
      pose proof (roundHalfEven_mono (e - 52) (2 ^ e) a ltac:(lia)
                    ltac:(lia)). lia. }
    assert (Hhigh : v <= 2 ^ Z.succ e).
    { subst v. rewrite Hk.
      assert (Hp : 2 ^ Z.succ e = 2 ^ (e - 52) * 2 ^ 53).
      { rewrite <- Z.pow_add_r by lia. f_equal. lia. }
      pose proof (roundHalfEven_multiple (e - 52) (2 ^ 53) ltac:(lia)) as Hf.
      rewrite <- Hp in Hf.
      pose proof (roundHalfEven_mono (e - 52) a (2 ^ Z.succ e) ltac:(lia)
                    ltac:(lia)). lia. }
    assert (Hmul : exists n, v = 2 ^ (e - 52) * n).
    { subst v. rewrite Hk. unfold Js.roundHalfEven. by eexists. }
    destruct Hmul as [n Hn].
    destruct (Z.eq_dec v (2 ^ Z.succ e)) as [Ev|Ev].
    + rewrite Ev.
      assert (Js.ulpExp (2 ^ Z.succ e) = e - 51) as ->.
      { unfold Js.ulpExp. rewrite Z.log2_pow2 by lia. lia. }
      assert (Hp : 2 ^ Z.succ e = 2 ^ (e - 51) * 2 ^ 52).
      { rewrite <- Z.pow_add_r by lia. f_equal. lia. }
      rewrite Hp. apply roundHalfEven_multiple. lia.
    + assert (Js.ulpExp v = e - 52) as ->.
      { unfold Js.ulpExp.
        rewrite (Z.log2_unique v e) by lia. lia. }
      rewrite Hn. apply roundHalfEven_multiple. lia.
Qed.

Lemma toDouble_nonneg x :
  0 <= x -> Js.toDouble x = Js.roundHalfEven (Js.ulpExp x) x.
Proof.
  intros Hx. unfold Js.toDouble. rewrite Z.abs_eq by done.
  destruct (Z.eq_dec x 0) as [->|H0]; [done|].
  rewrite Z.sgn_pos by lia. lia.
Qed.

Lemma toDouble_nonpos x :
  x <= 0 -> Js.toDouble x = - Js.roundHalfEven (Js.ulpExp (- x)) (- x).
Proof.
  intros Hx. unfold Js.toDouble. rewrite Z.abs_neq by done.
  destruct (Z.eq_dec x 0) as [->|H0]; [done|].
  rewrite Z.sgn_neg by lia. lia.
Qed.

Lemma toDouble_exact x : Z.abs x <= 2 ^ 53 -> Js.toDouble x = x.
Proof.
  intros Hx. destruct (Z_le_gt_dec 0 x).
  - rewrite toDouble_nonneg, roundMagnitude_exact; lia.
  - rewrite toDouble_nonpos, roundMagnitude_exact; lia.
Qed.

Lemma toDouble_mono x y : x <= y -> Js.toDouble x <= Js.toDouble y.
Proof.
  intros Hxy. destruct (Z_le_gt_dec 0 x), (Z_le_gt_dec 0 y); try lia.
  - rewrite !toDouble_nonneg by lia. apply roundMagnitude_mono. lia.
  - rewrite (toDouble_nonpos x), (toDouble_nonneg y) by lia.
    pose proof (roundMagnitude_nonneg (- x)).
    pose proof (roundMagnitude_nonneg y). lia.
  - rewrite !toDouble_nonpos by lia.
    pose proof (roundMagnitude_mono (- y) (- x)). lia.
Qed.

Lemma toDouble_idem x : Js.toDouble (Js.toDouble x) = Js.toDouble x.
Proof.
  destruct (Z_le_gt_dec 0 x).
  - rewrite (toDouble_nonneg x) by done.
    rewrite toDouble_nonneg by by apply roundMagnitude_nonneg.
    by apply roundMagnitude_idem.
  - rewrite (toDouble_nonpos x) by lia.
    pose proof (roundMagnitude_nonneg (- x)).
    rewrite toDouble_nonpos by lia. rewrite Z.opp_involutive.
    rewrite roundMagnitude_idem; lia.
Qed.

Lemma add_exact x y : Z.abs (x + y) <= 2 ^ 53 -> Js.add x y = x + y.
Proof. apply toDouble_exact. Qed.

(** Adding a number that is not negative to a double does not give a
    smaller double. *)
Lemma add_nonneg t a :
  Js.toDouble t = t -> 0 <= a -> t <= Js.add t a.
Proof.
  intros Ht Ha. unfold Js.add. rewrite <- Ht at 1. apply toDouble_mono. lia.
Qed.

Lemma add_is_double x y : Js.toDouble (Js.add x y) = Js.add x y.
Proof. apply toDouble_idem. Qed.

(** ** Phase-slot saturation: the totals *)

Lemma getOr0_addTo amount m p q :
  Js.getOr0 (addTo amount m p) q
  = if bool_decide (p = q) then Js.add (Js.getOr0 m q) amount
    else Js.getOr0 m q.
Proof.
  unfold Js.getOr0 at 1. unfold addTo. rewrite mapGet_mapSet.
  case_bool_decide; [by subst | done].
Qed.

Lemma countIn_nonneg p l : 0 <= countIn p l.
Proof. unfold countIn, Js.len. lia. Qed.

(** Within the exact range the total of one record is the plain sum. *)
Lemma getOr0_fold_addTo amount l m q :
  Z.abs (Js.getOr0 m q) + Z.abs amount * countIn q l <= exactUpTo ->
  Js.getOr0 (fold_left (addTo amount) l m) q
  = Js.getOr0 m q + amount * countIn q l.
Proof.
  revert m. induction l as [|p l IH]; intros m; simpl.
  - intros _. unfold countIn, Js.len. simpl. lia.
  - rewrite countIn_cons. pose proof (countIn_nonneg q l) as Hc.
    intros Hb. rewrite IH; rewrite getOr0_addTo; case_bool_decide;
      try lia.
    + rewrite add_exact by (unfold exactUpTo in Hb; nia). lia.
    + rewrite add_exact by (unfold exactUpTo in Hb; nia).
      unfold exactUpTo in *. nia.
Qed.

Lemma sumZ_nonneg l : Forall (fun x => 0 <= x) l -> 0 <= sumZ l.
Proof. unfold sumZ. induction 1; simpl; lia. Qed.

Lemma getOr0_totals {A} (amount : A -> Z) (phases : A -> list Z) xs m q :
  Z.abs (Js.getOr0 m q)
  + sumZ (map (fun x => Z.abs (amount x) * countIn q (phases x)) xs)
  <= exactUpTo ->
  Js.getOr0
    (fold_left (fun m x => fold_left (addTo (amount x)) (phases x) m) xs m) q
  = Js.getOr0 m q + sumZ (map (fun x => amount x * countIn q (phases x)) xs).
Proof.
  revert m. induction xs as [|x xs IH]; intros m; simpl; [lia|].
  intros Hb.
  assert (Hrest : 0 <= sumZ (map (fun x => Z.abs (amount x)
                                            * countIn q (phases x)) xs)).
  { apply sumZ_nonneg, Forall_forall. intros y (z & -> & _)%list_elem_of_fmap.
    pose proof (countIn_nonneg q (phases z)). nia. }
  pose proof (countIn_nonneg q (phases x)) as Hc.
  assert (E : Js.getOr0 (fold_left (addTo (amount x)) (phases x) m) q
              = Js.getOr0 m q + amount x * countIn q (phases x)).
  { apply getOr0_fold_addTo. lia. }
  rewrite IH; rewrite E; [lia|]. nia.
Qed.

(** Whatever the magnitudes, a total is a double, and contributions that
    are not negative do not lower it. *)
Lemma getOr0_fold_addTo_double amount l m q :
  Js.toDouble (Js.getOr0 m q) = Js.getOr0 m q ->
  Js.toDouble (Js.getOr0 (fold_left (addTo amount) l m) q)
  = Js.getOr0 (fold_left (addTo amount) l m) q.
Proof.
  revert m. induction l as [|p l IH]; intros m Hm; simpl; [done|].
  apply IH. rewrite getOr0_addTo. case_bool_decide; [|done].
  apply add_is_double.
Qed.

Lemma getOr0_totals_double {A} (amount : A -> Z) (phases : A -> list Z)
    xs m q :
  Js.toDouble (Js.getOr0 m q) = Js.getOr0 m q ->
  Js.toDouble
    (Js.getOr0
       (fold_left (fun m x => fold_left (addTo (amount x)) (phases x) m)
          xs m) q)
  = Js.getOr0
      (fold_left (fun m x => fold_left (addTo (amount x)) (phases x) m)
         xs m) q.
Proof.
  revert m. induction xs as [|x xs IH]; intros m Hm; simpl; [done|].
  by apply IH, getOr0_fold_addTo_double.
Qed.

Lemma getOr0_fold_addTo_grows amount l m q :
  0 <= amount ->
  Js.toDouble (Js.getOr0 m q) = Js.getOr0 m q ->
  Js.getOr0 m q <= Js.getOr0 (fold_left (addTo amount) l m) q.
Proof.
  intros Ha. revert m. induction l as [|p l IH]; intros m Hm; simpl; [done|].
  etransitivity; [|apply IH].
  - rewrite getOr0_addTo. case_bool_decide; [|done]. by apply add_nonneg.
  - rewrite getOr0_addTo. case_bool_decide; [|done]. apply add_is_double.
Qed.

Lemma getOr0_totals_grows {A} (amount : A -> Z) (phases : A -> list Z)
    xs m q :
  Forall (fun x => 0 <= amount x) xs ->
  Js.toDouble (Js.getOr0 m q) = Js.getOr0 m q ->
  Js.getOr0 m q
  <= Js.getOr0
       (fold_left (fun m x => fold_left (addTo (amount x)) (phases x) m)
          xs m) q.
Proof.
  intros Hpos. revert m.
  induction Hpos as [|x xs Hx _ IH]; intros m Hm; simpl; [done|].
  etransitivity; [by apply (getOr0_fold_addTo_grows (amount x) (phases x))|].
  by apply IH, getOr0_fold_addTo_double.
Qed.

Lemma keys_fold_addTo amount l m :
  map fst (fold_left (addTo amount) l m) = fold_left Js.setAdd l (map fst m).
Proof.
  revert m. induction l as [|p l IH]; intros m; simpl; [done|].
  rewrite IH. unfold addTo. by rewrite mapSet_keys.
Qed.

Lemma keys_totals {A} (amount : A -> Z) (phases : A -> list Z) xs m :
  map fst
    (fold_left (fun m x => fold_left (addTo (amount x)) (phases x) m) xs m)
  = fold_left Js.setAdd (flat_map phases xs) (map fst m).
Proof.
  revert m. induction xs as [|x xs IH]; intros m; simpl; [done|].
  by rewrite IH, keys_fold_addTo, fold_left_app.
Qed.

Lemma flat_map_entries {B} (g : Z -> Z -> list B) (m l : list (Z * Z)) :
  NoDup (map fst m) -> (forall e, e ∈ l -> e ∈ m) ->
  flat_map (fun '(p, r) => g p r) l
  = flat_map (fun p => g p (Js.getOr0 m p)) (map fst l).
Proof.
  intros Hnd. induction l as [|[p r] l IH]; intros Hsub; simpl; [done|].
  rewrite IH by (intros e He; apply Hsub; by right).
  assert (Js.getOr0 m p = r) as ->; [|done].
  unfold Js.getOr0. rewrite (mapGet_entry m p r); [done..|].
  apply Hsub. left.
Qed.

Lemma attributedTo_preferred task preferred :
  PreferredPhases task = Some preferred ->
  (if Js.len preferred >? 0 then preferred else [1]) = attributedTo task.
Proof. intros H. unfold attributedTo, preferredOf. by rewrite H. Qed.

(** What the check appends, in the totals it accumulates. *)
Lemma validatePhaseSlotSaturation_totals workersData tasksData :
  (forall worker, worker ∈ workersData -> is_Some (AvailableSlots worker)) ->
  (forall task, task ∈ tasksData -> is_Some (PreferredPhases task)) ->
  appends (validatePhaseSlotSaturation workersData tasksData) tt
    (map (fun p =>
            phaseSaturation p (requiredTotal tasksData p)
              (availableTotal workersData p))
       (List.filter
          (fun p => requiredTotal tasksData p >? availableTotal workersData p)
          (attributedPhases tasksData))).
Proof.
  intros Hw Ht. unfold validatePhaseSlotSaturation.
  eapply appends_bind_pure.
  { apply (appends_foldM _
             (fun m worker =>
                fold_left (addTo (MaxLoadPerPhase worker)) (slotsOf worker) m)).
    intros m worker Hin. destruct (Hw worker Hin) as [slots Hs].
    unfold slotsOf. rewrite Hs. simpl.
    eapply appends_bind_pure; [apply appends_deref | apply appends_ret]. }
  eapply appends_bind_pure.
  { apply (appends_foldM _
             (fun m task =>
                fold_left (addTo (Duration task)) (attributedTo task) m)).
    intros m task Hin. destruct (Ht task Hin) as [preferred Hp].
    rewrite Hp. eapply appends_bind_pure; [apply appends_deref|].
    rewrite (attributedTo_preferred task) by done. apply appends_ret. }
  fold (phaseSlotsOf workersData). fold (phaseRequirementsOf tasksData).
  assert (Hkeys : map fst (phaseRequirementsOf tasksData)
                  = attributedPhases tasksData).
  { unfold phaseRequirementsOf. by rewrite keys_totals. }
  rewrite <- flat_map_when, <- Hkeys. unfold requiredTotal, availableTotal.
  rewrite <- (flat_map_entries
    (fun p r => if r >? Js.getOr0 (phaseSlotsOf workersData) p
                then [phaseSaturation p r
                        (Js.getOr0 (phaseSlotsOf workersData) p)]
                else [])
    (phaseRequirementsOf tasksData) (phaseRequirementsOf tasksData));
    [|rewrite Hkeys; apply newSet_NoDup | done].
  apply appends_forEach. intros [p r] _. simpl.
  apply appends_when. intros _. apply appends_push.
Qed.

Lemma availableTotal_exact workersData p :
  loadVolume workersData p <= exactUpTo ->
  availableTotal workersData p = available workersData p.
Proof.
  intros Hb. unfold availableTotal, phaseSlotsOf, available.
  rewrite getOr0_totals; [done|]. unfold loadVolume in Hb.
  change (Js.getOr0 [] p) with 0. lia.
Qed.

Lemma requiredTotal_exact tasksData p :
  durationVolume tasksData p <= exactUpTo ->
  requiredTotal tasksData p = required tasksData p.
Proof.
  intros Hb. unfold requiredTotal, phaseRequirementsOf, required.
  rewrite getOr0_totals; [done|]. unfold durationVolume in Hb.
  change (Js.getOr0 [] p) with 0. lia.
Qed.

(** Within the exact range the totals are the plain sums. *)
Lemma validatePhaseSlotSaturation_appends workersData tasksData :
  (forall worker, worker ∈ workersData -> is_Some (AvailableSlots worker)) ->
  (forall task, task ∈ tasksData -> is_Some (PreferredPhases task)) ->
  (forall p, loadVolume workersData p <= exactUpTo) ->
  (forall p, durationVolume tasksData p <= exactUpTo) ->
  appends (validatePhaseSlotSaturation workersData tasksData) tt
    (map (fun p =>
            phaseSaturation p (required tasksData p) (available workersData p))
       (List.filter
          (fun p => required tasksData p >? available workersData p)
          (attributedPhases tasksData))).
Proof.
  intros Hw Ht Hl Hd.
  rewrite (map_ext _
             (fun p => phaseSaturation p (requiredTotal tasksData p)
                         (availableTotal workersData p)))
    by (intros p; by rewrite availableTotal_exact, requiredTotal_exact).
  rewrite (List.filter_ext _
             (fun p => requiredTotal tasksData p
                       >? availableTotal workersData p))
    by (intros p; by rewrite availableTotal_exact, requiredTotal_exact).
  by apply validatePhaseSlotSaturation_totals.
Qed.

Lemma countIn_le_len p l : countIn p l <= Js.len l.
Proof.
  unfold countIn, Js.len. pose proof (List.filter_length_le (Z.eqb p) l). lia.
Qed.

Lemma sumZ_map_le {A} (f g : A -> Z) (xs : list A) :
  (forall x, f x <= g x) -> sumZ (map f xs) <= sumZ (map g xs).
Proof.
  intros H. unfold sumZ. induction xs as [|x xs IH]; simpl; [done|].
  pose proof (H x). lia.
Qed.

(** The volumes are bounded, in every phase, by what the records hold
    altogether. *)
Lemma loadVolume_le workersData p :
  loadVolume workersData p
  <= sumZ (map (fun worker =>
                  Z.abs (MaxLoadPerPhase worker) * Js.len (slotsOf worker))
             workersData).
Proof.
  apply sumZ_map_le. intros worker.
  pose proof (countIn_le_len p (slotsOf worker)). nia.
Qed.

Lemma durationVolume_le tasksData p :
  durationVolume tasksData p
  <= sumZ (map (fun task =>
                  Z.abs (Duration task) * Js.len (attributedTo task))
             tasksData).
Proof.
  apply sumZ_map_le. intros task.
  pose proof (countIn_le_len p (attributedTo task)). nia.
Qed.

(** C4, as the code has it.  For workers that carry their slots and tasks
    that carry their preferred phases, the saturation check returns.  It
    goes through the phases some task is attributed to, each once and in
    order of first mention, and appends one warning, reporting both totals,
    for each such phase whose required total exceeds its available total;
    the totals count a worker or a task once per occurrence of the phase in
    its list.  So a warning for [p] is appended, once, exactly when some
    task is attributed to [p] and required(p) > available(p).  The totals
    are sums of numbers, which are exact while the magnitudes of what is
    added to a phase sum up to 2^53 at most; this is assumed of the loads
    and of the durations.  Two workers of load 2 in phase 1 against one
    task of duration 5 there: one warning, required 5, available 4. *)
Theorem validatePhaseSlotSaturation_one_warning_per_saturated_phase
    (workersData : list WorkerData) (tasksData : list TaskData) :
  ((forall worker, worker ∈ workersData -> is_Some (AvailableSlots worker)) ->
   (forall task, task ∈ tasksData -> is_Some (PreferredPhases task)) ->
   (forall p, loadVolume workersData p <= 2 ^ 53) ->
   (forall p, durationVolume tasksData p <= 2 ^ 53) ->
   exists phases : list Z,
     appends (validatePhaseSlotSaturation workersData tasksData) tt
       (map (fun p => phaseSaturation p (required tasksData p)
                        (available workersData p)) phases)
     /\ NoDup phases
     /\ (forall p, p ∈ phases <->
           (exists task, task ∈ tasksData /\ p ∈ attributedTo task)
           /\ required tasksData p > available workersData p))
  /\ appends (validatePhaseSlotSaturation twoWorkersPhase1 [taskOfFive]) tt
       [phaseSaturation 1 5 4]
  /\ ValidationError.message (phaseSaturation 1 5 4)
     = "Phase 1 is oversaturated: requires 5 slots but only 4 available".
Proof.
  split_and!.
  - intros Hw Ht Hl Hd.
    exists (List.filter
              (fun p => required tasksData p >? available workersData p)
              (attributedPhases tasksData)).
    split_and!.
    + by apply validatePhaseSlotSaturation_appends.
    + apply NoDup_ListNoDup, List.NoDup_filter, NoDup_ListNoDup.
      apply newSet_NoDup.
    + intros p. rewrite list_elem_of_In, filter_In, <- list_elem_of_In.
      unfold attributedPhases. rewrite newSet_spec, list_elem_of_In.
      rewrite in_flat_map. setoid_rewrite <- list_elem_of_In.
      rewrite Z.gtb_gt. done.
  - pose proof (validatePhaseSlotSaturation_appends twoWorkersPhase1
                  [taskOfFive]) as H.
    replace [phaseSaturation 1 5 4]
      with (map (fun p => phaseSaturation p (required [taskOfFive] p)
                            (available twoWorkersPhase1 p))
              (List.filter
                 (fun p => required [taskOfFive] p
                           >? available twoWorkersPhase1 p)
                 (attributedPhases [taskOfFive])))
      by (by vm_compute).
    apply H.
    + intros w Hin. repeat (apply elem_of_cons in Hin as [-> | Hin];
        [by eexists|]). by apply elem_of_nil in Hin.
    + intros t ->%list_elem_of_singleton. by eexists.
    + intros p. etransitivity; [apply loadVolume_le|]. by vm_compute.
    + intros p. etransitivity; [apply durationVolume_le|]. by vm_compute.
  - by vm_compute.
Qed.

(** The theorem at the two workers of phase 1 and the task of duration
    5. *)
Lemma validatePhaseSlotSaturation_one_warning_per_saturated_phase_witness :
  (forall worker, worker ∈ twoWorkersPhase1 ->
     is_Some (AvailableSlots worker))
  /\ (forall task, task ∈ [taskOfFive] -> is_Some (PreferredPhases task))
  /\ (forall p, loadVolume twoWorkersPhase1 p <= 2 ^ 53)
  /\ (forall p, durationVolume [taskOfFive] p <= 2 ^ 53)
  /\ exists phases : list Z,
       appends (validatePhaseSlotSaturation twoWorkersPhase1 [taskOfFive]) tt
         (map (fun p => phaseSaturation p (required [taskOfFive] p)
                          (available twoWorkersPhase1 p)) phases)
       /\ NoDup phases
       /\ (forall p, p ∈ phases <->
             (exists task, task ∈ [taskOfFive] /\ p ∈ attributedTo task)
             /\ required [taskOfFive] p > available twoWorkersPhase1 p).
Proof.
  assert (Hw : forall worker, worker ∈ twoWorkersPhase1 ->
                 is_Some (AvailableSlots worker)).
  { intros w Hin. repeat (apply elem_of_cons in Hin as [-> | Hin];
      [by eexists|]). by apply elem_of_nil in Hin. }
  assert (Ht : forall task, task ∈ [taskOfFive] ->
                 is_Some (PreferredPhases task)).
  { intros t ->%list_elem_of_singleton. by eexists. }
  assert (Hl : forall p, loadVolume twoWorkersPhase1 p <= 2 ^ 53).
  { intros p. etransitivity; [apply loadVolume_le|]. by vm_compute. }
  assert (Hd : forall p, durationVolume [taskOfFive] p <= 2 ^ 53).
  { intros p. etransitivity; [apply durationVolume_le|]. by vm_compute. }
  split_and!; [done..|].
  exact (proj1 (validatePhaseSlotSaturation_one_warning_per_saturated_phase
                  twoWorkersPhase1 [taskOfFive]) Hw Ht Hl Hd).
Defined.

(** C4, as the specification words it, fails: the worker below lists phase
    1 twice, so the engine counts its load twice.  Counted once, phase 1
    offers 2 and the task requires 3, yet no warning is appended. *)
Lemma validatePhaseSlotSaturation_counts_repeated_slots :
  requiredOnce [taskOfThree] 1 > availableOnce [workerListingTwice] 1
  /\ validatePhaseSlotSaturation [workerListingTwice] [taskOfThree] []
     = Returned (tt, []).
Proof. split; by vm_compute. Qed.

(** ** Cycle detection: termination *)

Section HasCycle.

Variable coRunRules : list BusinessRule.t.
Variable rule : BusinessRule.t.

Lemma unvisited_mono st st' :
  visited st ⊆ visited st' ->
  (length (unvisited coRunRules st') <= length (unvisited coRunRules st))%nat.
Proof.
  intros Hsub. unfold unvisited.
  induction (flat_map tasksOf coRunRules) as [|t U IH]; simpl; [done|].
  repeat case_bool_decide; simpl; try lia. set_solver.
Qed.

Lemma unvisited_less st st' t :
  t ∈ flat_map tasksOf coRunRules -> t ∉ visited st ->
  {[t]} ∪ visited st ⊆ visited st' ->
  (length (unvisited coRunRules st') < length (unvisited coRunRules st))%nat.
Proof.
  intros Hin Hnew Hsub. unfold unvisited.
  induction (flat_map tasksOf coRunRules) as [|u U IH]; simpl.
  - by apply elem_of_nil in Hin.
  - assert (Hle : (length (List.filter
                             (fun t => bool_decide (t ∉ visited st')) U)
                   <= length (List.filter
                                (fun t => bool_decide (t ∉ visited st)) U))%nat).
    { clear IH Hin. induction U as [|v U IHU]; simpl; [done|].
      repeat case_bool_decide; simpl; try lia. set_solver. }
    apply elem_of_cons in Hin as [<- | Hin].
    + rewrite (bool_decide_eq_true_2 (t ∉ visited st)) by done.
      rewrite (bool_decide_eq_false_2 (t ∉ visited st')) by set_solver.
      simpl. lia.
    + specialize (IH Hin). repeat case_bool_decide; simpl; try lia.
      set_solver.
Qed.

Lemma related_in_universe taskId :
  List.filter (isRelated rule taskId) coRunRules <> [] ->
  taskId ∈ flat_map tasksOf coRunRules.
Proof.
  intros Hne. destruct (List.filter _ _) as [|r rs] eqn:E; [done|].
  assert (In r (List.filter (isRelated rule taskId) coRunRules)) as Hr
    by (rewrite E; by left).
  apply filter_In in Hr as [Hr Hrel]. apply list_elem_of_In, in_flat_map.
  exists r. split; [done|]. unfold isRelated in Hrel.
  apply andb_true_iff in Hrel as [_ Hrel]. unfold tasksOf.
  destruct (param_tasks _); [|done]. simpl.
  by apply list_elem_of_In, includes_elem_of.
Qed.

Lemma relatedTasksLoop_returns call bound taskId relatedTasks st :
  returnsGrowing coRunRules call bound ->
  (length (unvisited coRunRules st) < bound)%nat ->
  exists b st',
    relatedTasksLoop call taskId relatedTasks st = Some (b, st')
    /\ visited st ⊆ visited st'.
Proof.
  intros Hcall. revert st.
  induction relatedTasks as [|relatedTask rest IH]; intros st Hst; simpl.
  - by exists false, st.
  - destruct (String.eqb relatedTask taskId); [by apply IH|].
    destruct (Hcall relatedTask st Hst) as (b & st1 & -> & Hsub).
    destruct b; [by exists true, st1|].
    destruct (IH st1) as (b & st2 & -> & Hsub2).
    { pose proof (unvisited_mono st st1 Hsub). lia. }
    exists b, st2. split; [done | set_solver].
Qed.

Lemma relatedRulesLoop_returns call bound taskId relatedRules st :
  returnsGrowing coRunRules call bound ->
  (length (unvisited coRunRules st) < bound)%nat ->
  exists b st',
    relatedRulesLoop call taskId relatedRules st = Some (b, st')
    /\ visited st ⊆ visited st'.
Proof.
  intros Hcall. revert st.
  induction relatedRules as [|relatedRule rest IH]; intros st Hst; simpl.
  - by exists false, st.
  - destruct (relatedTasksLoop_returns call bound taskId
                (tasksOf relatedRule) st Hcall Hst) as (b & st1 & -> & Hsub).
    destruct b; [by exists true, st1|].
    destruct (IH st1) as (b & st2 & -> & Hsub2).
    { pose proof (unvisited_mono st st1 Hsub). lia. }
    exists b, st2. split; [done | set_solver].
Qed.

Lemma hasCycle_returns fuel :
  returnsGrowing coRunRules (hasCycle coRunRules rule fuel) fuel.
Proof.
  induction fuel as [|fuel IH]; intros taskId st Hst; [lia|].
  cbn [hasCycle].
  case_bool_decide as Hstack; [by exists true, st|].
  case_bool_decide as Hvisited; [by exists false, st|].
  set (st1 := {| visited := {[taskId]} ∪ visited st;
                 recursionStack := {[taskId]} ∪ recursionStack st |}).
  destruct (List.filter (isRelated rule taskId) coRunRules) as [|r rs] eqn:E.
  - simpl. eexists _, _. split; [done|]. simpl. set_solver.
  - assert (Hin : taskId ∈ flat_map tasksOf coRunRules).
    { apply related_in_universe. by rewrite E. }
    assert (Hst1 : (length (unvisited coRunRules st1) < fuel)%nat).
    { pose proof (unvisited_less st st1 taskId Hin Hvisited) as Hlt.
      specialize (Hlt ltac:(done)). lia. }
    destruct (relatedRulesLoop_returns _ fuel taskId (r :: rs) st1 IH Hst1)
      as (b & st2 & -> & Hsub).
    destruct b; eexists _, _; (split; [done|]); simpl in *; set_solver.
Qed.

Lemma unvisited_below_cycleFuel st :
  (length (unvisited coRunRules st) < cycleFuel coRunRules)%nat.
Proof.
  unfold unvisited, cycleFuel.
  pose proof (List.filter_length_le
                (fun t => bool_decide (t ∉ visited st))
                (flat_map tasksOf coRunRules)).
  lia.
Qed.

(** More fuel does not change a result. *)
Lemma relatedTasksLoop_more call call' taskId relatedTasks st result :
  (forall t st r, call t st = Some r -> call' t st = Some r) ->
  relatedTasksLoop call taskId relatedTasks st = Some result ->
  relatedTasksLoop call' taskId relatedTasks st = Some result.
Proof.
  intros Hcall. revert st.
  induction relatedTasks as [|relatedTask rest IH]; intros st; simpl; [done|].
  destruct (String.eqb relatedTask taskId); [by apply IH|].
  destruct (call relatedTask st) as [[[] st1]|] eqn:E; [| |done];
    rewrite (Hcall _ _ _ E); [done | by apply IH].
Qed.

Lemma relatedRulesLoop_more call call' taskId relatedRules st result :
  (forall t st r, call t st = Some r -> call' t st = Some r) ->
  relatedRulesLoop call taskId relatedRules st = Some result ->
  relatedRulesLoop call' taskId relatedRules st = Some result.
Proof.
  intros Hcall. revert st.
  induction relatedRules as [|relatedRule rest IH]; intros st; simpl; [done|].
  destruct (relatedTasksLoop call taskId (tasksOf relatedRule) st)
    as [[[] st1]|] eqn:E; [| |done];
    rewrite (relatedTasksLoop_more _ _ _ _ _ _ Hcall E); [done | by apply IH].
Qed.

Lemma hasCycle_more_fuel fuel fuel' taskId st result :
  (fuel <= fuel')%nat ->
  hasCycle coRunRules rule fuel taskId st = Some result ->
  hasCycle coRunRules rule fuel' taskId st = Some result.
Proof.
  revert fuel' taskId st result.
  induction fuel as [|fuel IH]; intros fuel' taskId st result Hle; [done|].
  destruct fuel' as [|fuel']; [lia|]. cbn [hasCycle].
  case_bool_decide; [done|]. case_bool_decide; [done|].
  destruct (relatedRulesLoop (hasCycle coRunRules rule fuel) _ _ _)
    as [[b st1]|] eqn:E; [|done].
  rewrite (relatedRulesLoop_more _ (hasCycle coRunRules rule fuel') _ _ _ _
             ltac:(intros; apply IH; [lia | done]) E).
  done.
Qed.

End HasCycle.

(** ** Cycle detection: findings *)

Lemma scanTasks_appends coRunRules rule taskIds st :
  exists out,
    appends (scanTasks coRunRules rule (cycleFuel coRunRules) taskIds st)
      tt out
    /\ (out = [] \/ exists taskId, taskId ∈ taskIds
                                   /\ out = [circularCoRun rule taskId]).
Proof.
  revert st. induction taskIds as [|taskId rest IH]; intros st;
    cbn [scanTasks].
  - exists []. split; [apply appends_ret | by left].
  - destruct (hasCycle_returns coRunRules rule (cycleFuel coRunRules)
                taskId st (unvisited_below_cycleFuel coRunRules st))
      as (b & st1 & -> & _).
    destruct b.
    + exists [circularCoRun rule taskId]. split; [apply appends_push|].
      right. exists taskId. split; [left | done].
    + destruct (IH st1) as (out & Hout & Hshape). exists out.
      split; [done|]. destruct Hshape as [-> | (t & Ht & ->)]; [by left|].
      right. exists t. split; [by right | done].
Qed.

Lemma appends_forEach_each {A} (xs : list A) body
    (P : A -> list ValidationError.t -> Prop) :
  (forall x, x ∈ xs -> exists out, appends (body x) tt out /\ P x out) ->
  exists outs,
    appends (forEach xs body) tt (concat outs) /\ Forall2 P xs outs.
Proof.
  induction xs as [|x xs IH]; intros H; simpl.
  - exists []. split; [apply appends_ret | constructor].
  - destruct (H x) as (out & Hout & HP); [left|].
    destruct IH as (outs & Houts & HPs).
    { intros y Hy. apply H. by right. }
    exists (out :: outs). split; [|by constructor].
    simpl. by eapply appends_bind.
Qed.

Lemma validateCircularCoRuns_appends businessRules :
  exists outs,
    appends (validateCircularCoRuns businessRules) tt (concat outs)
    /\ Forall2 atMostOneCycleFinding (List.filter isCoRun businessRules) outs.
Proof.
  unfold validateCircularCoRuns. apply appends_forEach_each.
  intros rule _. apply scanTasks_appends.
Qed.

Lemma not_related_when_unshared coRunRules rule taskId :
  noSharedTask coRunRules -> rule ∈ coRunRules -> taskId ∈ tasksOf rule ->
  List.filter (isRelated rule taskId) coRunRules = [].
Proof.
  intros Hno Hrule Ht.
  destruct (List.filter _ _) as [|r rs] eqn:E; [done|]. exfalso.
  assert (In r (List.filter (isRelated rule taskId) coRunRules)) as Hr
    by (rewrite E; by left).
  apply filter_In in Hr as [Hr Hrel]. unfold isRelated in Hrel.
  apply andb_true_iff in Hrel as [Hid Hrel].
  apply negb_true_iff, String.eqb_neq in Hid.
  apply (Hno rule r taskId); [done | by apply list_elem_of_In | done.. |].
  unfold tasksOf. destruct (param_tasks _); [|done]. simpl.
  by apply includes_elem_of.
Qed.

Lemma hasCycle_unshared coRunRules rule fuel taskId st :
  noSharedTask coRunRules -> rule ∈ coRunRules -> taskId ∈ tasksOf rule ->
  recursionStack st = ∅ ->
  exists st', hasCycle coRunRules rule (S fuel) taskId st = Some (false, st')
              /\ recursionStack st' = ∅.
Proof.
  intros Hno Hrule Ht Hstack. cbn [hasCycle].
  rewrite bool_decide_eq_false_2 by (rewrite Hstack; set_solver).
  case_bool_decide; [by exists st|].
  rewrite not_related_when_unshared by done. simpl.
  eexists. split; [done|]. simpl. rewrite Hstack. set_solver.
Qed.

Lemma scanTasks_unshared coRunRules rule fuel taskIds st :
  noSharedTask coRunRules -> rule ∈ coRunRules ->
  (forall t, t ∈ taskIds -> t ∈ tasksOf rule) ->
  recursionStack st = ∅ ->
  appends (scanTasks coRunRules rule (S fuel) taskIds st) tt [].
Proof.
  intros Hno Hrule. revert st.
  induction taskIds as [|taskId rest IH]; intros st Hsub Hstack.
  - apply appends_ret.
  - cbn [scanTasks].
    destruct (hasCycle_unshared coRunRules rule fuel taskId st)
      as (st' & -> & Hstack'); [done.. | apply Hsub; left | done |].
    apply IH; [|done]. intros t Hin. apply Hsub. by right.
Qed.

Lemma flat_map_nil {A B} (xs : list A) :
  flat_map (fun _ : A => @nil B) xs = [].
Proof. by induction xs. Qed.

Lemma validateCircularCoRuns_unshared businessRules :
  noSharedTask (List.filter isCoRun businessRules) ->
  appends (validateCircularCoRuns businessRules) tt [].
Proof.
  intros Hno. unfold validateCircularCoRuns.
  rewrite <- (flat_map_nil (List.filter isCoRun businessRules)).
  apply appends_forEach. intros rule Hrule.
  by apply scanTasks_unshared.
Qed.

(** ** Co-run rules against phase windows *)

Lemma mapSet_mapSet `{EqDecision K} {V} (m : list (K * V)) k v v' :
  Js.mapSet (Js.mapSet m k v) k v' = Js.mapSet m k v'.
Proof.
  induction m as [|[k0 v0] m IH]; simpl.
  - by rewrite bool_decide_eq_true_2.
  - destruct (decide (k0 = k)) as [->|E0].
    + rewrite !bool_decide_eq_true_2 by done. simpl.
      by rewrite bool_decide_eq_true_2.
    + rewrite !(bool_decide_eq_false_2 (k0 = k)) by done. simpl.
      rewrite (bool_decide_eq_false_2 (k0 = k)) by done. by rewrite IH.
Qed.

Lemma recordWindow_stored phaseWindowRules tasksData m taskId :
  recordWindow phaseWindowRules tasksData m taskId
  = match storedWindow phaseWindowRules tasksData taskId with
    | Some v => Js.mapSet m taskId v
    | None => m
    end.
Proof.
  unfold recordWindow, storedWindow, windowRuleFor, taskRecord.
  destruct (Js.find _ phaseWindowRules) as [phaseRule|];
    destruct (Js.find _ tasksData) as [task|]; try done.
  by rewrite mapSet_mapSet.
Qed.

(** The entries of [taskPhaseWindows]. *)
Lemma windows_get phaseWindowRules tasksData taskIds m t :
  Js.mapGet (fold_left (recordWindow phaseWindowRules tasksData) taskIds m) t
  = if bool_decide (t ∈ taskIds)
    then match storedWindow phaseWindowRules tasksData t with
         | Some v => Some v
         | None => Js.mapGet m t
         end
    else Js.mapGet m t.
Proof.
  revert m. induction taskIds as [|u rest IH]; intros m; simpl.
  { done. }
  rewrite IH, recordWindow_stored.
  destruct (decide (u = t)) as [->|Hne].
  - rewrite (bool_decide_eq_true_2 (t ∈ t :: rest)) by left.
    destruct (storedWindow _ _ t) as [v|] eqn:E.
    + rewrite mapGet_mapSet, (bool_decide_eq_true_2 (t = t)) by done.
      by case_bool_decide.
    + by case_bool_decide.
  - assert (Hget : Js.mapGet
                     match storedWindow phaseWindowRules tasksData u with
                     | Some v => Js.mapSet m u v
                     | None => m
                     end t = Js.mapGet m t).
    { destruct (storedWindow _ _ u); [|done].
      by rewrite mapGet_mapSet, (bool_decide_eq_false_2 (u = t)). }
    rewrite Hget. repeat case_bool_decide; try done; set_solver.
Qed.

Lemma windows_keys phaseWindowRules tasksData taskIds m :
  map fst (fold_left (recordWindow phaseWindowRules tasksData) taskIds m)
  = fold_left Js.setAdd
      (List.filter
         (fun t => bool_decide
                     (is_Some (storedWindow phaseWindowRules tasksData t)))
         taskIds)
      (map fst m).
Proof.
  revert m. induction taskIds as [|u rest IH]; intros m; simpl; [done|].
  rewrite IH, recordWindow_stored.
  destruct (storedWindow _ _ u) as [v|] eqn:E.
  - rewrite bool_decide_eq_true_2 by done. simpl. by rewrite mapSet_keys.
  - rewrite bool_decide_eq_false_2; [done|]. by intros [? ?].
Qed.

Lemma intersect_fold p rest first :
  p ∈ fold_left intersect rest first
  <-> p ∈ first /\ forall w, w ∈ rest -> p ∈ w.
Proof.
  revert first. induction rest as [|w rest IH]; intros first; simpl.
  - split; [|tauto]. intros H. split; [done|]. by intros w ?%elem_of_nil.
  - rewrite IH. unfold intersect at 1.
    rewrite list_elem_of_In, filter_In, <- list_elem_of_In, includes_elem_of.
    split.
    + intros [[H1 H2] H3]. split; [done|].
      intros w' [->|Hin]%elem_of_cons; [done | by apply H3].
    + intros [H1 H2]. split_and!; [done | apply H2; left|].
      intros w' Hin. apply H2. by right.
Qed.

Lemma appends_commonWith (common phases : list Z) :
  appends (commonWith (Some common) (Some phases))
    (Some (intersect common phases)) [].
Proof.
  unfold commonWith.
  eapply appends_bind_pure; [apply appends_deref|].
  eapply appends_bind_pure; [|apply appends_ret].
  apply appends_filterM. intros phase _.
  eapply appends_bind_pure; [apply appends_deref | apply appends_ret].
Qed.

Lemma appends_foldCommon (rest : list (list Z)) (first : list Z) :
  appends (foldM commonWith (map Some rest) (Some first))
    (Some (fold_left intersect rest first)) [].
Proof.
  revert first. induction rest as [|w rest IH]; intros first; simpl.
  - apply appends_ret.
  - eapply appends_bind_pure; [apply appends_commonWith | apply IH].
Qed.

Lemma map_entries `{EqDecision K} {V} (m : list (K * V)) (f : K -> V) :
  NoDup (map fst m) ->
  (forall k, k ∈ map fst m -> Js.mapGet m k = Some (f k)) ->
  m = map (fun k => (k, f k)) (map fst m).
Proof.
  induction m as [|[k0 v0] m IH]; simpl; intros Hnd Hget; [done|].
  apply NoDup_cons in Hnd as [Hk0 Hnd].
  pose proof (Hget k0 ltac:(left)) as H0.
  rewrite bool_decide_eq_true_2 in H0 by done. injection H0 as ->.
  f_equal. apply IH; [done|]. intros k Hk.
  specialize (Hget k ltac:(by right)).
  rewrite bool_decide_eq_false_2 in Hget; [done|]. by intros ->.
Qed.

Section PhaseWindows.

Variable phaseWindowRules : list BusinessRule.t.
Variable tasksData : list TaskData.
Variable coRunRule : BusinessRule.t.
Hypothesis fallbacks : fallbacksNonEmpty phaseWindowRules tasksData coRunRule.

Lemma stored_resolved t :
  t ∈ tasksOf coRunRule ->
  storedWindow phaseWindowRules tasksData t
  = Some <$> resolvedWindow phaseWindowRules tasksData t.
Proof.
  intros Ht. unfold storedWindow, resolvedWindow.
  destruct (windowRuleFor _ t) eqn:Er; [done|].
  destruct (taskRecord _ t) as [task|] eqn:Et; [|done].
  destruct (fallbacks t task Ht Er Et) as (w & Hw & _).
  unfold preferredOf. by rewrite Hw.
Qed.

Lemma restricted_spec t :
  t ∈ restrictedMembers phaseWindowRules tasksData coRunRule
  <-> t ∈ tasksOf coRunRule
      /\ is_Some (resolvedWindow phaseWindowRules tasksData t).
Proof.
  unfold restrictedMembers.
  rewrite newSet_spec, list_elem_of_In, filter_In, <- list_elem_of_In.
  rewrite bool_decide_eq_true. split; intros [Ht Hs]; (split; [done|]).
  - rewrite stored_resolved in Hs by done.
    destruct (resolvedWindow _ _ t); [by eexists | by destruct Hs].
  - rewrite stored_resolved by done. destruct Hs as [w ->]. by eexists.
Qed.

Lemma windows_entries :
  fold_left (recordWindow phaseWindowRules tasksData) (tasksOf coRunRule) []
  = map (fun t => (t, Some (windowOf phaseWindowRules tasksData t)))
      (restrictedMembers phaseWindowRules tasksData coRunRule).
Proof.
  set (m := fold_left _ _ _).
  assert (Hkeys : map fst m
                  = restrictedMembers phaseWindowRules tasksData coRunRule).
  { subst m. by rewrite windows_keys. }
  rewrite <- Hkeys. apply map_entries.
  - rewrite Hkeys. apply newSet_NoDup.
  - intros t Ht. rewrite Hkeys in Ht. apply restricted_spec in Ht as [Ht Hs].
    subst m. rewrite windows_get, bool_decide_eq_true_2 by done.
    rewrite stored_resolved by done. unfold windowOf.
    by destruct Hs as [w ->].
Qed.

Lemma two_restricted_length :
  (1 < length (restrictedMembers phaseWindowRules tasksData coRunRule))%nat
  <-> twoRestricted phaseWindowRules tasksData coRunRule.
Proof.
  pose proof (newSet_NoDup
    (List.filter
       (fun t => bool_decide
                   (is_Some (storedWindow phaseWindowRules tasksData t)))
       (tasksOf coRunRule))) as Hnd.
  fold (restrictedMembers phaseWindowRules tasksData coRunRule) in Hnd.
  unfold twoRestricted. split.
  - destruct (restrictedMembers _ _ _) as [|t1 [|t2 l]] eqn:E;
      simpl; try lia. intros _.
    assert (H1 : t1 ∈ restrictedMembers phaseWindowRules tasksData coRunRule)
      by (rewrite E; left).
    assert (H2 : t2 ∈ restrictedMembers phaseWindowRules tasksData coRunRule)
      by (rewrite E; right; left).
    apply restricted_spec in H1 as [? ?]. apply restricted_spec in H2 as [? ?].
    exists t1, t2. split_and!; try done.
    apply NoDup_cons in Hnd as [Hn _]. intros ->. apply Hn. left.
  - intros (t1 & t2 & Hne & H1 & H2 & Hs1 & Hs2).
    assert (Hin1 : t1 ∈ restrictedMembers phaseWindowRules tasksData coRunRule)
      by (by apply restricted_spec).
    assert (Hin2 : t2 ∈ restrictedMembers phaseWindowRules tasksData coRunRule)
      by (by apply restricted_spec).
    destruct (restrictedMembers _ _ _) as [|u1 [|u2 l]]; simpl; try lia.
    + by apply elem_of_nil in Hin1.
    + apply list_elem_of_singleton in Hin1, Hin2. congruence.
Qed.

Lemma no_common_phase_fold first rest :
  restrictedMembers phaseWindowRules tasksData coRunRule = first :: rest ->
  fold_left intersect (map (windowOf phaseWindowRules tasksData) rest)
    (windowOf phaseWindowRules tasksData first) = []
  <-> noCommonPhase phaseWindowRules tasksData coRunRule.
Proof.
  intros E.
  assert (Hmem : forall t,
            t ∈ first :: rest
            <-> t ∈ tasksOf coRunRule
                /\ is_Some (resolvedWindow phaseWindowRules tasksData t)).
  { intros t. rewrite <- E. apply restricted_spec. }
  split.
  - intros Hnil p.
    destruct (decide (p ∈ windowOf phaseWindowRules tasksData first))
      as [Hp|Hp].
    + destruct (decide (Forall (fun t =>
                  p ∈ windowOf phaseWindowRules tasksData t) rest))
        as [Hall|Hsome].
      * exfalso. assert (p ∈ @nil Z) as Hin; [|by apply elem_of_nil in Hin].
        rewrite <- Hnil. apply intersect_fold. split; [done|].
        intros w (t & -> & Ht)%list_elem_of_fmap.
        rewrite Forall_forall in Hall. by apply Hall.
      * apply not_Forall_Exists in Hsome; [|intros t; apply _].
        apply Exists_exists in Hsome as (t & Ht & Hnot).
        destruct (proj1 (Hmem t) ltac:(by right)) as [Hin [w Hw]].
        exists t, w. split_and!; [done..|].
        intros Hpw. apply Hnot. unfold windowOf. by rewrite Hw.
    + destruct (proj1 (Hmem first) ltac:(left)) as [Hin [w Hw]].
      exists first, w. split_and!; [done..|].
      intros Hpw. apply Hp. unfold windowOf. by rewrite Hw.
  - intros Hno.
    destruct (fold_left intersect _ _) as [|p l] eqn:Ef; [done|]. exfalso.
    assert (Hp : p ∈ fold_left intersect
                   (map (windowOf phaseWindowRules tasksData) rest)
                   (windowOf phaseWindowRules tasksData first))
      by (rewrite Ef; left).
    apply intersect_fold in Hp as [Hfirst Hrest].
    destruct (Hno p) as (t & w & Ht & Hw & Hnot).
    assert (Hin : t ∈ first :: rest) by (apply Hmem; split; [done | by eexists]).
    apply Hnot. apply elem_of_cons in Hin as [-> | Hin].
    + unfold windowOf in Hfirst. by rewrite Hw in Hfirst.
    + assert (Hwin : windowOf phaseWindowRules tasksData t = w)
        by (unfold windowOf; by rewrite Hw).
      rewrite <- Hwin. apply Hrest. apply list_elem_of_fmap. by exists t.
Qed.

Lemma checkCoRunRule_appends :
  exists out,
    appends (checkCoRunRule phaseWindowRules tasksData coRunRule) tt out
    /\ conflictFindingIff phaseWindowRules tasksData coRunRule out.
Proof.
  unfold checkCoRunRule, conflictFindingIff. rewrite windows_entries.
  unfold Js.mapValues. rewrite map_map. simpl.
  pose proof two_restricted_length as Htwo.
  destruct (restrictedMembers _ _ _) as [|first rest] eqn:E.
  { exists []. split; [apply appends_ret|]. split; [by left|].
    split; [done|]. intros [H2 _]. apply Htwo in H2. simpl in H2. lia. }
  pose proof (no_common_phase_fold first rest E) as Hno.
  destruct rest as [|second rest].
  { exists []. split; [apply appends_ret|]. split; [by left|].
    split; [done|]. intros [H2 _]. apply Htwo in H2. simpl in H2. lia. }
  set (common := fold_left intersect
                   (map (windowOf phaseWindowRules tasksData) (second :: rest))
                   (windowOf phaseWindowRules tasksData first)) in *.
  exists (if Js.len common =? 0
          then [conflictingPhases coRunRule (tasksOf coRunRule)] else []).
  split.
  - assert (Hlen : (Js.len (map (fun t =>
                       Some (windowOf phaseWindowRules tasksData t))
                       (first :: second :: rest)) >? 1) = true).
    { unfold Js.len. simpl. apply Z.gtb_gt. lia. }
    rewrite Hlen. cbn [when map reduceCommon].
    eapply appends_bind_pure.
    { rewrite <- (map_map (windowOf phaseWindowRules tasksData) Some).
      apply (appends_foldCommon
               (map (windowOf phaseWindowRules tasksData) (second :: rest))). }
    eapply appends_bind_pure; [apply appends_deref|]. fold common.
    apply appends_when. intros _. apply appends_push.
  - assert (Hzero : (Js.len common =? 0) = true <-> common = []).
    { unfold Js.len. rewrite Z.eqb_eq. destruct common; simpl; [done|].
      split; [lia | done]. }
    destruct (Js.len common =? 0).
    + split; [by right|]. split; [|done]. intros _.
      split; [apply Htwo; simpl; lia|]. apply Hno. by apply Hzero.
    + split; [by left|]. split; [done|]. intros [_ Hc].
      apply Hno, Hzero in Hc. done.
Qed.

End PhaseWindows.



(** A member with an empty list of preferred phases and no phase-window
    rule has an empty window recorded: below, T2 is such a member, T1
    prefers the phases 1 and 2, and the rule is reported. *)
Lemma validateRuleConflicts_empty_preference_recorded :
  validateRuleConflicts [pairT1T2]
    [sampleTask "T1" 1 ["X"] [1; 2] 1; sampleTask "T2" 1 ["X"] [] 1] []
  = Returned (tt, [conflictingPhases pairT1T2 ["T1"; "T2"]]).
Proof. by vm_compute. Qed.


(** ** Termination of the checks *)

Lemma halts_appends {A} (m : M A) a out : appends m a out -> halts m.
Proof. intros H errors. by rewrite H. Qed.

Lemma halts_ret {A} (a : A) : halts (ret a).
Proof. by intros errors. Qed.

Lemma halts_push e : halts (push e).
Proof. by intros errors. Qed.

Lemma halts_throw {A} : halts (@throw A).
Proof. by intros errors. Qed.

Lemma halts_deref {A} (o : option A) : halts (deref o).
Proof. destruct o; [apply halts_ret | apply halts_throw]. Qed.

Lemma halts_bind {A B} (m : M A) (k : A -> M B) :
  halts m -> (forall a, halts (k a)) -> halts (bind m k).
Proof.
  intros Hm Hk errors. unfold bind.
  destruct (m errors) as [[a errors']| |] eqn:E; [apply Hk | done |].
  by apply Hm in E.
Qed.

Lemma halts_when c m : halts m -> halts (when c m).
Proof. destruct c; [done | intros _; apply halts_ret]. Qed.

Lemma halts_forEach {A} (xs : list A) body :
  (forall x, halts (body x)) -> halts (forEach xs body).
Proof.
  intros H. induction xs as [|x xs IH]; simpl; [apply halts_ret|].
  apply halts_bind; [apply H | by intros _].
Qed.

Lemma halts_filterM {A} (p : A -> M bool) (xs : list A) :
  (forall x, halts (p x)) -> halts (filterM p xs).
Proof.
  intros H. induction xs as [|x xs IH]; simpl; [apply halts_ret|].
  apply halts_bind; [apply H|]. intros b.
  apply halts_bind; [apply IH|]. intros r. apply halts_ret.
Qed.

Lemma halts_everyM {A} (p : A -> M bool) (xs : list A) :
  (forall x, halts (p x)) -> halts (everyM p xs).
Proof.
  intros H. induction xs as [|x xs IH]; simpl; [apply halts_ret|].
  apply halts_bind; [apply H|]. intros []; [apply IH | apply halts_ret].
Qed.

Lemma halts_foldM {S A} (step : S -> A -> M S) (xs : list A) acc :
  (forall acc x, halts (step acc x)) -> halts (foldM step xs acc).
Proof.
  intros H. revert acc. induction xs as [|x xs IH]; intros acc; simpl.
  - apply halts_ret.
  - apply halts_bind; [apply H | apply IH].
Qed.

(** Decomposes a goal [halts m] along the combinators of [m]. *)
Ltac halts_step :=
  first
    [ apply halts_ret | apply halts_push | apply halts_throw
    | apply halts_deref
    | apply halts_when
    | apply halts_bind; [|intros ?]
    | apply halts_forEach; intros ?
    | apply halts_filterM; intros ?
    | apply halts_everyM; intros ?
    | apply halts_foldM; intros ? ?
    | match goal with
      | |- halts (match ?x with _ => _ end) => destruct x
      | |- halts (let _ := _ in _) => cbv zeta
      end ].

Ltac halts_tac := repeat halts_step.

Lemma validateRequiredFields_halts clientsData workersData tasksData :
  halts (validateRequiredFields clientsData workersData tasksData).
Proof. unfold validateRequiredFields. halts_tac. Qed.

Lemma validateDuplicateIds_halts clientsData workersData tasksData :
  halts (validateDuplicateIds clientsData workersData tasksData).
Proof. unfold validateDuplicateIds. halts_tac. Qed.

Lemma validateMalformedLists_halts clientsData workersData tasksData :
  halts (validateMalformedLists clientsData workersData tasksData).
Proof. unfold validateMalformedLists. halts_tac. Qed.

Lemma validateRangeValues_halts clientsData workersData tasksData :
  halts (validateRangeValues clientsData workersData tasksData).
Proof. unfold validateRangeValues. halts_tac. Qed.

Lemma validateJSONFields_halts JSON_parses clientsData :
  halts (validateJSONFields JSON_parses clientsData).
Proof. unfold validateJSONFields. halts_tac. Qed.

Lemma validateReferences_halts clientsData workersData tasksData :
  halts (validateReferences clientsData workersData tasksData).
Proof. unfold validateReferences. halts_tac. Qed.

Lemma validateCircularCoRuns_halts businessRules :
  halts (validateCircularCoRuns businessRules).
Proof.
  destruct (validateCircularCoRuns_appends businessRules) as (outs & H & _).
  by eapply halts_appends.
Qed.

Lemma validateRuleConflicts_halts businessRules tasksData :
  halts (validateRuleConflicts businessRules tasksData).
Proof.
  unfold validateRuleConflicts, checkCoRunRule, reduceCommon, commonWith.
  halts_tac.
Qed.

Lemma validateWorkerOverload_halts workersData :
  halts (validateWorkerOverload workersData).
Proof. unfold validateWorkerOverload. halts_tac. Qed.

Lemma validatePhaseSlotSaturation_halts workersData tasksData :
  halts (validatePhaseSlotSaturation workersData tasksData).
Proof. unfold validatePhaseSlotSaturation. halts_tac. Qed.

Lemma validateSkillCoverage_halts workersData tasksData :
  halts (validateSkillCoverage workersData tasksData).
Proof. unfold validateSkillCoverage. halts_tac. Qed.

Lemma validateMaxConcurrencyFeasibility_halts workersData tasksData :
  halts (validateMaxConcurrencyFeasibility workersData tasksData).
Proof.
  unfold validateMaxConcurrencyFeasibility, checkTaskConcurrency. halts_tac.
Qed.

Lemma runChecks_halts JSON_parses clientsData workersData tasksData
    businessRules :
  halts (runChecks JSON_parses clientsData workersData tasksData
           businessRules).
Proof.
  unfold runChecks.
  repeat match goal with
         | |- halts (bind _ _) => apply halts_bind; [|intros _]
         end;
    auto using validateRequiredFields_halts, validateDuplicateIds_halts,
      validateMalformedLists_halts, validateRangeValues_halts,
      validateJSONFields_halts, validateReferences_halts,
      validateCircularCoRuns_halts, validateRuleConflicts_halts,
      validateWorkerOverload_halts, validatePhaseSlotSaturation_halts,
      validateSkillCoverage_halts, validateMaxConcurrencyFeasibility_halts.
Qed.

(** C8.  [runValidations] terminates: on every input it returns its
    findings or throws, and never runs out of fuel.  The recursion of
    [hasCycle] is bounded on every set of co-run rules, cyclic or not, from
    any state of its two sets: with the fuel the engine is given, or more,
    it yields a result, and always the same one, because each call that
    goes on marks a task that was not visited before. *)
Theorem runValidations_terminates :
  (forall JSON_parses clientsData workersData tasksData businessRules,
     (exists errors,
        runValidations JSON_parses clientsData workersData tasksData
          businessRules = Returned errors)
     \/ runValidations JSON_parses clientsData workersData tasksData
          businessRules = Thrown)
  /\ (forall coRunRules rule taskId st,
        exists result,
          forall fuel, (cycleFuel coRunRules <= fuel)%nat ->
            hasCycle coRunRules rule fuel taskId st = Some result).
Proof.
  split.
  - intros JSON_parses clientsData workersData tasksData businessRules.
    unfold runValidations.
    pose proof (runChecks_halts JSON_parses clientsData workersData tasksData
                  businessRules []) as H.
    destruct (runChecks _ _ _ _ _ _) as [[[] errors]| |];
      [left; by exists errors | by right | done].
  - intros coRunRules rule taskId st.
    destruct (hasCycle_returns coRunRules rule (cycleFuel coRunRules)
                taskId st (unvisited_below_cycleFuel coRunRules st))
      as (b & st' & Hres & _).
    exists (b, st'). intros fuel Hle.
    by apply (hasCycle_more_fuel coRunRules rule (cycleFuel coRunRules)).
Qed.

(** The theorem at the cyclic rules, with the fuel the engine is given. *)
Lemma runValidations_terminates_witness :
  exists result,
    hasCycle cyclicRules (sampleCoRun "A" ["T1"; "T2"])
      (cycleFuel cyclicRules) "T1" {| visited := ∅; recursionStack := ∅ |}
    = Some result.
Proof.
  destruct (proj2 runValidations_terminates cyclicRules
              (sampleCoRun "A" ["T1"; "T2"]) "T1"
              {| visited := ∅; recursionStack := ∅ |}) as [result H].
  exists result. apply H. apply le_n.
Defined.

(** ** Complete records never make a check throw *)

Lemma returns_unit (m : M unit) : returns m -> exists out, appends m tt out.
Proof. intros ([] & out & H). by exists out. Qed.

Lemma returns_appends {A} (m : M A) a out : appends m a out -> returns m.
Proof. intros H. by exists a, out. Qed.

Lemma returns_ret {A} (a : A) : returns (ret a).
Proof. eapply returns_appends, appends_ret. Qed.

Lemma returns_push e : returns (push e).
Proof. eapply returns_appends, appends_push. Qed.

Lemma returns_deref {A} (o : option A) : is_Some o -> returns (deref o).
Proof. intros [a ->]. eapply returns_appends, appends_deref. Qed.

Lemma returns_bind {A B} (m : M A) (k : A -> M B) :
  returns m -> (forall a, returns (k a)) -> returns (bind m k).
Proof.
  intros (a & o1 & Hm) Hk. destruct (Hk a) as (b & o2 & Hka).
  exists b, (o1 ++ o2). by eapply appends_bind.
Qed.

Lemma returns_when c m : returns m -> returns (when c m).
Proof. destruct c; [done | intros _; apply returns_ret]. Qed.

Lemma returns_forEach {A} (xs : list A) body :
  (forall x, x ∈ xs -> returns (body x)) -> returns (forEach xs body).
Proof.
  intros H.
  destruct (appends_forEach_each xs body (fun _ _ => True)) as (outs & Ho & _).
  { intros x Hx. destruct (returns_unit _ (H x Hx)) as [out Hout].
    by exists out. }
  by eapply returns_appends.
Qed.

Lemma returns_foldM {S A} (step : S -> A -> M S) (xs : list A) acc :
  (forall acc x, x ∈ xs -> returns (step acc x)) ->
  returns (foldM step xs acc).
Proof.
  revert acc. induction xs as [|x xs IH]; intros acc H; simpl.
  - apply returns_ret.
  - apply returns_bind; [apply H; left|]. intros acc'. apply IH.
    intros acc'' y Hy. apply H. by right.
Qed.

Lemma validateRequiredFields_returns clientsData workersData tasksData :
  returns (validateRequiredFields clientsData workersData tasksData).
Proof.
  unfold validateRequiredFields.
  repeat first
    [ apply returns_forEach; intros ? _
    | apply returns_when | apply returns_push | apply returns_ret
    | apply returns_bind; [|intros _] ].
Qed.

Lemma validateMalformedLists_returns clientsData workersData tasksData :
  Forall workerComplete workersData -> Forall taskComplete tasksData ->
  returns (validateMalformedLists clientsData workersData tasksData).
Proof.
  rewrite !Forall_forall. intros Hw Ht. unfold validateMalformedLists.
  apply returns_bind; [|intros _]; apply returns_forEach; intros x Hx.
  - apply returns_bind; [apply returns_deref, (Hw x Hx)|]. intros slots.
    apply returns_when, returns_push.
  - apply returns_bind; [apply returns_deref, (Ht x Hx)|]. intros phases.
    apply returns_when, returns_push.
Qed.

Lemma validateRangeValues_returns clientsData workersData tasksData :
  Forall workerComplete workersData ->
  returns (validateRangeValues clientsData workersData tasksData).
Proof.
  rewrite !Forall_forall. intros Hw. unfold validateRangeValues.
  apply returns_bind; [|intros _].
  { apply returns_forEach; intros x _. apply returns_when, returns_push. }
  apply returns_bind; [|intros _].
  { apply returns_forEach; intros x _.
    apply returns_bind; [|intros _]; apply returns_when, returns_push. }
  apply returns_forEach; intros x Hx.
  apply returns_bind; [apply returns_when, returns_push | intros _].
  apply returns_bind; [apply returns_deref, (Hw x Hx)|]. intros slots.
  apply returns_when, returns_push.
Qed.

Lemma validateJSONFields_returns JSON_parses clientsData :
  returns (validateJSONFields JSON_parses clientsData).
Proof.
  unfold validateJSONFields. apply returns_forEach; intros x _.
  apply returns_when, returns_push.
Qed.

Lemma validateWorkerOverload_returns workersData :
  Forall workerComplete workersData ->
  returns (validateWorkerOverload workersData).
Proof.
  rewrite !Forall_forall. intros Hw. unfold validateWorkerOverload.
  apply returns_forEach; intros x Hx.
  apply returns_bind; [apply returns_deref, (Hw x Hx)|]. intros slots.
  apply returns_when, returns_push.
Qed.

Lemma validateSkillCoverage_returns workersData tasksData :
  Forall workerComplete workersData -> Forall taskComplete tasksData ->
  returns (validateSkillCoverage workersData tasksData).
Proof.
  rewrite !Forall_forall. intros Hw Ht. unfold validateSkillCoverage.
  apply returns_bind.
  { apply returns_foldM. intros acc x Hx.
    apply returns_bind; [apply returns_deref, (Hw x Hx)|]. intros skills.
    apply returns_ret. }
  intros availableSkills. apply returns_forEach; intros x Hx.
  apply returns_bind; [apply returns_deref, (Ht x Hx)|]. intros required.
  apply returns_forEach; intros skill _. apply returns_when, returns_push.
Qed.

(** With complete task records every recorded window is a list. *)
Lemma mapSet_values {V} (P : V -> Prop) (m : list (string * V)) k v :
  Forall P (Js.mapValues m) -> P v -> Forall P (Js.mapValues (Js.mapSet m k v)).
Proof.
  unfold Js.mapValues. induction m as [|[k0 v0] m IH]; simpl; intros Hm Hv.
  - by constructor.
  - apply Forall_cons in Hm as [H0 Hm].
    case_bool_decide; simpl; constructor; auto.
Qed.

Lemma find_elem_of {A} (f : A -> bool) (xs : list A) x :
  Js.find f xs = Some x -> x ∈ xs.
Proof.
  induction xs as [|y xs IH]; simpl; [done|].
  destruct (f y); [intros [= ->]; left | intros H; right; by apply IH].
Qed.

Lemma windows_present phaseWindowRules tasksData taskIds m :
  Forall taskComplete tasksData ->
  Forall is_Some (Js.mapValues m) ->
  Forall is_Some
    (Js.mapValues
       (fold_left (recordWindow phaseWindowRules tasksData) taskIds m)).
Proof.
  rewrite Forall_forall. intros Ht. revert m.
  induction taskIds as [|t rest IH]; intros m Hm; simpl; [done|].
  apply IH. rewrite recordWindow_stored. unfold storedWindow, taskRecord.
  destruct (windowRuleFor _ t); [by apply mapSet_values|].
  destruct (Js.find _ tasksData) as [task|] eqn:E; [|done].
  apply mapSet_values; [done|]. apply find_elem_of in E. by apply Ht.
Qed.

Lemma all_present {A} (os : list (option A)) :
  Forall is_Some os -> exists xs, os = map Some xs.
Proof.
  induction os as [|o os IH]; intros H.
  - by exists [].
  - apply Forall_cons in H as [[x ->] H]. destruct (IH H) as [xs ->].
    by exists (x :: xs).
Qed.

Lemma returns_bind_appends {A B} (m : M A) (k : A -> M B) a out :
  appends m a out -> returns (k a) -> returns (bind m k).
Proof.
  intros Hm (b & o2 & Hk). exists b, (out ++ o2). by eapply appends_bind.
Qed.

Lemma validateRuleConflicts_returns businessRules tasksData :
  Forall taskComplete tasksData ->
  returns (validateRuleConflicts businessRules tasksData).
Proof.
  intros Ht. unfold validateRuleConflicts. apply returns_forEach.
  intros coRunRule _. unfold checkCoRunRule.
  destruct (all_present _
              (windows_present (List.filter isPhaseWindow businessRules)
                 tasksData (tasksOf coRunRule) [] Ht ltac:(constructor)))
    as [ws ->].
  destruct ws as [|first rest]; [apply returns_ret|].
  apply returns_when. cbn [map reduceCommon].
  eapply returns_bind_appends; [apply appends_foldCommon|].
  eapply returns_bind_appends; [apply appends_deref|].
  apply returns_when, returns_push.
Qed.

Lemma validateMaxConcurrencyFeasibility_returns workersData tasksData :
  Forall workerComplete workersData -> Forall taskComplete tasksData ->
  returns (validateMaxConcurrencyFeasibility workersData tasksData).
Proof.
  intros Hw Ht. rewrite Forall_forall in Ht.
  unfold validateMaxConcurrencyFeasibility. apply returns_forEach.
  intros task Hin. eapply returns_appends.
  apply checkTaskConcurrency_appends; [done | by apply Ht].
Qed.

Lemma validatePhaseSlotSaturation_returns workersData tasksData :
  Forall workerComplete workersData -> Forall taskComplete tasksData ->
  returns (validatePhaseSlotSaturation workersData tasksData).
Proof.
  rewrite !Forall_forall. intros Hw Ht. eapply returns_appends.
  apply validatePhaseSlotSaturation_totals.
  - intros w Hin. by apply Hw.
  - intros t Hin. by apply Ht.
Qed.

Lemma validateReferences_returns clientsData workersData tasksData :
  Forall clientComplete clientsData ->
  returns (validateReferences clientsData workersData tasksData).
Proof.
  rewrite Forall_forall. intros Hc. eapply returns_appends.
  by apply validateReferences_appends.
Qed.

Lemma runChecks_appends JSON_parses clientsData workersData tasksData
    businessRules o1 o2 o3 o4 o5 o6 o7 o8 o9 o10 o11 o12 :
  appends (validateRequiredFields clientsData workersData tasksData) tt o1 ->
  appends (validateDuplicateIds clientsData workersData tasksData) tt o2 ->
  appends (validateMalformedLists clientsData workersData tasksData) tt o3 ->
  appends (validateRangeValues clientsData workersData tasksData) tt o4 ->
  appends (validateJSONFields JSON_parses clientsData) tt o5 ->
  appends (validateReferences clientsData workersData tasksData) tt o6 ->
  appends (validateCircularCoRuns businessRules) tt o7 ->
  appends (validateRuleConflicts businessRules tasksData) tt o8 ->
  appends (validateWorkerOverload workersData) tt o9 ->
  appends (validatePhaseSlotSaturation workersData tasksData) tt o10 ->
  appends (validateSkillCoverage workersData tasksData) tt o11 ->
  appends (validateMaxConcurrencyFeasibility workersData tasksData) tt o12 ->
  appends
    (runChecks JSON_parses clientsData workersData tasksData businessRules) tt
    (o1 ++ o2 ++ o3 ++ o4 ++ o5 ++ o6 ++ o7 ++ o8 ++ o9 ++ o10 ++ o11 ++ o12).
Proof.
  intros. unfold runChecks.
  repeat match goal with
         | |- appends (bind _ _) _ _ => eapply appends_bind; [eassumption|]
         end.
  assumption.
Qed.

(** ** Incomplete records make the run throw *)

Lemma throws_deref_None {A} : throws (deref (@None A)).
Proof. by intros errors. Qed.

Lemma throws_bind_l {A B} (m : M A) (k : A -> M B) :
  throws m -> throws (bind m k).
Proof. intros Hm errors. unfold bind. by rewrite Hm. Qed.

Lemma throws_bind_r {A B} (m : M A) (k : A -> M B) :
  halts m -> (forall a, throws (k a)) -> throws (bind m k).
Proof.
  intros Hm Hk errors. unfold bind.
  destruct (m errors) as [[a errors']| |] eqn:E; [apply Hk | done |].
  by apply Hm in E.
Qed.

Lemma throws_forEach {A} (xs : list A) body w :
  (forall x, halts (body x)) -> w ∈ xs -> throws (body w) ->
  throws (forEach xs body).
Proof.
  intros Hh Hin Hw. induction xs as [|x xs IH]; simpl.
  - by apply elem_of_nil in Hin.
  - apply elem_of_cons in Hin as [<-|Hin]; [by apply throws_bind_l|].
    apply throws_bind_r; [apply Hh | intros _; by apply IH].
Qed.

Lemma throws_foldM {S A} (step : S -> A -> M S) (xs : list A) acc w :
  (forall acc x, halts (step acc x)) -> w ∈ xs ->
  (forall acc, throws (step acc w)) ->
  throws (foldM step xs acc).
Proof.
  intros Hh Hin Hw. revert acc. induction xs as [|x xs IH]; intros acc; simpl.
  - by apply elem_of_nil in Hin.
  - apply elem_of_cons in Hin as [<-|Hin]; [by apply throws_bind_l|].
    apply throws_bind_r; [apply Hh | intros acc'; by apply IH].
Qed.

Lemma validateReferences_throws clientsData workersData tasksData client :
  client ∈ clientsData -> RequestedTaskIDs client = None ->
  throws (validateReferences clientsData workersData tasksData).
Proof.
  intros Hin Hnone. unfold validateReferences.
  apply (throws_forEach _ _ client); [intros x; halts_tac | done |].
  rewrite Hnone. apply throws_bind_l, throws_deref_None.
Qed.

Lemma validateMalformedLists_throws_slots clientsData workersData tasksData
    worker :
  worker ∈ workersData -> AvailableSlots worker = None ->
  throws (validateMalformedLists clientsData workersData tasksData).
Proof.
  intros Hin Hnone. unfold validateMalformedLists. apply throws_bind_l.
  apply (throws_forEach _ _ worker); [intros x; halts_tac | done |].
  rewrite Hnone. apply throws_bind_l, throws_deref_None.
Qed.

Lemma validateMalformedLists_throws_phases clientsData workersData tasksData
    task :
  task ∈ tasksData -> PreferredPhases task = None ->
  throws (validateMalformedLists clientsData workersData tasksData).
Proof.
  intros Hin Hnone. unfold validateMalformedLists.
  apply throws_bind_r; [halts_tac | intros _].
  apply (throws_forEach _ _ task); [intros x; halts_tac | done |].
  rewrite Hnone. apply throws_bind_l, throws_deref_None.
Qed.

Lemma validateSkillCoverage_throws_skills workersData tasksData worker :
  worker ∈ workersData -> Skills worker = None ->
  throws (validateSkillCoverage workersData tasksData).
Proof.
  intros Hin Hnone. unfold validateSkillCoverage. apply throws_bind_l.
  apply (throws_foldM _ _ _ worker); [intros acc x; halts_tac | done |].
  intros acc. rewrite Hnone. apply throws_bind_l, throws_deref_None.
Qed.

Lemma validateSkillCoverage_throws_required workersData tasksData task :
  task ∈ tasksData -> RequiredSkills task = None ->
  throws (validateSkillCoverage workersData tasksData).
Proof.
  intros Hin Hnone. unfold validateSkillCoverage.
  apply throws_bind_r; [halts_tac | intros availableSkills].
  apply (throws_forEach _ _ task); [intros x; halts_tac | done |].
  rewrite Hnone. apply throws_bind_l, throws_deref_None.
Qed.

(** Steps over the checks of [runChecks] up to one that throws. *)
Ltac reach_throw :=
  repeat first
    [ apply throws_bind_l; assumption
    | assumption
    | apply throws_bind_r;
      [ auto using validateRequiredFields_halts, validateDuplicateIds_halts,
          validateMalformedLists_halts, validateRangeValues_halts,
          validateJSONFields_halts, validateReferences_halts,
          validateCircularCoRuns_halts, validateRuleConflicts_halts,
          validateWorkerOverload_halts, validatePhaseSlotSaturation_halts,
          validateSkillCoverage_halts, validateMaxConcurrencyFeasibility_halts
      | intros _ ] ].

Lemma runChecks_throws JSON_parses clientsData workersData tasksData
    businessRules :
  Exists clientIncomplete clientsData
  \/ Exists workerIncomplete workersData
  \/ Exists taskIncomplete tasksData ->
  throws (runChecks JSON_parses clientsData workersData tasksData
            businessRules).
Proof.
  rewrite !Exists_exists.
  intros [(c & Hin & Hc) | [(w & Hin & [Hw|Hw]) | (t & Hin & [Ht|Ht])]].
  - pose proof (validateReferences_throws clientsData workersData tasksData
                  c Hin Hc).
    unfold runChecks. reach_throw.
  - pose proof (validateSkillCoverage_throws_skills workersData tasksData
                  w Hin Hw).
    unfold runChecks. reach_throw.
  - pose proof (validateMalformedLists_throws_slots clientsData workersData
                  tasksData w Hin Hw).
    unfold runChecks. reach_throw.
  - pose proof (validateSkillCoverage_throws_required workersData tasksData
                  t Hin Ht).
    unfold runChecks. reach_throw.
  - pose proof (validateMalformedLists_throws_phases clientsData workersData
                  tasksData t Hin Ht).
    unfold runChecks. reach_throw.
Qed.

(** C2, as the code has it.  When every record carries the lists its type
    declares (clients their requests, workers their skills and slots, tasks
    their required skills and preferred phases), [runValidations] does not
    throw: each of the twelve checks returns, and the result is what they
    append, one after the other.  When some record lacks one of these
    lists, the run throws and returns no findings. *)
Theorem runValidations_returns_on_complete_records
    (JSON_parses : string -> bool)
    (clientsData : list ClientData) (workersData : list WorkerData)
    (tasksData : list TaskData) (businessRules : list BusinessRule.t) :
  (Forall clientComplete clientsData ->
   Forall workerComplete workersData ->
   Forall taskComplete tasksData ->
   exists o1 o2 o3 o4 o5 o6 o7 o8 o9 o10 o11 o12,
     appends (validateRequiredFields clientsData workersData tasksData) tt o1
     /\ appends (validateDuplicateIds clientsData workersData tasksData) tt o2
     /\ appends (validateMalformedLists clientsData workersData tasksData) tt o3
     /\ appends (validateRangeValues clientsData workersData tasksData) tt o4
     /\ appends (validateJSONFields JSON_parses clientsData) tt o5
     /\ appends (validateReferences clientsData workersData tasksData) tt o6
     /\ appends (validateCircularCoRuns businessRules) tt o7
     /\ appends (validateRuleConflicts businessRules tasksData) tt o8
     /\ appends (validateWorkerOverload workersData) tt o9
     /\ appends (validatePhaseSlotSaturation workersData tasksData) tt o10
     /\ appends (validateSkillCoverage workersData tasksData) tt o11
     /\ appends (validateMaxConcurrencyFeasibility workersData tasksData) tt
          o12
     /\ runValidations JSON_parses clientsData workersData tasksData
          businessRules
        = Returned (o1 ++ o2 ++ o3 ++ o4 ++ o5 ++ o6 ++ o7 ++ o8 ++ o9 ++ o10
                      ++ o11 ++ o12))
  /\ (Exists clientIncomplete clientsData
      \/ Exists workerIncomplete workersData
      \/ Exists taskIncomplete tasksData ->
      runValidations JSON_parses clientsData workersData tasksData
        businessRules = Thrown).
Proof.
  split.
  - intros Hc Hw Ht.
    destruct (returns_unit _
      (validateRequiredFields_returns clientsData workersData tasksData))
      as [o1 H1].
    destruct (validateDuplicateIds_appends clientsData workersData tasksData)
      as [o2 H2].
    destruct (returns_unit _
      (validateMalformedLists_returns clientsData workersData tasksData Hw Ht))
      as [o3 H3].
    destruct (returns_unit _
      (validateRangeValues_returns clientsData workersData tasksData Hw))
      as [o4 H4].
    destruct (returns_unit _
      (validateJSONFields_returns JSON_parses clientsData)) as [o5 H5].
    destruct (returns_unit _
      (validateReferences_returns clientsData workersData tasksData Hc))
      as [o6 H6].
    destruct (validateCircularCoRuns_appends businessRules) as (o7 & H7 & _).
    destruct (returns_unit _
      (validateRuleConflicts_returns businessRules tasksData Ht)) as [o8 H8].
    destruct (returns_unit _ (validateWorkerOverload_returns workersData Hw))
      as [o9 H9].
    destruct (returns_unit _
      (validatePhaseSlotSaturation_returns workersData tasksData Hw Ht))
      as [o10 H10].
    destruct (returns_unit _
      (validateSkillCoverage_returns workersData tasksData Hw Ht))
      as [o11 H11].
    destruct (returns_unit _
      (validateMaxConcurrencyFeasibility_returns workersData tasksData Hw Ht))
      as [o12 H12].
    exists o1, o2, o3, o4, o5, o6, (concat o7), o8, o9, o10, o11, o12.
    split_and!; try done.
    unfold runValidations.
    by rewrite (runChecks_appends JSON_parses clientsData workersData
                  tasksData businessRules _ _ _ _ _ _ _ _ _ _ _ _
                  H1 H2 H3 H4 H5 H6 H7 H8 H9 H10 H11 H12 []).
  - intros Hinc. unfold runValidations.
    by rewrite (runChecks_throws JSON_parses clientsData workersData
                  tasksData businessRules Hinc []).
Qed.

(** The theorem at complete records, and at a worker without slots. *)
Lemma runValidations_returns_on_complete_records_witness :
  (Forall clientComplete [sampleClient]
   /\ Forall workerComplete twoWithX
   /\ Forall taskComplete [taskNeedingThree]
   /\ exists out,
        runValidations (fun _ => true) [sampleClient] twoWithX
          [taskNeedingThree] cyclicRules = Returned out)
  /\ (Exists workerIncomplete [workerWithoutSlots]
      /\ runValidations (fun _ => true) [sampleClient] [workerWithoutSlots]
           [taskNeedingThree] cyclicRules = Thrown).
Proof.
  assert (Hc : Forall clientComplete [sampleClient]).
  { repeat constructor. by eexists. }
  assert (Hw : Forall workerComplete twoWithX).
  { repeat constructor; by eexists. }
  assert (Ht : Forall taskComplete [taskNeedingThree]).
  { repeat constructor; by eexists. }
  assert (Hi : Exists workerIncomplete [workerWithoutSlots]).
  { constructor. by right. }
  split.
  - split_and!; [done..|].
    destruct (proj1 (runValidations_returns_on_complete_records
                       (fun _ => true) [sampleClient] twoWithX
                       [taskNeedingThree] cyclicRules) Hc Hw Ht)
      as (o1 & o2 & o3 & o4 & o5 & o6 & o7 & o8 & o9 & o10 & o11 & o12 & H).
    eexists. apply H.
  - split; [done|].
    apply (proj2 (runValidations_returns_on_complete_records
                    (fun _ => true) [sampleClient] [workerWithoutSlots]
                    [taskNeedingThree] cyclicRules)).
    right. by left.
Defined.

(** C2, as the specification words it, fails: the collections below are
    not null, one worker lacks its list of available slots, and the run
    throws instead of returning findings. *)
Lemma runValidations_throws_on_missing_slots :
  AvailableSlots workerWithoutSlots = None
  /\ runValidations (fun _ => true) [] [workerWithoutSlots] [] [] = Thrown.
Proof. split; by vm_compute. Qed.

(** ** The [active] flag is never read *)

Lemma filter_map_commute {A B} (f : A -> B) (p : B -> bool) (q : A -> bool)
    (xs : list A) :
  (forall x, p (f x) = q x) ->
  List.filter p (map f xs) = map f (List.filter q xs).
Proof.
  intros H. induction xs as [|x xs IH]; simpl; [done|].
  rewrite H. destruct (q x); simpl; by rewrite IH.
Qed.

Lemma forEach_map {A B} (f : A -> B) (xs : list A) body body' errors :
  (forall x errors, body (f x) errors = body' x errors) ->
  forEach (map f xs) body errors = forEach xs body' errors.
Proof.
  intros H. revert errors. induction xs as [|x xs IH]; intros errors; simpl.
  - done.
  - unfold bind. rewrite H. by destruct (body' x errors) as [[[] ?]| |].
Qed.

Lemma find_map {A B} (f : A -> B) (p : B -> bool) (xs : list A) :
  Js.find p (map f xs) = f <$> Js.find (fun x => p (f x)) xs.
Proof.
  induction xs as [|x xs IH]; simpl; [done|]. by destruct (p (f x)).
Qed.

Lemma relatedRulesLoop_activated call call' taskId relatedRules st :
  (forall t st, call t st = call' t st) ->
  relatedRulesLoop call taskId (map activated relatedRules) st
  = relatedRulesLoop call' taskId relatedRules st.
Proof.
  intros Hcall.
  assert (Htasks : forall ts st,
            relatedTasksLoop call taskId ts st
            = relatedTasksLoop call' taskId ts st).
  { induction ts as [|t ts IH]; intros st0; simpl; [done|].
    destruct (String.eqb t taskId); [done|]. rewrite Hcall.
    destruct (call' t st0) as [[[] ?]|]; auto. }
  revert st. induction relatedRules as [|r rs IH]; intros st; simpl; [done|].
  change (tasksOf (activated r)) with (tasksOf r). rewrite Htasks.
  destruct (relatedTasksLoop call' taskId (tasksOf r) st) as [[[] ?]|]; auto.
Qed.

Lemma hasCycle_activated coRunRules rule fuel taskId st :
  hasCycle (map activated coRunRules) (activated rule) fuel taskId st
  = hasCycle coRunRules rule fuel taskId st.
Proof.
  revert taskId st. induction fuel as [|fuel IH]; intros taskId st; [done|].
  cbn [hasCycle].
  rewrite (filter_map_commute activated _ (isRelated rule taskId))
    by done.
  by rewrite (relatedRulesLoop_activated _
                (hasCycle coRunRules rule fuel)).
Qed.

Lemma cycleFuel_activated coRunRules :
  cycleFuel (map activated coRunRules) = cycleFuel coRunRules.
Proof.
  unfold cycleFuel. f_equal. f_equal.
  induction coRunRules as [|r rs IH]; simpl; [done|]. by rewrite IH.
Qed.

Lemma scanTasks_activated coRunRules rule fuel taskIds st errors :
  scanTasks (map activated coRunRules) (activated rule) fuel taskIds st errors
  = scanTasks coRunRules rule fuel taskIds st errors.
Proof.
  revert st. induction taskIds as [|t ts IH]; intros st; simpl; [done|].
  rewrite hasCycle_activated.
  destruct (hasCycle coRunRules rule fuel t st) as [[[] ?]|]; auto.
Qed.

Lemma validateCircularCoRuns_activated businessRules errors :
  validateCircularCoRuns (map activated businessRules) errors
  = validateCircularCoRuns businessRules errors.
Proof.
  unfold validateCircularCoRuns.
  rewrite (filter_map_commute activated _ isCoRun) by done.
  apply forEach_map. intros rule errors'.
  change (tasksOf (activated rule)) with (tasksOf rule).
  by rewrite cycleFuel_activated, scanTasks_activated.
Qed.

Lemma recordWindow_activated phaseWindowRules tasksData m taskId :
  recordWindow (map activated phaseWindowRules) tasksData m taskId
  = recordWindow phaseWindowRules tasksData m taskId.
Proof.
  unfold recordWindow. rewrite find_map. simpl.
  by destruct (Js.find _ phaseWindowRules).
Qed.

Lemma validateRuleConflicts_activated businessRules tasksData errors :
  validateRuleConflicts (map activated businessRules) tasksData errors
  = validateRuleConflicts businessRules tasksData errors.
Proof.
  unfold validateRuleConflicts.
  rewrite (filter_map_commute activated _ isCoRun) by done.
  rewrite (filter_map_commute activated _ isPhaseWindow) by done.
  apply forEach_map. intros rule errors'. unfold checkCoRunRule.
  change (tasksOf (activated rule)) with (tasksOf rule).
  assert (Hfold : forall ts m,
            fold_left (recordWindow
                         (map activated
                            (List.filter isPhaseWindow businessRules))
                         tasksData) ts m
            = fold_left (recordWindow
                           (List.filter isPhaseWindow businessRules)
                           tasksData) ts m).
  { induction ts as [|t ts IH]; intros m; simpl; [done|].
    by rewrite recordWindow_activated, IH. }
  by rewrite Hfold.
Qed.

Lemma bind_cong {A B} (m m' : M A) (k k' : A -> M B) errors :
  (forall e, m e = m' e) -> (forall a e, k a e = k' a e) ->
  bind m k errors = bind m' k' errors.
Proof.
  intros Hm Hk. unfold bind. rewrite Hm.
  destruct (m' errors) as [[a ?]| |]; auto.
Qed.

Lemma runValidations_activated JSON_parses clientsData workersData tasksData
    businessRules :
  runValidations JSON_parses clientsData workersData tasksData
    (map activated businessRules)
  = runValidations JSON_parses clientsData workersData tasksData
      businessRules.
Proof.
  unfold runValidations.
  assert (H : forall errors,
            runChecks JSON_parses clientsData workersData tasksData
              (map activated businessRules) errors
            = runChecks JSON_parses clientsData workersData tasksData
                businessRules errors); [|by rewrite H].
  intros errors. unfold runChecks.
  repeat (apply bind_cong; [try done | intros _ ?]);
    auto using validateCircularCoRuns_activated,
      validateRuleConflicts_activated.
Qed.

Lemma activated_same r r' : sameUpToActive r r' -> activated r = activated r'.
Proof.
  intros (Hid & Hty & Hn & Hd & Hp). unfold activated.
  by rewrite Hid, Hty, Hn, Hd, Hp.
Qed.

(** C9.  Two rule sets that agree rule by rule on everything but the
    [active] flag give the same outcome of [runValidations], the same
    findings in the same order, whatever the flags are. *)
Theorem runValidations_ignores_active
    (JSON_parses : string -> bool)
    (clientsData : list ClientData) (workersData : list WorkerData)
    (tasksData : list TaskData) (rules rules' : list BusinessRule.t) :
  Forall2 sameUpToActive rules rules' ->
  runValidations JSON_parses clientsData workersData tasksData rules
  = runValidations JSON_parses clientsData workersData tasksData rules'.
Proof.
  intros Hsame.
  assert (Hmap : map activated rules = map activated rules').
  { induction Hsame as [|r r' rs rs' Hr _ IH]; simpl; [done|].
    by rewrite (activated_same r r'), IH. }
  rewrite <- (runValidations_activated _ _ _ _ rules).
  rewrite <- (runValidations_activated _ _ _ _ rules').
  by rewrite Hmap.
Qed.

(** The theorem at the cyclic rules, with and without the second one
    switched off. *)
Lemma runValidations_ignores_active_witness :
  Forall2 sameUpToActive cyclicRules cyclicRulesOneOff
  /\ runValidations (fun _ => true) [sampleClient] twoWithX
       [taskNeedingThree] cyclicRules
     = runValidations (fun _ => true) [sampleClient] twoWithX
         [taskNeedingThree] cyclicRulesOneOff.
Proof.
  assert (H : Forall2 sameUpToActive cyclicRules cyclicRulesOneOff).
  { repeat constructor. }
  split; [exact H|].
  exact (runValidations_ignores_active (fun _ => true) [sampleClient]
           twoWithX [taskNeedingThree] cyclicRules cyclicRulesOneOff H).
Defined.

(** ** Cycle detection: overlapping rules are reported *)

Lemma isRelated_spec rule taskId r :
  isRelated rule taskId r = true
  <-> BusinessRule.id r <> BusinessRule.id rule /\ taskId ∈ tasksOf r.
Proof.
  unfold isRelated, tasksOf.
  rewrite andb_true_iff, negb_true_iff, String.eqb_neq.
  destruct (param_tasks _); simpl.
  - by rewrite includes_elem_of.
  - split; [intros [_ ?]; done | intros [_ H]; by apply elem_of_nil in H].
Qed.

Section CycleFound.

Variable coRunRules : list BusinessRule.t.
Variable rule : BusinessRule.t.

(** A call that answers [false] leaves the recursion stack as it found
    it. *)
Lemma relatedTasksLoop_stack call taskId relatedTasks st st' :
  (forall t s s', call t s = Some (false, s') ->
     recursionStack s' = recursionStack s) ->
  relatedTasksLoop call taskId relatedTasks st = Some (false, st') ->
  recursionStack st' = recursionStack st.
Proof.
  intros Hcall. revert st.
  induction relatedTasks as [|x rest IH]; intros st; simpl.
  - by intros [= ->].
  - destruct (String.eqb x taskId); [apply IH|].
    destruct (call x st) as [[[] s1]|] eqn:E; [done| |done].
    intros H. rewrite (IH _ H). by apply (Hcall x).
Qed.

Lemma relatedRulesLoop_stack call taskId relatedRules st st' :
  (forall t s s', call t s = Some (false, s') ->
     recursionStack s' = recursionStack s) ->
  relatedRulesLoop call taskId relatedRules st = Some (false, st') ->
  recursionStack st' = recursionStack st.
Proof.
  intros Hcall. revert st.
  induction relatedRules as [|r rest IH]; intros st; simpl.
  - by intros [= ->].
  - destruct (relatedTasksLoop call taskId (tasksOf r) st)
      as [[[] s1]|] eqn:E; [done| |done].
    intros H. rewrite (IH _ H).
    by apply (relatedTasksLoop_stack call taskId (tasksOf r)).
Qed.

Lemma hasCycle_stack fuel taskId st st' :
  hasCycle coRunRules rule fuel taskId st = Some (false, st') ->
  recursionStack st' = recursionStack st.
Proof.
  revert taskId st st'.
  induction fuel as [|fuel IH]; intros taskId st st'; [done|].
  cbn [hasCycle].
  case_bool_decide as Hstack; [done|].
  case_bool_decide as Hvisited; [by intros [= ->]|].
  destruct (relatedRulesLoop _ _ _ _) as [[[] s1]|] eqn:E; [done| |done].
  intros [= <-]. simpl.
  rewrite (relatedRulesLoop_stack _ _ _ _ _ IH E). simpl. set_solver.
Qed.

Lemma hasCycle_on_stack fuel taskId st b st' :
  taskId ∈ recursionStack st ->
  hasCycle coRunRules rule fuel taskId st = Some (b, st') -> b = true.
Proof.
  intros Hin. destruct fuel as [|fuel]; [done|]. cbn [hasCycle].
  rewrite bool_decide_eq_true_2 by done. by intros [= <- _].
Qed.

(** While [u] is on the stack, a loop over tasks that include [u] (other
    than the current task) cannot answer [false]. *)
Lemma relatedTasksLoop_hits fuel taskId u relatedTasks st b st' :
  u ∈ relatedTasks -> u <> taskId -> u ∈ recursionStack st ->
  relatedTasksLoop (hasCycle coRunRules rule fuel) taskId relatedTasks st
  = Some (b, st') ->
  b = true.
Proof.
  intros Hin Hne. revert st.
  induction relatedTasks as [|x rest IH]; intros st Hstack; simpl.
  - by apply elem_of_nil in Hin.
  - destruct (String.eqb_spec x taskId) as [->|Hx].
    + apply elem_of_cons in Hin as [?|Hin]; [done|]. by apply IH.
    + destruct (hasCycle coRunRules rule fuel x st) as [[[] s1]|] eqn:E;
        [by intros [= <- _]| |done].
      apply elem_of_cons in Hin as [<-|Hin].
      * by apply (hasCycle_on_stack _ _ _ _ _ Hstack) in E.
      * apply IH; [done|]. by rewrite (hasCycle_stack _ _ _ _ E).
Qed.

Lemma relatedRulesLoop_hits fuel taskId u r relatedRules st b st' :
  r ∈ relatedRules -> u ∈ tasksOf r -> u <> taskId ->
  u ∈ recursionStack st ->
  relatedRulesLoop (hasCycle coRunRules rule fuel) taskId relatedRules st
  = Some (b, st') ->
  b = true.
Proof.
  intros Hr Hu Hne. revert st.
  induction relatedRules as [|r0 rest IH]; intros st Hstack; simpl.
  - by apply elem_of_nil in Hr.
  - destruct (relatedTasksLoop _ taskId (tasksOf r0) st)
      as [[[] s1]|] eqn:E; [by intros [= <- _]| |done].
    apply elem_of_cons in Hr as [<-|Hr].
    + by apply (relatedTasksLoop_hits _ _ u _ _ _ _ Hu Hne Hstack) in E.
    + apply IH; [done|].
      by rewrite (relatedTasksLoop_stack _ _ _ _ _
                    (hasCycle_stack fuel) E).
Qed.

(** A call on a task that is not visited yet, made while a neighbour of
    it is on the stack, answers [true]. *)
Lemma hasCycle_neighbour_on_stack fuel taskId u r st b st' :
  r ∈ coRunRules -> isRelated rule taskId r = true ->
  u ∈ tasksOf r -> u <> taskId -> u ∈ recursionStack st ->
  taskId ∉ visited st ->
  hasCycle coRunRules rule fuel taskId st = Some (b, st') -> b = true.
Proof.
  intros Hr Hrel Hu Hne Hstack Hvisited.
  destruct fuel as [|fuel]; [done|]. cbn [hasCycle].
  case_bool_decide; [by intros [= <- _]|].
  rewrite bool_decide_eq_false_2 by done.
  destruct (relatedRulesLoop _ _ _ _) as [[b1 s1]|] eqn:E; [|done].
  assert (b1 = true) as ->.
  { apply (relatedRulesLoop_hits _ _ u r _ _ _ _) in E; try done.
    - apply list_elem_of_In, filter_In. split; [by apply list_elem_of_In|done].
    - simpl. set_solver. }
  by intros [= <- _].
Qed.

(** A loop that answers [false] while [u] is being explored changed
    nothing, and every task it went through was [u] or visited. *)
Lemma relatedTasksLoop_quiet fuel u r relatedTasks st st' :
  r ∈ coRunRules -> isRelated rule u r = true ->
  (forall x, x ∈ relatedTasks -> x ∈ tasksOf r) ->
  u ∈ recursionStack st ->
  relatedTasksLoop (hasCycle coRunRules rule fuel) u relatedTasks st
  = Some (false, st') ->
  st' = st /\ forall x, x ∈ relatedTasks -> x = u \/ x ∈ visited st.
Proof.
  intros Hr Hrel. apply isRelated_spec in Hrel as [Hid Hu]. revert st.
  induction relatedTasks as [|x rest IH]; intros st Hsub Hstack; simpl.
  - intros [= ->]. split; [done|]. by intros x ?%elem_of_nil.
  - assert (Hrest : forall y, y ∈ rest -> y ∈ tasksOf r)
      by (intros y Hy; apply Hsub; by right).
    destruct (String.eqb_spec x u) as [->|Hx].
    + intros H. destruct (IH st Hrest Hstack H) as [-> Hall].
      split; [done|]. intros y [->|Hy]%elem_of_cons; [by left | by apply Hall].
    + destruct (hasCycle coRunRules rule fuel x st) as [[[] s1]|] eqn:E;
        [done| |done].
      destruct (decide (x ∈ visited st)) as [Hv|Hv].
      * assert (s1 = st) as ->.
        { destruct fuel as [|fuel]; [done|]. cbn [hasCycle] in E.
          case_bool_decide; [done|].
          rewrite bool_decide_eq_true_2 in E by done. by injection E as <-. }
        intros H. destruct (IH st Hrest Hstack H) as [-> Hall].
        split; [done|].
        intros y [->|Hy]%elem_of_cons; [by right | by apply Hall].
      * exfalso.
        assert (false = true); [|done].
        apply (hasCycle_neighbour_on_stack fuel x u r st false s1);
          try done.
        apply isRelated_spec. split; [done|]. apply Hsub. left.
Qed.

Lemma relatedRulesLoop_quiet fuel u relatedRules st st' :
  (forall r, r ∈ relatedRules ->
     r ∈ coRunRules /\ isRelated rule u r = true) ->
  u ∈ recursionStack st ->
  relatedRulesLoop (hasCycle coRunRules rule fuel) u relatedRules st
  = Some (false, st') ->
  st' = st
  /\ forall r x, r ∈ relatedRules -> x ∈ tasksOf r ->
       x = u \/ x ∈ visited st.
Proof.
  revert st. induction relatedRules as [|r0 rest IH];
    intros st Hall Hstack; simpl.
  - intros [= ->]. split; [done|]. by intros r x ?%elem_of_nil.
  - destruct (relatedTasksLoop _ u (tasksOf r0) st)
      as [[[] s1]|] eqn:E; [done| |done].
    destruct (Hall r0 ltac:(left)) as [Hr0 Hrel0].
    destruct (relatedTasksLoop_quiet fuel u r0 (tasksOf r0) st s1
                Hr0 Hrel0 ltac:(done) Hstack E) as [-> Htasks].
    intros H. destruct (IH st) as [-> Hrules]; [|done..|].
    { intros r Hin. apply Hall. by right. }
    split; [done|]. intros r x [->|Hin]%elem_of_cons Hx.
    + by apply Htasks.
    + by apply (Hrules r).
Qed.

(** A call from the top of the scan (empty stack) on a task that is not
    visited yet, answering [false]: the task is marked, nothing else
    changed, and all its neighbours were visited already. *)
Lemma hasCycle_quiet fuel u st st' :
  recursionStack st = ∅ -> u ∉ visited st ->
  hasCycle coRunRules rule fuel u st = Some (false, st') ->
  visited st' = {[u]} ∪ visited st
  /\ recursionStack st' = ∅
  /\ forall r x, r ∈ coRunRules -> isRelated rule u r = true ->
       x ∈ tasksOf r -> x = u \/ x ∈ visited st.
Proof.
  intros Hstack Hvisited. destruct fuel as [|fuel]; [done|].
  cbn [hasCycle].
  rewrite bool_decide_eq_false_2 by (rewrite Hstack; set_solver).
  rewrite bool_decide_eq_false_2 by done.
  destruct (relatedRulesLoop _ _ _ _) as [[[] s1]|] eqn:E; [done| |done].
  apply relatedRulesLoop_quiet in E as [-> Hall].
  - intros [= <-]. simpl. split_and!; [done | rewrite Hstack; set_solver|].
    intros r x Hr Hrel Hx.
    destruct (Hall r x) as [?|Hv]; [|done|by left|].
    + apply list_elem_of_In, filter_In. split; [by apply list_elem_of_In|done].
    + simpl in Hv. set_solver.
  - intros r Hin. apply list_elem_of_In, filter_In in Hin as [Hin Hrel].
    split; [by apply list_elem_of_In | done].
  - simpl. set_solver.
Qed.

End CycleFound.

Lemma scanTasks_quiet_cons coRunRules rule fuel taskId rest st :
  scanTasks coRunRules rule fuel (taskId :: rest) st [] = Returned (tt, []) ->
  exists st1,
    hasCycle coRunRules rule fuel taskId st = Some (false, st1)
    /\ scanTasks coRunRules rule fuel rest st1 [] = Returned (tt, []).
Proof.
  cbn [scanTasks].
  destruct (hasCycle coRunRules rule fuel taskId st) as [[[] st1]|];
    [done | by exists st1 | done].
Qed.

Lemma hasCycle_visited coRunRules rule fuel taskId st b st' :
  recursionStack st = ∅ -> taskId ∈ visited st ->
  hasCycle coRunRules rule fuel taskId st = Some (b, st') -> st' = st.
Proof.
  intros Hstack Hv. destruct fuel as [|fuel]; [done|]. cbn [hasCycle].
  rewrite bool_decide_eq_false_2 by (rewrite Hstack; set_solver).
  rewrite bool_decide_eq_true_2 by done. by intros [= _ <-].
Qed.

(** A scan that reports nothing ends with a visited set that holds the
    scanned tasks and is closed under the related rules. *)
Lemma scanTasks_quiet_closed coRunRules rule fuel taskIds st :
  recursionStack st = ∅ ->
  closedUnderRelated coRunRules rule (visited st) ->
  scanTasks coRunRules rule fuel taskIds st [] = Returned (tt, []) ->
  exists seen : gset string,
    closedUnderRelated coRunRules rule seen
    /\ forall x, x ∈ seen <-> x ∈ visited st \/ x ∈ taskIds.
Proof.
  revert st. induction taskIds as [|u rest IH]; intros st Hstack Hclosed H.
  - exists (visited st). split; [done|]. intros x. rewrite elem_of_nil. tauto.
  - apply scanTasks_quiet_cons in H as (st1 & Hcall & Hrest).
    destruct (decide (u ∈ visited st)) as [Hv|Hv].
    + apply hasCycle_visited in Hcall as ->; [|done..].
      destruct (IH st Hstack Hclosed Hrest) as (seen & Hseen & Hmem).
      exists seen. split; [done|]. intros x.
      rewrite Hmem, elem_of_cons. naive_solver.
    + apply hasCycle_quiet in Hcall as (Hvis & Hstack1 & Hneigh); [|done..].
      destruct (IH st1 Hstack1) as (seen & Hseen & Hmem); [|done|].
      { intros v r t Hin Hr Hrel Ht. rewrite Hvis in Hin |- *.
        apply elem_of_union in Hin as [->%elem_of_singleton | Hin].
        - destruct (Hneigh r t Hr Hrel Ht); set_solver.
        - apply elem_of_union_r. by apply (Hclosed v r t). }
      exists seen. split; [done|]. intros x.
      rewrite Hmem, Hvis, elem_of_cons. set_solver.
Qed.

Lemma concat_nil_all {A} (ls : list (list A)) :
  concat ls = [] -> Forall (fun l => l = []) ls.
Proof.
  induction ls as [|l ls IH]; simpl; intros H; [constructor|].
  apply app_eq_nil in H as [-> H]. constructor; [done | by apply IH].
Qed.

Lemma Forall2_all_nil {A B} (P : A -> list B -> Prop) xs outs :
  Forall2 P xs outs -> Forall (fun l => l = []) outs ->
  forall x, x ∈ xs -> P x [].
Proof.
  induction 1 as [|x out xs os Hx _ IH]; intros Hnil y Hin.
  - by apply elem_of_nil in Hin.
  - apply Forall_cons in Hnil as [-> Hnil].
    apply elem_of_cons in Hin as [->|Hin]; [done | by apply IH].
Qed.

(** Overlapping co-run rules: the check cannot stay silent. *)
Lemma validateCircularCoRuns_overlapping businessRules :
  overlapping (List.filter isCoRun businessRules) ->
  exists out,
    appends (validateCircularCoRuns businessRules) tt out /\ out <> [].
Proof.
  set (coRunRules := List.filter isCoRun businessRules).
  intros (r1 & r2 & t & s & Hr1 & Hr2 & Hid & Ht1 & Ht2 & Hs1 & Hst).
  destruct (appends_forEach_each coRunRules
              (fun rule =>
                 scanTasks coRunRules rule (cycleFuel coRunRules)
                   (tasksOf rule) {| visited := ∅; recursionStack := ∅ |})
              (fun rule out =>
                 appends (scanTasks coRunRules rule (cycleFuel coRunRules)
                            (tasksOf rule)
                            {| visited := ∅; recursionStack := ∅ |}) tt out))
    as (outs & Hout & Heach).
  { intros rule _.
    destruct (scanTasks_appends coRunRules rule (tasksOf rule)
                {| visited := ∅; recursionStack := ∅ |}) as (out & H & _).
    by exists out. }
  exists (concat outs). split; [done|]. intros Hnil.
  apply concat_nil_all in Hnil.
  assert (Hquiet : forall rule, rule ∈ coRunRules ->
            scanTasks coRunRules rule (cycleFuel coRunRules) (tasksOf rule)
              {| visited := ∅; recursionStack := ∅ |} []
            = Returned (tt, [])).
  { intros rule Hin.
    apply (Forall2_all_nil _ _ _ Heach Hnil rule Hin). }
  (* every member of r1 is a member of r2 *)
  destruct (scanTasks_quiet_closed coRunRules r2 (cycleFuel coRunRules)
              (tasksOf r2) {| visited := ∅; recursionStack := ∅ |})
    as (seen & Hclosed & Hseen); [done| |by apply Hquiet|].
  { intros v r x Hv. simpl in Hv. set_solver. }
  assert (Hsub : forall x, x ∈ tasksOf r1 -> x ∈ tasksOf r2).
  { intros x Hx.
    assert (x ∈ seen) as Hin.
    { apply (Hclosed t r1 x); [|done| |done].
      - apply Hseen. by right.
      - by apply isRelated_spec. }
    apply Hseen in Hin as [Hin|Hin]; [simpl in Hin; set_solver | done]. }
  (* the first member of r1 has r2 as a related rule *)
  destruct (tasksOf r1) as [|a rest] eqn:E1; [by apply elem_of_nil in Ht1|].
  pose proof (Hquiet r1 Hr1) as Hq1. rewrite E1 in Hq1.
  apply scanTasks_quiet_cons in Hq1 as (st1 & Hcall & _).
  apply hasCycle_quiet in Hcall as (_ & _ & Hneigh);
    [|done | simpl; set_solver].
  assert (Hrel : isRelated r1 a r2 = true).
  { apply isRelated_spec. split; [done|]. apply Hsub. left. }
  destruct (Hneigh r2 t Hr2 Hrel Ht2) as [->|Hv]; [|simpl in Hv; set_solver].
  destruct (Hneigh r2 s Hr2 Hrel (Hsub s Hs1)) as [->|Hv];
    [done | simpl in Hv; set_solver].
Qed.

Lemma cyclicRules_overlapping : overlapping (List.filter isCoRun cyclicRules).
Proof.
  exists (sampleCoRun "A" ["T1"; "T2"]), (sampleCoRun "B" ["T2"; "T3"]),
         "T2", "T1".
  simpl. split_and!; try done; set_solver.
Qed.

(** C3.  The cycle check returns on every rule set, and what it appends
    is, co-run rule by co-run rule, nothing or one finding naming one task
    of the rule: a rule never yields two.  Whenever two co-run rules with
    different ids share a task and one of them has another member, as in
    every cycle across rules, at least one finding is appended; the rules
    grouping T1 with T2, T2 with T3 and T3 with T1 are such a set, and each
    of them is reported.  When no task is a member of two co-run rules,
    nothing is appended. *)
Theorem validateCircularCoRuns_findings (businessRules : list BusinessRule.t) :
  (exists outs,
     appends (validateCircularCoRuns businessRules) tt (concat outs)
     /\ Forall2 atMostOneCycleFinding
          (List.filter isCoRun businessRules) outs)
  /\ (overlapping (List.filter isCoRun businessRules) ->
      exists out,
        appends (validateCircularCoRuns businessRules) tt out /\ out <> [])
  /\ overlapping (List.filter isCoRun cyclicRules)
  /\ validateCircularCoRuns cyclicRules []
     = Returned (tt, [circularCoRun (sampleCoRun "A" ["T1"; "T2"]) "T1";
                      circularCoRun (sampleCoRun "B" ["T2"; "T3"]) "T2";
                      circularCoRun (sampleCoRun "C" ["T3"; "T1"]) "T3"])
  /\ (noSharedTask (List.filter isCoRun businessRules) ->
      appends (validateCircularCoRuns businessRules) tt []).
Proof.
  split_and!.
  - apply validateCircularCoRuns_appends.
  - apply validateCircularCoRuns_overlapping.
  - apply cyclicRules_overlapping.
  - by vm_compute.
  - apply validateCircularCoRuns_unshared.
Qed.

(** The theorem at two rules that share no task, and at the cyclic
    rules. *)
Lemma validateCircularCoRuns_findings_witness :
  (noSharedTask (List.filter isCoRun disjointRules)
   /\ appends (validateCircularCoRuns disjointRules) tt [])
  /\ (overlapping (List.filter isCoRun cyclicRules)
      /\ exists out,
           appends (validateCircularCoRuns cyclicRules) tt out /\ out <> []).
Proof.
  assert (H : noSharedTask (List.filter isCoRun disjointRules)).
  { intros r1 r2 t Hr1 Hr2 Hid Ht. simpl in Hr1, Hr2.
    apply elem_of_cons in Hr1 as [-> | Hr1];
      [|apply list_elem_of_singleton in Hr1 as ->];
      (apply elem_of_cons in Hr2 as [-> | Hr2];
         [|apply list_elem_of_singleton in Hr2 as ->]);
      try done; simpl in *; set_solver. }
  split.
  - split; [exact H|].
    exact (proj2 (proj2 (proj2 (proj2
             (validateCircularCoRuns_findings disjointRules)))) H).
  - split; [exact cyclicRules_overlapping|].
    exact (proj1 (proj2 (validateCircularCoRuns_findings cyclicRules))
             cyclicRules_overlapping).
Defined.

(** C3, as the specification words it, fails: the engine tells co-run
    rules apart by their id.  Three rules that group T1 with T2, T2 with T3
    and T3 with T1 under one and the same id are never related to one
    another, and the check appends nothing. *)
Lemma validateCircularCoRuns_same_id_rules_silent :
  map tasksOf (List.filter isCoRun sameIdRules)
  = [["T1"; "T2"]; ["T2"; "T3"]; ["T3"; "T1"]]
  /\ validateCircularCoRuns sameIdRules [] = Returned (tt, []).
Proof. split; by vm_compute. Qed.

(** * Further properties of the engine and of its caller *)

(** ** Required fields *)

Lemma validateRequiredFields_appends clientsData workersData tasksData :
  appends (validateRequiredFields clientsData workersData tasksData) tt
    (flat_map (fun client =>
       map (missingClientField client) (missingClientFields client))
       clientsData
     ++ flat_map (fun worker =>
          map (missingWorkerField worker) (missingWorkerFields worker))
          workersData
     ++ flat_map (fun task =>
          map (missingTaskField task) (missingTaskFields task)) tasksData).
Proof.
  unfold validateRequiredFields.
  eapply appends_bind; [|eapply appends_bind].
  - apply appends_forEach. intros client _.
    unfold missingClientFields. rewrite <- flat_map_when.
    apply appends_forEach. intros field _.
    apply appends_when. intros _. apply appends_push.
  - apply appends_forEach. intros worker _.
    unfold missingWorkerFields. rewrite <- flat_map_when.
    apply appends_forEach. intros field _.
    apply appends_when. intros _. apply appends_push.
  - apply appends_forEach. intros task _.
    unfold missingTaskFields. rewrite <- flat_map_when.
    apply appends_forEach. intros field _.
    apply appends_when. intros _. apply appends_push.
Qed.

Lemma present_truthy o : present o <-> Js.truthy o = true.
Proof.
  unfold present, Js.truthy. destruct o as [s|].
  - rewrite negb_true_iff, String.eqb_neq. naive_solver.
  - naive_solver.
Qed.

Lemma ofString_falsy o : falsy (ofString o) = negb (Js.truthy o).
Proof. destruct o; simpl; by rewrite ?negb_involutive. Qed.

Lemma ofArray_missing {A} (o : option (list A)) :
  falsy (ofArray o) || isEmptyArray (ofArray o) = false <-> nonEmptyList o.
Proof.
  unfold nonEmptyList, Js.len. destruct o as [[|x l]|]; simpl.
  - naive_solver.
  - split; [eauto | done].
  - naive_solver.
Qed.

Lemma number_falsy n : falsy (VNumber n) = false <-> n <> 0.
Proof. simpl. apply Z.eqb_neq. Qed.

Lemma missingClientFields_nil client :
  missingClientFields client = [] <-> clientHasRequired client.
Proof.
  unfold missingClientFields, clientHasRequired, requiredClientFields.
  rewrite !present_truthy.
  cbn [List.filter]. unfold clientField. simpl String.eqb. cbv iota.
  rewrite !ofString_falsy.
  destruct (Js.truthy (ClientID client)), (Js.truthy (ClientName client));
    simpl; destruct (Z.eqb_spec (PriorityLevel client) 0); naive_solver.
Qed.

Lemma ofString_missing o :
  falsy (ofString o) || isEmptyArray (ofString o) = negb (Js.truthy o).
Proof. destruct o; simpl; by rewrite ?negb_involutive, ?orb_false_r. Qed.

Lemma number_missing n :
  falsy (VNumber n) || isEmptyArray (VNumber n) = (n =? 0).
Proof. simpl. by rewrite orb_false_r. Qed.

Lemma missingWorkerFields_nil worker :
  missingWorkerFields worker = [] <-> workerHasRequired worker.
Proof.
  unfold missingWorkerFields, workerHasRequired, requiredWorkerFields.
  rewrite !present_truthy, <- !ofArray_missing.
  cbn [List.filter]. unfold workerField. simpl String.eqb. cbv iota.
  rewrite !ofString_missing, number_missing.
  destruct (Js.truthy (WorkerID worker)), (Js.truthy (WorkerName worker));
    simpl;
    destruct (falsy (ofArray (Skills worker))
              || isEmptyArray (ofArray (Skills worker)));
    destruct (falsy (ofArray (AvailableSlots worker))
              || isEmptyArray (ofArray (AvailableSlots worker)));
    destruct (Z.eqb_spec (MaxLoadPerPhase worker) 0); naive_solver.
Qed.

Lemma missingTaskFields_nil task :
  missingTaskFields task = [] <-> taskHasRequired task.
Proof.
  unfold missingTaskFields, taskHasRequired, requiredTaskFields.
  rewrite !present_truthy, <- !ofArray_missing.
  cbn [List.filter]. unfold taskField. simpl String.eqb. cbv iota.
  rewrite !ofString_missing, number_missing.
  destruct (Js.truthy (TaskID task)), (Js.truthy (TaskName task)); simpl;
    destruct (falsy (ofArray (RequiredSkills task))
              || isEmptyArray (ofArray (RequiredSkills task)));
    destruct (Z.eqb_spec (Duration task) 0); naive_solver.
Qed.

Lemma flat_map_nil_iff {A B} (f : A -> list B) (xs : list A) :
  flat_map f xs = [] <-> Forall (fun x => f x = []) xs.
Proof.
  induction xs as [|x xs IH]; simpl.
  - split; [constructor | done].
  - rewrite Forall_cons, <- IH. split.
    + by intros [? ?]%app_eq_nil.
    + by intros [-> ->].
Qed.

Lemma flat_map_length_le {A B} (f : A -> list B) (xs : list A) n :
  (forall x, length (f x) <= n)%nat ->
  (length (flat_map f xs) <= n * length xs)%nat.
Proof.
  intros H. induction xs as [|x xs IH]; simpl; [lia|].
  rewrite length_app. specialize (H x). lia.
Qed.

Lemma map_nil_iff {A B} (f : A -> B) (xs : list A) :
  map f xs = [] <-> xs = [].
Proof. by destruct xs. Qed.

(** X1.  The required-field check never throws, whatever the records
    lack.  It appends at most three findings per client, five per worker
    and four per task, and it appends none exactly when every client has a
    non-empty ID and name and a priority other than 0, every worker a
    non-empty ID, name, skill list and slot list and a load other than 0,
    and every task a non-empty ID, name and list of required skills and a
    duration other than 0. *)
Theorem validateRequiredFields_silent_iff_complete
    (clientsData : list ClientData) (workersData : list WorkerData)
    (tasksData : list TaskData) :
  exists out,
    appends (validateRequiredFields clientsData workersData tasksData) tt out
    /\ (length out <= 3 * length clientsData + 5 * length workersData
                      + 4 * length tasksData)%nat
    /\ (out = [] <-> Forall clientHasRequired clientsData
                     /\ Forall workerHasRequired workersData
                     /\ Forall taskHasRequired tasksData).
Proof.
  eexists. split; [apply validateRequiredFields_appends|]. split.
  - rewrite !length_app.
    pose proof (flat_map_length_le
      (fun client => map (missingClientField client)
                       (missingClientFields client)) clientsData 3) as Hc.
    pose proof (flat_map_length_le
      (fun worker => map (missingWorkerField worker)
                       (missingWorkerFields worker)) workersData 5) as Hw.
    pose proof (flat_map_length_le
      (fun task => map (missingTaskField task)
                     (missingTaskFields task)) tasksData 4) as Ht.
    assert (forall {A} (f : A -> bool) l, (length (List.filter f l)
                                            <= length l)%nat) as Hf
      by (intros; apply List.filter_length_le).
    lapply Hc; [|intros x; rewrite length_map; apply Hf].
    lapply Hw; [|intros x; rewrite length_map; apply Hf].
    lapply Ht; [|intros x; rewrite length_map; apply Hf].
    lia.
  - split.
    + intros H. apply app_eq_nil in H as [Hc H].
      apply app_eq_nil in H as [Hw Ht].
      apply flat_map_nil_iff in Hc. apply flat_map_nil_iff in Hw.
      apply flat_map_nil_iff in Ht. split_and!.
      * eapply Forall_impl; [exact Hc|]. intros c Hx.
        by apply missingClientFields_nil, (map_nil_iff (missingClientField c)).
      * eapply Forall_impl; [exact Hw|]. intros w Hx.
        by apply missingWorkerFields_nil, (map_nil_iff (missingWorkerField w)).
      * eapply Forall_impl; [exact Ht|]. intros t Hx.
        by apply missingTaskFields_nil, (map_nil_iff (missingTaskField t)).
    + intros (Hc & Hw & Ht).
      assert (forall {A B} (f : A -> list B) xs,
                Forall (fun x => f x = []) xs -> flat_map f xs = []) as Hnil
        by (intros; by apply flat_map_nil_iff).
      rewrite !Hnil; [done|..].
      * eapply Forall_impl; [exact Ht|]. intros t Hx.
        by apply missingTaskFields_nil in Hx as ->.
      * eapply Forall_impl; [exact Hw|]. intros w Hx.
        by apply missingWorkerFields_nil in Hx as ->.
      * eapply Forall_impl; [exact Hc|]. intros c Hx.
        by apply missingClientFields_nil in Hx as ->.
Qed.

Lemma strOr_falsy o d : Js.truthy o = false -> Js.strOr o d = d.
Proof.
  unfold Js.truthy, Js.strOr. destruct o as [s|]; [|done].
  rewrite negb_false_iff. by intros ->.
Qed.

Lemma elem_of_flat_map_map {A B C} (f : A -> B -> C) (g : A -> list B)
    (xs : list A) x y :
  x ∈ xs -> y ∈ g x -> f x y ∈ flat_map (fun x => map (f x) (g x)) xs.
Proof.
  intros Hx Hy. apply list_elem_of_In, in_flat_map. exists x.
  split; [by apply list_elem_of_In|]. apply in_map. by apply list_elem_of_In.
Qed.

(** X2.  A record whose primary key is unset or empty, which the
    duplicate check leaves out, is reported by the required-field check:
    the finding for the key field is appended, under the id built with the
    placeholder "unknown". *)
Theorem validateRequiredFields_reports_missing_keys
    (clientsData : list ClientData) (workersData : list WorkerData)
    (tasksData : list TaskData) :
  exists out,
    appends (validateRequiredFields clientsData workersData tasksData) tt out
    /\ (forall client, client ∈ clientsData ->
          Js.truthy (ClientID client) = false ->
          missingClientField client "ClientID" ∈ out
          /\ ValidationError.id (missingClientField client "ClientID")
             = "client-unknown-missing-ClientID")
    /\ (forall worker, worker ∈ workersData ->
          Js.truthy (WorkerID worker) = false ->
          missingWorkerField worker "WorkerID" ∈ out
          /\ ValidationError.id (missingWorkerField worker "WorkerID")
             = "worker-unknown-missing-WorkerID")
    /\ (forall task, task ∈ tasksData ->
          Js.truthy (TaskID task) = false ->
          missingTaskField task "TaskID" ∈ out
          /\ ValidationError.id (missingTaskField task "TaskID")
             = "task-unknown-missing-TaskID").
Proof.
  eexists. split; [apply validateRequiredFields_appends|]. split_and!.
  - intros client Hin Hkey. split.
    + apply elem_of_app. left.
      apply (elem_of_flat_map_map missingClientField); [done|].
      apply list_elem_of_In, filter_In. split; [by left|].
      unfold clientField. simpl String.eqb. cbv iota.
      by rewrite ofString_falsy, Hkey.
    + simpl. by rewrite strOr_falsy.
  - intros worker Hin Hkey. split.
    + apply elem_of_app. right. apply elem_of_app. left.
      apply (elem_of_flat_map_map missingWorkerField); [done|].
      apply list_elem_of_In, filter_In. split; [by left|].
      unfold workerField. simpl String.eqb. cbv iota.
      by rewrite ofString_missing, Hkey.
    + simpl. by rewrite strOr_falsy.
  - intros task Hin Hkey. split.
    + apply elem_of_app. right. apply elem_of_app. right.
      apply (elem_of_flat_map_map missingTaskField); [done|].
      apply list_elem_of_In, filter_In. split; [by left|].
      unfold taskField. simpl String.eqb. cbv iota.
      by rewrite ofString_missing, Hkey.
    + simpl. by rewrite strOr_falsy.
Qed.

(** The theorem at records without a key. *)
Lemma validateRequiredFields_reports_missing_keys_witness :
  exists out,
    appends (validateRequiredFields [clientWithoutID] [workerWithoutID]
               [taskWithoutID]) tt out
    /\ missingClientField clientWithoutID "ClientID" ∈ out
    /\ missingWorkerField workerWithoutID "WorkerID" ∈ out
    /\ missingTaskField taskWithoutID "TaskID" ∈ out.
Proof.
  destruct (validateRequiredFields_reports_missing_keys [clientWithoutID]
              [workerWithoutID] [taskWithoutID])
    as (out & Hout & Hc & Hw & Ht).
  exists out. split_and!; [done|..].
  - apply Hc; [left | reflexivity].
  - apply Hw; [left | reflexivity].
  - apply Ht; [left | reflexivity].
Defined.

(** ** Ranges *)

Lemma validateRangeValues_appends clientsData workersData tasksData :
  (forall worker, worker ∈ workersData -> is_Some (AvailableSlots worker)) ->
  appends (validateRangeValues clientsData workersData tasksData) tt
    (flat_map rangeFindingsOfClient clientsData
     ++ flat_map rangeFindingsOfTask tasksData
     ++ flat_map rangeFindingsOfWorker workersData).
Proof.
  intros Hw. unfold validateRangeValues.
  eapply appends_bind; [|eapply appends_bind].
  - apply appends_forEach. intros client _.
    apply appends_when. intros _. apply appends_push.
  - apply appends_forEach. intros task _. unfold rangeFindingsOfTask.
    eapply appends_bind; apply appends_when; intros _; apply appends_push.
  - apply appends_forEach. intros worker Hin.
    destruct (Hw worker Hin) as [slots Hs].
    unfold rangeFindingsOfWorker, slotsOf. rewrite Hs. simpl.
    eapply appends_bind; [apply appends_when; intros _; apply appends_push|].
    eapply appends_bind_pure; [apply appends_deref|].
    apply appends_when. intros _. apply appends_push.
Qed.

Lemma rangeFindingsOfClient_nil client :
  rangeFindingsOfClient client = [] <-> clientInRange client.
Proof.
  unfold rangeFindingsOfClient, clientInRange.
  destruct (Z.ltb_spec (PriorityLevel client) 1),
           (Z.gtb_spec (PriorityLevel client) 5); simpl;
    split; (done || lia).
Qed.

Lemma rangeFindingsOfTask_nil task :
  rangeFindingsOfTask task = [] <-> taskInRange task.
Proof.
  unfold rangeFindingsOfTask, taskInRange.
  destruct (Z.ltb_spec (Duration task) 1),
           (Z.ltb_spec (MaxConcurrent task) 1); simpl;
    split; (done || lia).
Qed.

Lemma rangeFindingsOfWorker_nil worker :
  rangeFindingsOfWorker worker = [] <-> workerInRange worker.
Proof.
  unfold rangeFindingsOfWorker, workerInRange.
  assert (Hslots : existsb (fun slot => slot <? 1) (slotsOf worker) = false
                   <-> forall slot, slot ∈ slotsOf worker -> 1 <= slot).
  { rewrite <- not_true_iff_false, existsb_exists. split.
    - intros H slot Hin. destruct (Z.ltb_spec slot 1); [|done].
      exfalso. apply H. exists slot. split; [by apply list_elem_of_In|].
      by apply Z.ltb_lt.
    - intros H (slot & Hin & Hlt). apply list_elem_of_In, H in Hin.
      apply Z.ltb_lt in Hlt. lia. }
  destruct (Z.ltb_spec (MaxLoadPerPhase worker) 1); simpl.
  - split; [done | lia].
  - destruct (existsb _ _); split; try done.
    + intros [_ H']. by apply Hslots in H'.
    + intros _. split; [done|]. by apply Hslots.
Qed.

(** X3.  For workers that carry their slots, the range check returns,
    and it appends nothing exactly when every priority lies between 1 and
    5, every duration, maximal concurrency and maximal load is at least 1,
    and every available slot is at least 1. *)
Theorem validateRangeValues_silent_iff_in_range
    (clientsData : list ClientData) (workersData : list WorkerData)
    (tasksData : list TaskData) :
  (forall worker, worker ∈ workersData -> is_Some (AvailableSlots worker)) ->
  exists out,
    appends (validateRangeValues clientsData workersData tasksData) tt out
    /\ (out = [] <-> Forall clientInRange clientsData
                     /\ Forall taskInRange tasksData
                     /\ Forall workerInRange workersData).
Proof.
  intros Hw. eexists. split; [by apply validateRangeValues_appends|].
  rewrite !app_nil, !flat_map_nil_iff.
  rewrite (Forall_iff _ clientsData clientInRange)
    by (intros c; apply rangeFindingsOfClient_nil).
  rewrite (Forall_iff _ tasksData taskInRange)
    by (intros t; apply rangeFindingsOfTask_nil).
  by rewrite (Forall_iff _ workersData workerInRange)
    by (intros w; apply rangeFindingsOfWorker_nil).
Qed.

(** The theorem at the three sample workers. *)
Lemma validateRangeValues_silent_iff_in_range_witness :
  exists out,
    appends (validateRangeValues [sampleClient] twoWithX [taskNeedingThree])
      tt out
    /\ (out = [] <-> Forall clientInRange [sampleClient]
                     /\ Forall taskInRange [taskNeedingThree]
                     /\ Forall workerInRange twoWithX).
Proof.
  apply (validateRangeValues_silent_iff_in_range [sampleClient] twoWithX
           [taskNeedingThree]).
  intros w Hin. repeat (apply elem_of_cons in Hin as [-> | Hin];
    [by eexists|]). by apply elem_of_nil in Hin.
Defined.

Lemma elem_of_flat_map_intro {A B} (f : A -> list B) (xs : list A) x y :
  x ∈ xs -> y ∈ f x -> y ∈ flat_map f xs.
Proof.
  intros Hx Hy. apply list_elem_of_In, in_flat_map. exists x.
  split; by apply list_elem_of_In.
Qed.

(** X4.  A numeric field that is zero is reported twice: the
    required-field check takes the zero for a missing value, and the range
    check reports it as out of range.  This holds for a client's priority,
    a task's duration and a worker's maximal load. *)
Theorem zero_reported_as_missing_and_out_of_range
    (clientsData : list ClientData) (workersData : list WorkerData)
    (tasksData : list TaskData) :
  (forall worker, worker ∈ workersData -> is_Some (AvailableSlots worker)) ->
  exists missing outOfRange,
    appends (validateRequiredFields clientsData workersData tasksData)
      tt missing
    /\ appends (validateRangeValues clientsData workersData tasksData)
         tt outOfRange
    /\ (forall client, client ∈ clientsData -> PriorityLevel client = 0 ->
          missingClientField client "PriorityLevel" ∈ missing
          /\ invalidPriority client ∈ outOfRange)
    /\ (forall task, task ∈ tasksData -> Duration task = 0 ->
          missingTaskField task "Duration" ∈ missing
          /\ invalidDuration task ∈ outOfRange)
    /\ (forall worker, worker ∈ workersData -> MaxLoadPerPhase worker = 0 ->
          missingWorkerField worker "MaxLoadPerPhase" ∈ missing
          /\ invalidLoad worker ∈ outOfRange).
Proof.
  intros Hw. eexists _, _.
  split; [apply validateRequiredFields_appends|].
  split; [by apply validateRangeValues_appends|]. split_and!.
  - intros client Hin Hzero. split.
    + apply elem_of_app. left.
      apply (elem_of_flat_map_map missingClientField); [done|].
      apply list_elem_of_In, filter_In. split; [simpl; tauto|].
      unfold clientField. simpl String.eqb. cbv iota. by rewrite Hzero.
    + apply elem_of_app. left.
      apply (elem_of_flat_map_intro _ _ client); [done|].
      unfold rangeFindingsOfClient. rewrite Hzero. simpl. by left.
  - intros task Hin Hzero. split.
    + apply elem_of_app. right. apply elem_of_app. right.
      apply (elem_of_flat_map_map missingTaskField); [done|].
      apply list_elem_of_In, filter_In. split; [simpl; tauto|].
      unfold taskField. simpl String.eqb. cbv iota. by rewrite Hzero.
    + apply elem_of_app. right. apply elem_of_app. left.
      apply (elem_of_flat_map_intro _ _ task); [done|].
      unfold rangeFindingsOfTask. rewrite Hzero. simpl. by left.
  - intros worker Hin Hzero. split.
    + apply elem_of_app. right. apply elem_of_app. left.
      apply (elem_of_flat_map_map missingWorkerField); [done|].
      apply list_elem_of_In, filter_In. split; [simpl; tauto|].
      unfold workerField. simpl String.eqb. cbv iota. by rewrite Hzero.
    + apply elem_of_app. right. apply elem_of_app. right.
      apply (elem_of_flat_map_intro _ _ worker); [done|].
      unfold rangeFindingsOfWorker. rewrite Hzero. simpl. by left.
Qed.

(** The theorem at records whose numeric fields are zero. *)
Lemma zero_reported_as_missing_and_out_of_range_witness :
  exists missing outOfRange,
    appends (validateRequiredFields [clientWithoutID] [workerWithoutID]
               [taskWithoutID]) tt missing
    /\ appends (validateRangeValues [clientWithoutID] [workerWithoutID]
                  [taskWithoutID]) tt outOfRange
    /\ (missingClientField clientWithoutID "PriorityLevel" ∈ missing
        /\ invalidPriority clientWithoutID ∈ outOfRange)
    /\ (missingTaskField taskWithoutID "Duration" ∈ missing
        /\ invalidDuration taskWithoutID ∈ outOfRange)
    /\ (missingWorkerField workerWithoutID "MaxLoadPerPhase" ∈ missing
        /\ invalidLoad workerWithoutID ∈ outOfRange).
Proof.
  destruct (zero_reported_as_missing_and_out_of_range [clientWithoutID]
              [workerWithoutID] [taskWithoutID])
    as (missing & outOfRange & H1 & H2 & Hc & Ht & Hw).
  - intros w Hin. apply list_elem_of_singleton in Hin as ->. by eexists.
  - exists missing, outOfRange.
    split; [done|]. split; [done|]. split; [|split].
    + apply Hc; [left | reflexivity].
    + apply Ht; [left | reflexivity].
    + apply Hw; [left | reflexivity].
Defined.

(** ** Severities *)

Section PushesOnly.

Variable P : ValidationError.t -> Prop.

Lemma pushesOnly_ret {A} (a : A) : pushesOnly P (ret a).
Proof.
  intros errors a' errors' [= <- <-]. exists [].
  by rewrite app_nil_r.
Qed.

Lemma pushesOnly_push e : P e -> pushesOnly P (push e).
Proof.
  intros He errors a errors' [= <- <-]. exists [e].
  split; [done | by constructor].
Qed.

Lemma pushesOnly_throw {A} : pushesOnly P (@throw A).
Proof. by intros errors a errors'. Qed.

Lemma pushesOnly_deref {A} (o : option A) : pushesOnly P (deref o).
Proof. destruct o; [apply pushesOnly_ret | apply pushesOnly_throw]. Qed.

Lemma pushesOnly_bind {A B} (m : M A) (k : A -> M B) :
  pushesOnly P m -> (forall a, pushesOnly P (k a)) -> pushesOnly P (bind m k).
Proof.
  intros Hm Hk errors b errors'. unfold bind.
  destruct (m errors) as [[a errors1]| |] eqn:E; [|done..]. intros Hb.
  destruct (Hm _ _ _ E) as (out1 & -> & H1).
  destruct (Hk a _ _ _ Hb) as (out2 & -> & H2).
  exists (out1 ++ out2). split; [by rewrite app_assoc|].
  by apply Forall_app.
Qed.

Lemma pushesOnly_when c m : pushesOnly P m -> pushesOnly P (when c m).
Proof. destruct c; [done | intros _; apply pushesOnly_ret]. Qed.

Lemma pushesOnly_forEach {A} (xs : list A) body :
  (forall x, pushesOnly P (body x)) -> pushesOnly P (forEach xs body).
Proof.
  intros H. induction xs as [|x xs IH]; simpl.
  - apply pushesOnly_ret.
  - apply pushesOnly_bind; [apply H | by intros _].
Qed.

Lemma pushesOnly_filterM {A} (p : A -> M bool) xs :
  (forall x, pushesOnly P (p x)) -> pushesOnly P (filterM p xs).
Proof.
  intros H. induction xs as [|x xs IH]; simpl.
  - apply pushesOnly_ret.
  - apply pushesOnly_bind; [apply H | intros b].
    apply pushesOnly_bind; [apply IH | intros r]. apply pushesOnly_ret.
Qed.

Lemma pushesOnly_everyM {A} (p : A -> M bool) xs :
  (forall x, pushesOnly P (p x)) -> pushesOnly P (everyM p xs).
Proof.
  intros H. induction xs as [|x xs IH]; simpl.
  - apply pushesOnly_ret.
  - apply pushesOnly_bind; [apply H | intros b].
    destruct b; [apply IH | apply pushesOnly_ret].
Qed.

Lemma pushesOnly_foldM {S A} (step : S -> A -> M S) xs acc :
  (forall acc x, pushesOnly P (step acc x)) ->
  pushesOnly P (foldM step xs acc).
Proof.
  intros H. revert acc. induction xs as [|x xs IH]; intros acc; simpl.
  - apply pushesOnly_ret.
  - apply pushesOnly_bind; [apply H | intros acc']. apply IH.
Qed.

Lemma pushesOnly_appends {A} (m : M A) a out :
  appends m a out -> Forall P out -> pushesOnly P m.
Proof.
  intros Hm Hout errors a' errors'. rewrite Hm. intros [= <- <-].
  by exists out.
Qed.

Lemma returns_pushesOnly (m : M unit) :
  returns m -> pushesOnly P m ->
  exists out, appends m tt out /\ Forall P out.
Proof.
  intros Hr HP. destruct (returns_unit _ Hr) as [out Hout].
  exists out. split; [done|].
  destruct (HP [] tt ([] ++ out) (Hout [])) as (out' & E & Hout').
  simpl in E. by subst.
Qed.

End PushesOnly.

(** Decomposes a goal [pushesOnly P m] along the combinators of [m]; the
    findings pushed are records, whose severity is read off. *)
Ltac pushes_step :=
  first
    [ apply pushesOnly_ret | apply pushesOnly_push; reflexivity
    | apply pushesOnly_throw | apply pushesOnly_deref
    | apply pushesOnly_when
    | apply pushesOnly_bind; [|intros ?]
    | apply pushesOnly_forEach; intros ?
    | apply pushesOnly_filterM; intros ?
    | apply pushesOnly_everyM; intros ?
    | apply pushesOnly_foldM; intros ? ?
    | match goal with
      | |- pushesOnly _ (match ?x with _ => _ end) => destruct x
      | |- pushesOnly _ (let _ := _ in _) => cbv zeta
      end ].

Ltac pushes_tac := repeat pushes_step.

Lemma validateRequiredFields_errors clientsData workersData tasksData :
  pushesOnly isError (validateRequiredFields clientsData workersData tasksData).
Proof. unfold validateRequiredFields. pushes_tac. Qed.

Lemma validateDuplicateIds_errors clientsData workersData tasksData :
  pushesOnly isError (validateDuplicateIds clientsData workersData tasksData).
Proof. unfold validateDuplicateIds. pushes_tac. Qed.

Lemma validateMalformedLists_errors clientsData workersData tasksData :
  pushesOnly isError (validateMalformedLists clientsData workersData tasksData).
Proof. unfold validateMalformedLists. pushes_tac. Qed.

Lemma validateRangeValues_errors clientsData workersData tasksData :
  pushesOnly isError (validateRangeValues clientsData workersData tasksData).
Proof. unfold validateRangeValues. pushes_tac. Qed.

Lemma validateJSONFields_errors JSON_parses clientsData :
  pushesOnly isError (validateJSONFields JSON_parses clientsData).
Proof. unfold validateJSONFields. pushes_tac. Qed.

Lemma validateReferences_errors clientsData workersData tasksData :
  pushesOnly isError (validateReferences clientsData workersData tasksData).
Proof. unfold validateReferences. pushes_tac. Qed.

Lemma validateCircularCoRuns_errors businessRules :
  pushesOnly isError (validateCircularCoRuns businessRules).
Proof.
  destruct (validateCircularCoRuns_appends businessRules) as (outs & H & Hs).
  eapply pushesOnly_appends; [done|]. clear H.
  induction Hs as [|rule out rules outs Hout _ IH]; simpl; [constructor|].
  apply Forall_app. split; [|done].
  destruct Hout as [E | (t & _ & E)]; rewrite E; by repeat constructor.
Qed.

Lemma validateRuleConflicts_errors businessRules tasksData :
  pushesOnly isError (validateRuleConflicts businessRules tasksData).
Proof.
  unfold validateRuleConflicts, checkCoRunRule, reduceCommon, commonWith.
  pushes_tac.
Qed.

Lemma validateWorkerOverload_warnings workersData :
  pushesOnly isWarning (validateWorkerOverload workersData).
Proof. unfold validateWorkerOverload. pushes_tac. Qed.

Lemma validatePhaseSlotSaturation_warnings workersData tasksData :
  pushesOnly isWarning (validatePhaseSlotSaturation workersData tasksData).
Proof. unfold validatePhaseSlotSaturation. pushes_tac. Qed.

Lemma validateSkillCoverage_warnings workersData tasksData :
  pushesOnly isWarning (validateSkillCoverage workersData tasksData).
Proof. unfold validateSkillCoverage. pushes_tac. Qed.

Lemma validateMaxConcurrencyFeasibility_warnings workersData tasksData :
  pushesOnly isWarning
    (validateMaxConcurrencyFeasibility workersData tasksData).
Proof.
  unfold validateMaxConcurrencyFeasibility, checkTaskConcurrency. pushes_tac.
Qed.

Lemma runChecks_errors_then_warnings JSON_parses clientsData workersData
    tasksData businessRules :
  Forall clientComplete clientsData ->
  Forall workerComplete workersData ->
  Forall taskComplete tasksData ->
  exists errs warns,
    appends
      (runChecks JSON_parses clientsData workersData tasksData businessRules)
      tt (errs ++ warns)
    /\ Forall isError errs
    /\ Forall isWarning warns.
Proof.
  intros Hc Hw Ht.
  destruct (returns_pushesOnly isError _
    (validateRequiredFields_returns clientsData workersData tasksData)
    (validateRequiredFields_errors _ _ _)) as (o1 & H1 & P1).
  destruct (validateDuplicateIds_appends clientsData workersData tasksData)
    as [o2 H2].
  destruct (returns_pushesOnly isError _ (returns_appends _ _ _ H2)
    (validateDuplicateIds_errors _ _ _)) as (o2' & H2' & P2).
  destruct (returns_pushesOnly isError _
    (validateMalformedLists_returns clientsData workersData tasksData Hw Ht)
    (validateMalformedLists_errors _ _ _)) as (o3 & H3 & P3).
  destruct (returns_pushesOnly isError _
    (validateRangeValues_returns clientsData workersData tasksData Hw)
    (validateRangeValues_errors _ _ _)) as (o4 & H4 & P4).
  destruct (returns_pushesOnly isError _
    (validateJSONFields_returns JSON_parses clientsData)
    (validateJSONFields_errors _ _)) as (o5 & H5 & P5).
  destruct (returns_pushesOnly isError _
    (validateReferences_returns clientsData workersData tasksData Hc)
    (validateReferences_errors _ _ _)) as (o6 & H6 & P6).
  destruct (validateCircularCoRuns_appends businessRules) as (o7 & H7 & _).
  destruct (returns_pushesOnly isError _ (returns_appends _ _ _ H7)
    (validateCircularCoRuns_errors _)) as (o7' & H7' & P7).
  destruct (returns_pushesOnly isError _
    (validateRuleConflicts_returns businessRules tasksData Ht)
    (validateRuleConflicts_errors _ _)) as (o8 & H8 & P8).
  destruct (returns_pushesOnly isWarning _
    (validateWorkerOverload_returns workersData Hw)
    (validateWorkerOverload_warnings _)) as (o9 & H9 & P9).
  destruct (returns_pushesOnly isWarning _
    (validatePhaseSlotSaturation_returns workersData tasksData Hw Ht)
    (validatePhaseSlotSaturation_warnings _ _)) as (o10 & H10 & P10).
  destruct (returns_pushesOnly isWarning _
    (validateSkillCoverage_returns workersData tasksData Hw Ht)
    (validateSkillCoverage_warnings _ _)) as (o11 & H11 & P11).
  destruct (returns_pushesOnly isWarning _
    (validateMaxConcurrencyFeasibility_returns workersData tasksData Hw Ht)
    (validateMaxConcurrencyFeasibility_warnings _ _)) as (o12 & H12 & P12).
  exists (o1 ++ o2' ++ o3 ++ o4 ++ o5 ++ o6 ++ o7' ++ o8),
         (o9 ++ o10 ++ o11 ++ o12).
  split_and!.
  - rewrite <- !app_assoc.
    by apply (runChecks_appends JSON_parses clientsData workersData tasksData
                businessRules).
  - by rewrite !Forall_app.
  - by rewrite !Forall_app.
Qed.


(** X5.  The findings come out ordered by severity.  For records that
    carry their lists, [runValidations] returns a list made of errors only
    (what checks 1 to 8 append) followed by warnings only (what checks 9 to
    12 append): no error ever follows a warning. *)
Theorem runValidations_errors_before_warnings
    (JSON_parses : string -> bool)
    (clientsData : list ClientData) (workersData : list WorkerData)
    (tasksData : list TaskData) (businessRules : list BusinessRule.t) :
  Forall clientComplete clientsData ->
  Forall workerComplete workersData ->
  Forall taskComplete tasksData ->
  exists errs warns,
    runValidations JSON_parses clientsData workersData tasksData businessRules
    = Returned (errs ++ warns)
    /\ Forall isError errs
    /\ Forall isWarning warns.
Proof.
  intros Hc Hw Ht.
  destruct (runChecks_errors_then_warnings JSON_parses clientsData workersData
              tasksData businessRules Hc Hw Ht)
    as (errs & warns & H & Herrs & Hwarns).
  exists errs, warns. split; [|done].
  unfold runValidations. by rewrite (H []).
Qed.

(** The theorem at one client, two workers and one task. *)
Lemma runValidations_errors_before_warnings_witness :
  exists errs warns,
    runValidations (fun _ => true) [sampleClient] twoWithX [taskNeedingThree]
      cyclicRules
    = Returned (errs ++ warns)
    /\ Forall isError errs
    /\ Forall isWarning warns.
Proof.
  apply (runValidations_errors_before_warnings (fun _ => true)
           [sampleClient] twoWithX [taskNeedingThree] cyclicRules).
  - repeat constructor; by eexists.
  - repeat constructor; by eexists.
  - repeat constructor; by eexists.
Defined.

(** ** The score of the panel *)

Lemma errorCount_nonneg errors : 0 <= errorCount errors.
Proof. unfold errorCount, Js.len. lia. Qed.

Lemma errorCount_app errors1 errors2 :
  errorCount (errors1 ++ errors2) = errorCount errors1 + errorCount errors2.
Proof.
  unfold errorCount, Js.len. rewrite List.filter_app, length_app. lia.
Qed.

Lemma errorCount_warnings warns :
  Forall isWarning warns -> errorCount warns = 0.
Proof.
  unfold errorCount, Js.len. induction 1 as [|w warns Hw _ IH]; [done|].
  simpl. rewrite bool_decide_eq_false_2; [done|].
  unfold isWarning in Hw. by rewrite Hw.
Qed.

Lemma errorCount_errors errs :
  Forall isError errs -> errorCount errs = Js.len errs.
Proof.
  unfold errorCount, Js.len. induction 1 as [|e errs He _ IH]; [done|].
  simpl. rewrite bool_decide_eq_true_2 by done. simpl. lia.
Qed.

Lemma errorCount_filter errors :
  errorCount
    (List.filter (fun e => bool_decide (ValidationError.type e = error))
       errors)
  = errorCount errors.
Proof.
  unfold errorCount. f_equal.
  induction errors as [|e errors IH]; [done|]. simpl.
  case_bool_decide as He; simpl; [|done].
  rewrite bool_decide_eq_true_2 by done. by rewrite IH.
Qed.

(** The score as a function of the number of errors. *)
Lemma score_of_count (n : Z) :
  0 <= n ->
  let score := Z.max 0 (roundDiv ((12 - n) * 100) 12) in
  0 <= score <= 100 /\ (score = 100 <-> n = 0) /\ (score = 0 <-> 12 <= n).
Proof.
  intros Hn. unfold roundDiv.
  destruct (Z_lt_le_dec n 12) as [Hlt | Hge].
  - assert (Hk : exists k : nat, n = Z.of_nat k /\ (k < 12)%nat)
      by (exists (Z.to_nat n); lia).
    destruct Hk as (k & -> & Hk).
    do 12 (destruct k as [|k];
           [vm_compute; split_and!; (done || lia || (split; (done || lia)))|]).
    lia.
  - assert ((2 * ((12 - n) * 100) + 12) / (2 * 12) <= 0).
    { apply Z.lt_succ_r, Z.div_lt_upper_bound; lia. }
    simpl. rewrite Z.max_l by done. lia.
Qed.

(** X6.  The score shown by the panel lies between 0 and 100; it is 100
    exactly when the findings hold no error and 0 exactly when they hold
    twelve errors or more, whatever the checks that raised them; warnings
    do not count, and more errors never give a higher score. *)
Theorem getValidationScore_range (errors : list ValidationError.t) :
  0 <= getValidationScore errors <= 100
  /\ (getValidationScore errors = 100 <-> errorCount errors = 0)
  /\ (getValidationScore errors = 0 <-> 12 <= errorCount errors)
  /\ getValidationScore
       (List.filter (fun e => bool_decide (ValidationError.type e = error))
          errors)
     = getValidationScore errors
  /\ (forall errors', errorCount errors <= errorCount errors' ->
        getValidationScore errors' <= getValidationScore errors).
Proof.
  pose proof (score_of_count (errorCount errors) (errorCount_nonneg errors))
    as (Hrange & Hfull & Hzero).
  cbv zeta in Hrange, Hfull, Hzero.
  unfold getValidationScore. cbv zeta.
  split; [exact Hrange|]. split; [exact Hfull|]. split; [exact Hzero|].
  split.
  - by rewrite errorCount_filter.
  - intros errors' Hle. unfold roundDiv.
    apply Z.max_le_compat_l, Z.div_le_mono; lia.
Qed.

(** ** The panel's run *)

Lemma validateCircularCoRuns_no_rules :
  appends (validateCircularCoRuns []) tt [].
Proof. apply appends_ret. Qed.

Lemma validateRuleConflicts_no_rules tasksData :
  appends (validateRuleConflicts [] tasksData) tt [].
Proof. apply appends_ret. Qed.

(** X7.  The panel runs the engine without business rules and swallows
    its failure.  For records that carry their lists the findings on
    display are replaced by what checks 1 to 6 and 9 to 12 append, the two
    rule checks adding nothing; when some record lacks a list the run
    throws, and the findings of the previous run stay on display. *)
Theorem handleValidation_replaces_or_keeps
    (JSON_parses : string -> bool) (errors : list ValidationError.t)
    (clientsData : list ClientData) (workersData : list WorkerData)
    (tasksData : list TaskData) :
  (Forall clientComplete clientsData ->
   Forall workerComplete workersData ->
   Forall taskComplete tasksData ->
   exists o1 o2 o3 o4 o5 o6 o9 o10 o11 o12,
     appends (validateRequiredFields clientsData workersData tasksData) tt o1
     /\ appends (validateDuplicateIds clientsData workersData tasksData) tt o2
     /\ appends (validateMalformedLists clientsData workersData tasksData) tt o3
     /\ appends (validateRangeValues clientsData workersData tasksData) tt o4
     /\ appends (validateJSONFields JSON_parses clientsData) tt o5
     /\ appends (validateReferences clientsData workersData tasksData) tt o6
     /\ appends (validateWorkerOverload workersData) tt o9
     /\ appends (validatePhaseSlotSaturation workersData tasksData) tt o10
     /\ appends (validateSkillCoverage workersData tasksData) tt o11
     /\ appends (validateMaxConcurrencyFeasibility workersData tasksData) tt
          o12
     /\ handleValidation JSON_parses errors clientsData workersData tasksData
        = o1 ++ o2 ++ o3 ++ o4 ++ o5 ++ o6 ++ o9 ++ o10 ++ o11 ++ o12)
  /\ (Exists clientIncomplete clientsData
      \/ Exists workerIncomplete workersData
      \/ Exists taskIncomplete tasksData ->
      handleValidation JSON_parses errors clientsData workersData tasksData
      = errors).
Proof.
  split.
  - intros Hc Hw Ht.
    destruct (returns_unit _
      (validateRequiredFields_returns clientsData workersData tasksData))
      as [o1 H1].
    destruct (validateDuplicateIds_appends clientsData workersData tasksData)
      as [o2 H2].
    destruct (returns_unit _
      (validateMalformedLists_returns clientsData workersData tasksData Hw Ht))
      as [o3 H3].
    destruct (returns_unit _
      (validateRangeValues_returns clientsData workersData tasksData Hw))
      as [o4 H4].
    destruct (returns_unit _
      (validateJSONFields_returns JSON_parses clientsData)) as [o5 H5].
    destruct (returns_unit _
      (validateReferences_returns clientsData workersData tasksData Hc))
      as [o6 H6].
    destruct (returns_unit _ (validateWorkerOverload_returns workersData Hw))
      as [o9 H9].
    destruct (returns_unit _
      (validatePhaseSlotSaturation_returns workersData tasksData Hw Ht))
      as [o10 H10].
    destruct (returns_unit _
      (validateSkillCoverage_returns workersData tasksData Hw Ht))
      as [o11 H11].
    destruct (returns_unit _
      (validateMaxConcurrencyFeasibility_returns workersData tasksData Hw Ht))
      as [o12 H12].
    exists o1, o2, o3, o4, o5, o6, o9, o10, o11, o12.
    split_and!; try done.
    unfold handleValidation, runValidations.
    by rewrite (runChecks_appends JSON_parses clientsData workersData
                  tasksData [] _ _ _ _ _ _ _ _ _ _ _ _
                  H1 H2 H3 H4 H5 H6 validateCircularCoRuns_no_rules
                  (validateRuleConflicts_no_rules tasksData)
                  H9 H10 H11 H12 []).
  - intros Hi. unfold handleValidation, runValidations.
    by rewrite (runChecks_throws JSON_parses clientsData workersData
                  tasksData [] Hi []).
Qed.

(** The theorem at complete records, and at a worker without slots while
    two findings are on display. *)
Lemma handleValidation_replaces_or_keeps_witness :
  (Forall clientComplete [sampleClient]
   /\ Forall workerComplete twoWithX
   /\ Forall taskComplete [taskNeedingThree]
   /\ exists o1 o2 o3 o4 o5 o6 o9 o10 o11 o12,
        appends (validateRequiredFields [sampleClient] twoWithX
                   [taskNeedingThree]) tt o1
        /\ appends (validateDuplicateIds [sampleClient] twoWithX
                      [taskNeedingThree]) tt o2
        /\ appends (validateMalformedLists [sampleClient] twoWithX
                      [taskNeedingThree]) tt o3
        /\ appends (validateRangeValues [sampleClient] twoWithX
                      [taskNeedingThree]) tt o4
        /\ appends (validateJSONFields (fun _ => true) [sampleClient]) tt o5
        /\ appends (validateReferences [sampleClient] twoWithX
                      [taskNeedingThree]) tt o6
        /\ appends (validateWorkerOverload twoWithX) tt o9
        /\ appends (validatePhaseSlotSaturation twoWithX [taskNeedingThree])
             tt o10
        /\ appends (validateSkillCoverage twoWithX [taskNeedingThree]) tt o11
        /\ appends (validateMaxConcurrencyFeasibility twoWithX
                      [taskNeedingThree]) tt o12
        /\ handleValidation (fun _ => true)
             [invalidPriority sampleClient; invalidLoad workerWithoutSlots]
             [sampleClient] twoWithX [taskNeedingThree]
           = o1 ++ o2 ++ o3 ++ o4 ++ o5 ++ o6 ++ o9 ++ o10 ++ o11 ++ o12)
  /\ (Exists workerIncomplete [workerWithoutSlots]
      /\ handleValidation (fun _ => true)
           [invalidPriority sampleClient; invalidLoad workerWithoutSlots]
           [sampleClient] [workerWithoutSlots] [taskNeedingThree]
         = [invalidPriority sampleClient; invalidLoad workerWithoutSlots]).
Proof.
  assert (Hc : Forall clientComplete [sampleClient]).
  { repeat constructor. by eexists. }
  assert (Hw : Forall workerComplete twoWithX).
  { repeat constructor; by eexists. }
  assert (Ht : Forall taskComplete [taskNeedingThree]).
  { repeat constructor; by eexists. }
  assert (Hi : Exists workerIncomplete [workerWithoutSlots]).
  { constructor. by right. }
  split.
  - split_and!; [done..|].
    exact (proj1 (handleValidation_replaces_or_keeps (fun _ => true)
                    [invalidPriority sampleClient;
                     invalidLoad workerWithoutSlots]
                    [sampleClient] twoWithX [taskNeedingThree]) Hc Hw Ht).
  - split; [done|].
    apply (proj2 (handleValidation_replaces_or_keeps (fun _ => true)
                    [invalidPriority sampleClient;
                     invalidLoad workerWithoutSlots]
                    [sampleClient] [workerWithoutSlots] [taskNeedingThree])).
    right. by left.
Defined.

(** ** Business rules *)

Lemma filter_filter_implied {A} (p q : A -> bool) (xs : list A) :
  (forall x, p x = true -> q x = true) ->
  List.filter p (List.filter q xs) = List.filter p xs.
Proof.
  intros H. induction xs as [|x xs IH]; simpl; [done|].
  destruct (q x) eqn:Eq; simpl.
  - by rewrite IH.
  - destruct (p x) eqn:Ep; [|done]. apply H in Ep. congruence.
Qed.

Lemma filter_none {A} (p : A -> bool) (xs : list A) :
  Forall (fun x => p x = false) xs -> List.filter p xs = [].
Proof. induction 1 as [|x xs Hx _ IH]; simpl; [done|]. by rewrite Hx. Qed.

Lemma validateCircularCoRuns_coRun_rules businessRules businessRules' :
  List.filter isCoRun businessRules = List.filter isCoRun businessRules' ->
  validateCircularCoRuns businessRules = validateCircularCoRuns businessRules'.
Proof. unfold validateCircularCoRuns. by intros ->. Qed.

Lemma validateRuleConflicts_examined_rules businessRules businessRules'
    tasksData :
  List.filter isCoRun businessRules = List.filter isCoRun businessRules' ->
  List.filter isPhaseWindow businessRules
  = List.filter isPhaseWindow businessRules' ->
  validateRuleConflicts businessRules tasksData
  = validateRuleConflicts businessRules' tasksData.
Proof. unfold validateRuleConflicts. by intros -> ->. Qed.

Lemma runValidations_examined_rules JSON_parses clientsData workersData
    tasksData businessRules businessRules' :
  List.filter isCoRun businessRules = List.filter isCoRun businessRules' ->
  (List.filter isCoRun businessRules <> [] ->
   List.filter isPhaseWindow businessRules
   = List.filter isPhaseWindow businessRules') ->
  runValidations JSON_parses clientsData workersData tasksData businessRules
  = runValidations JSON_parses clientsData workersData tasksData
      businessRules'.
Proof.
  intros Hc Hp. unfold runValidations, runChecks.
  rewrite (validateCircularCoRuns_coRun_rules _ _ Hc).
  replace (validateRuleConflicts businessRules tasksData)
    with (validateRuleConflicts businessRules' tasksData); [done|].
  destruct (List.filter isCoRun businessRules) as [|r rs] eqn:E.
  - unfold validateRuleConflicts. by rewrite <- Hc, E.
  - symmetry. apply validateRuleConflicts_examined_rules; [by rewrite E|].
    by apply Hp.
Qed.

(** X8.  Of the six types of business rules the engine looks at two.
    Rules of the other types (slot restriction, load limit, pattern match,
    precedence override) never change what [runValidations] answers, and
    without a co-run rule no rule does: phase-window rules are only read
    for the members of co-run rules. *)
Theorem runValidations_examines_two_rule_types
    (JSON_parses : string -> bool)
    (clientsData : list ClientData) (workersData : list WorkerData)
    (tasksData : list TaskData) (businessRules : list BusinessRule.t) :
  runValidations JSON_parses clientsData workersData tasksData businessRules
  = runValidations JSON_parses clientsData workersData tasksData
      (List.filter examined businessRules)
  /\ (Forall (fun rule => BusinessRule.type rule <> coRun) businessRules ->
      runValidations JSON_parses clientsData workersData tasksData
        businessRules
      = runValidations JSON_parses clientsData workersData tasksData []).
Proof.
  split.
  - apply runValidations_examined_rules.
    + symmetry. apply filter_filter_implied. intros r Hr.
      unfold examined. by rewrite Hr.
    + intros _. symmetry. apply filter_filter_implied. intros r Hr.
      unfold examined. rewrite Hr. by destruct (isCoRun r).
  - intros Hno.
    assert (E : List.filter isCoRun businessRules = []).
    { apply filter_none. eapply Forall_impl; [exact Hno|].
      intros r Hr. by apply bool_decide_eq_false_2. }
    apply runValidations_examined_rules; [done|]. by rewrite E.
Qed.

(** The theorem at a phase-window rule and a load limit, without co-run
    rule. *)
Lemma runValidations_examines_two_rule_types_witness :
  runValidations (fun _ => true) [sampleClient] twoWithX [taskNeedingThree]
    [samplePhaseWindow "P" "T1" [3]; sampleLoadLimit]
  = runValidations (fun _ => true) [sampleClient] twoWithX [taskNeedingThree]
      [].
Proof.
  apply (runValidations_examines_two_rule_types (fun _ => true)
           [sampleClient] twoWithX [taskNeedingThree]
           [samplePhaseWindow "P" "T1" [3]; sampleLoadLimit]).
  by repeat constructor.
Defined.

Lemma recordWindow_windowed phaseWindowRules tasksData tasksData' m taskId :
  is_Some (windowRuleFor phaseWindowRules taskId) ->
  recordWindow phaseWindowRules tasksData m taskId
  = recordWindow phaseWindowRules tasksData' m taskId.
Proof.
  intros [phaseRule H]. rewrite !recordWindow_stored. unfold storedWindow.
  by rewrite H.
Qed.

Lemma fold_left_ext_in {A B} (f g : A -> B -> A) (xs : list B) (a : A) :
  (forall a x, x ∈ xs -> f a x = g a x) ->
  fold_left f xs a = fold_left g xs a.
Proof.
  revert a. induction xs as [|x xs IH]; intros a H; simpl; [done|].
  rewrite H by left. apply IH. intros a' y Hy. apply H. by right.
Qed.

Lemma forEach_ext_in {A} (xs : list A) (body body' : A -> M unit) :
  (forall x, x ∈ xs -> body x = body' x) ->
  forEach xs body = forEach xs body'.
Proof.
  induction xs as [|x xs IH]; intros H; simpl; [done|].
  rewrite H by left. rewrite IH; [done|]. intros y Hy. apply H. by right.
Qed.

(** X9.  An explicit window overrides the records.  When every member of
    every co-run rule is named by a phase-window rule, the conflict check
    never consults the tasks: it returns, and appends the same findings,
    whatever the task records are, even records without preferred
    phases. *)
Theorem validateRuleConflicts_windows_override_tasks
    (businessRules : list BusinessRule.t) :
  everyMemberWindowed businessRules ->
  exists out,
    forall tasksData,
      appends (validateRuleConflicts businessRules tasksData) tt out.
Proof.
  intros Hall.
  destruct (returns_unit _
    (validateRuleConflicts_returns businessRules [] (Forall_nil_2 _)))
    as [out Hout].
  exists out. intros tasksData.
  replace (validateRuleConflicts businessRules tasksData)
    with (validateRuleConflicts businessRules []); [done|].
  unfold validateRuleConflicts. apply forEach_ext_in. intros rule Hrule.
  unfold checkCoRunRule.
  rewrite (fold_left_ext_in
             (recordWindow (List.filter isPhaseWindow businessRules) [])
             (recordWindow (List.filter isPhaseWindow businessRules)
                tasksData)); [done|].
  intros m taskId Hin. apply recordWindow_windowed.
  by apply (Hall rule taskId).
Qed.

(** The theorem at a pair of tasks with disjoint windows: the conflict is
    reported also when a task record lacks its preferred phases. *)
Lemma validateRuleConflicts_windows_override_tasks_witness :
  everyMemberWindowed windowedRules
  /\ exists out,
       appends (validateRuleConflicts windowedRules tasksT1T2) tt out
       /\ appends (validateRuleConflicts windowedRules [taskWithoutPhases])
            tt out.
Proof.
  assert (H : everyMemberWindowed windowedRules).
  { intros rule taskId Hrule Hin.
    apply list_elem_of_singleton in Hrule as ->.
    repeat (apply elem_of_cons in Hin as [-> | Hin]; [by eexists|]).
    by apply elem_of_nil in Hin. }
  split; [done|].
  destruct (validateRuleConflicts_windows_override_tasks windowedRules H)
    as [out Hout].
  exists out. split; apply Hout.
Defined.

(** ** Skills and capacities *)

Lemma availableSkills_spec workersData acc skill :
  skill ∈ fold_left
            (fun availableSkills worker =>
               fold_left Js.setAdd (skillsOf worker) availableSkills)
            workersData acc
  <-> skill ∈ acc
      \/ exists worker, worker ∈ workersData /\ skill ∈ skillsOf worker.
Proof.
  revert acc. induction workersData as [|w ws IH]; intros acc; simpl.
  - split; [by left|]. intros [H | (w & Hw & _)]; [done|].
    by apply elem_of_nil in Hw.
  - rewrite IH, fold_setAdd_spec. split.
    + intros [[H | H] | (w' & Hw' & H)].
      * by left.
      * right. exists w. split; [left | done].
      * right. exists w'. split; [by right | done].
    + intros [H | (w' & Hw' & H)]; [by left; left|].
      apply elem_of_cons in Hw' as [-> | Hw']; [by left; right|].
      right. by exists w'.
Qed.

Lemma covered_spec workersData skill :
  covered workersData skill = true
  <-> exists worker, worker ∈ workersData /\ skill ∈ skillsOf worker.
Proof.
  unfold covered. rewrite existsb_exists. split.
  - intros (w & Hw & H). exists w.
    split; [by apply list_elem_of_In | by apply includes_elem_of].
  - intros (w & Hw & H). exists w.
    split; [by apply list_elem_of_In | by apply includes_elem_of].
Qed.

Lemma availableSkills_covered workersData skill :
  Js.includes
    (fold_left
       (fun availableSkills worker =>
          fold_left Js.setAdd (skillsOf worker) availableSkills)
       workersData []) skill
  = covered workersData skill.
Proof.
  apply eq_true_iff_eq.
  rewrite includes_elem_of, availableSkills_spec, covered_spec.
  split; [|by right]. intros [H | H]; [|done]. by apply elem_of_nil in H.
Qed.

Lemma validateSkillCoverage_appends workersData tasksData :
  (forall worker, worker ∈ workersData -> is_Some (Skills worker)) ->
  (forall task, task ∈ tasksData -> is_Some (RequiredSkills task)) ->
  appends (validateSkillCoverage workersData tasksData) tt
    (flat_map
       (fun task => map (missingSkill task) (uncoveredSkills workersData task))
       tasksData).
Proof.
  intros Hw Ht. unfold validateSkillCoverage.
  eapply appends_bind_pure.
  { apply (appends_foldM _
             (fun availableSkills worker =>
                fold_left Js.setAdd (skillsOf worker) availableSkills)).
    intros acc worker Hin. destruct (Hw worker Hin) as [skills Hs].
    unfold skillsOf. rewrite Hs. simpl.
    eapply appends_bind_pure; [apply appends_deref | apply appends_ret]. }
  apply appends_forEach. intros task Hin.
  destruct (Ht task Hin) as [required Hr].
  unfold uncoveredSkills, requiredOf. rewrite Hr. simpl.
  eapply appends_bind_pure; [apply appends_deref|].
  rewrite <- flat_map_when. apply appends_forEach. intros skill _.
  rewrite availableSkills_covered. apply appends_when. intros _.
  apply appends_push.
Qed.

(** X10.  Skill coverage.  For workers that carry their skills and tasks
    that carry their required skills, the check returns and appends, task
    by task, one warning for every entry of the task's required skills
    that no worker lists; a skill that several tasks require, or that a
    task lists twice, is reported each time.  The check is silent exactly
    when every required skill is listed by some worker. *)
Theorem validateSkillCoverage_one_warning_per_uncovered_requirement
    (workersData : list WorkerData) (tasksData : list TaskData) :
  (forall worker, worker ∈ workersData -> is_Some (Skills worker)) ->
  (forall task, task ∈ tasksData -> is_Some (RequiredSkills task)) ->
  exists out,
    appends (validateSkillCoverage workersData tasksData) tt out
    /\ out = flat_map
               (fun task =>
                  map (missingSkill task)
                    (List.filter
                       (fun skill => negb (covered workersData skill))
                       (requiredOf task)))
               tasksData
    /\ (out = [] <->
        forall task skill,
          task ∈ tasksData -> skill ∈ requiredOf task ->
          exists worker, worker ∈ workersData /\ skill ∈ skillsOf worker).
Proof.
  intros Hw Ht. eexists.
  split; [by apply validateSkillCoverage_appends|]. split; [done|].
  rewrite flat_map_nil_iff, Forall_forall. split.
  - intros H task skill Hin Hs. apply covered_spec.
    specialize (H task Hin). apply map_nil_iff in H.
    destruct (covered workersData skill) eqn:E; [done|]. exfalso.
    assert (Hu : skill ∈ uncoveredSkills workersData task).
    { apply list_elem_of_In, filter_In.
      split; [by apply list_elem_of_In | by rewrite E]. }
    rewrite H in Hu. by apply elem_of_nil in Hu.
  - intros H task Hin. apply map_nil_iff.
    destruct (uncoveredSkills workersData task) as [|skill rest] eqn:E;
      [done|]. exfalso.
    assert (Hu : In skill (uncoveredSkills workersData task))
      by (rewrite E; by left).
    apply filter_In in Hu as [Hs Hc]. apply list_elem_of_In in Hs.
    apply negb_true_iff in Hc.
    apply (H task skill Hin), covered_spec in Hs. congruence.
Qed.

(** The theorem at three workers with the skills X and Y and tasks that
    require X and Z. *)
Lemma validateSkillCoverage_one_warning_per_uncovered_requirement_witness :
  exists out,
    appends (validateSkillCoverage twoWithX [taskNeedingThree; taskNeedingZ])
      tt out
    /\ out = [missingSkill taskNeedingZ "Z"].
Proof.
  destruct (validateSkillCoverage_one_warning_per_uncovered_requirement
              twoWithX [taskNeedingThree; taskNeedingZ])
    as (out & Hout & -> & _).
  - intros w Hin. repeat (apply elem_of_cons in Hin as [-> | Hin];
      [by eexists|]). by apply elem_of_nil in Hin.
  - intros t Hin. repeat (apply elem_of_cons in Hin as [-> | Hin];
      [by eexists|]). by apply elem_of_nil in Hin.
  - eexists. split; [exact Hout | reflexivity].
Defined.

Lemma validateMaxConcurrencyFeasibility_appends workersData tasksData :
  Forall workerComplete workersData -> Forall taskComplete tasksData ->
  appends (validateMaxConcurrencyFeasibility workersData tasksData) tt
    (flat_map (concurrencyFindings workersData) tasksData).
Proof.
  intros Hw Ht. rewrite Forall_forall in Ht.
  unfold validateMaxConcurrencyFeasibility. apply appends_forEach.
  intros task Hin. apply checkTaskConcurrency_appends; [done|].
  by apply Ht.
Qed.

Lemma validateWorkerOverload_appends workersData :
  (forall worker, worker ∈ workersData -> is_Some (AvailableSlots worker)) ->
  appends (validateWorkerOverload workersData) tt
    (flat_map overloadFindings workersData).
Proof.
  intros Hw. unfold validateWorkerOverload. apply appends_forEach.
  intros worker Hin. destruct (Hw worker Hin) as [slots Hs].
  unfold overloadFindings, overloaded, slotsOf. rewrite Hs. simpl.
  eapply appends_bind_pure; [apply appends_deref|].
  apply appends_when. intros _. apply appends_push.
Qed.

Lemma qualifiedFor_uncovered workersData task skill :
  skill ∈ requiredOf task -> covered workersData skill = false ->
  qualifiedFor workersData task = [].
Proof.
  intros Hs Hc. unfold qualifiedFor. apply filter_none, Forall_forall.
  intros worker Hin. apply not_true_iff_false. intros Hq.
  unfold qualified in Hq. rewrite forallb_forall in Hq.
  apply list_elem_of_In, Hq in Hs.
  assert (covered workersData skill = true); [|congruence].
  apply covered_spec. exists worker. split; [done|].
  by apply includes_elem_of.
Qed.

(** X11.  A skill that no worker lists makes every task that requires it
    infeasible.  For records that carry their lists, a task with such a
    required skill and a positive [MaxConcurrent] gets the coverage
    warning of check 11 and, from check 12, the shortfall warning citing 0
    qualified workers. *)
Theorem uncovered_skill_makes_task_infeasible
    (workersData : list WorkerData) (tasksData : list TaskData)
    (task : TaskData) (skill : string) :
  Forall workerComplete workersData -> Forall taskComplete tasksData ->
  task ∈ tasksData -> skill ∈ requiredOf task ->
  (forall worker, worker ∈ workersData -> skill ∉ skillsOf worker) ->
  0 < MaxConcurrent task ->
  exists coverage feasibility,
    appends (validateSkillCoverage workersData tasksData) tt coverage
    /\ appends (validateMaxConcurrencyFeasibility workersData tasksData) tt
         feasibility
    /\ missingSkill task skill ∈ coverage
    /\ infeasibleConcurrency task 0 ∈ feasibility.
Proof.
  intros Hw Ht Hin Hs Hnone Hmax.
  assert (Hc : covered workersData skill = false).
  { apply not_true_iff_false. intros (w & Hw' & H)%covered_spec.
    by apply (Hnone w). }
  eexists _, _. split_and!.
  - apply validateSkillCoverage_appends.
    + rewrite Forall_forall in Hw. intros w Hw'. by apply Hw.
    + rewrite Forall_forall in Ht. intros t Ht'. by apply Ht.
  - by apply validateMaxConcurrencyFeasibility_appends.
  - apply (elem_of_flat_map_map missingSkill); [done|].
    apply list_elem_of_In, filter_In.
    split; [by apply list_elem_of_In | by rewrite Hc].
  - apply (elem_of_flat_map_intro _ _ task); [done|].
    unfold concurrencyFindings.
    rewrite (qualifiedFor_uncovered workersData task skill Hs Hc).
    apply elem_of_app. left. change (Js.len []) with 0.
    destruct (Z.gtb_spec (MaxConcurrent task) 0); [by left | lia].
Qed.

(** The theorem at the task that requires the skill Z. *)
Lemma uncovered_skill_makes_task_infeasible_witness :
  exists coverage feasibility,
    appends (validateSkillCoverage twoWithX [taskNeedingThree; taskNeedingZ])
      tt coverage
    /\ appends (validateMaxConcurrencyFeasibility twoWithX
                  [taskNeedingThree; taskNeedingZ]) tt feasibility
    /\ missingSkill taskNeedingZ "Z" ∈ coverage
    /\ infeasibleConcurrency taskNeedingZ 0 ∈ feasibility.
Proof.
  apply (uncovered_skill_makes_task_infeasible twoWithX
           [taskNeedingThree; taskNeedingZ] taskNeedingZ "Z").
  - repeat constructor; by eexists.
  - repeat constructor; by eexists.
  - right. left.
  - right. left.
  - intros w Hin. apply includes_false.
    repeat (apply elem_of_cons in Hin as [-> | Hin]; [reflexivity|]).
    by apply elem_of_nil in Hin.
  - reflexivity.
Defined.

Lemma flat_map_filter_nil {A B} (f : A -> list B) (p : A -> bool)
    (xs : list A) :
  (forall x, p x = false -> f x = []) ->
  flat_map f (List.filter p xs) = flat_map f xs.
Proof.
  intros H. induction xs as [|x xs IH]; simpl; [done|].
  destruct (p x) eqn:E; simpl; [by rewrite IH|].
  by rewrite (H x E), IH.
Qed.

Lemma Forall_filter_keeps {A} (P : A -> Prop) (p : A -> bool) (xs : list A) :
  Forall P xs -> Forall P (List.filter p xs).
Proof.
  induction 1 as [|x xs Hx _ IH]; simpl; [constructor|].
  destruct (p x); [by constructor | done].
Qed.

Lemma overloadFindings_no_load worker :
  (1 <=? MaxLoadPerPhase worker) = false -> overloadFindings worker = [].
Proof.
  intros H%Z.leb_gt. unfold overloadFindings, Js.len.
  destruct (Z.ltb_spec (Z.of_nat (length (slotsOf worker)))
              (MaxLoadPerPhase worker)); [lia | done].
Qed.

Lemma concurrencyFindings_no_concurrency workersData task :
  (1 <=? MaxConcurrent task) = false ->
  concurrencyFindings workersData task = [].
Proof.
  intros H%Z.leb_gt. unfold concurrencyFindings, Js.len.
  destruct (Z.gtb_spec (MaxConcurrent task)
              (Z.of_nat (length (qualifiedFor workersData task)))); [lia|].
  destruct (Z.gtb_spec (MaxConcurrent task)
              (Z.of_nat (length (phaseConstrained workersData task))));
    [lia|].
  by rewrite andb_false_r.
Qed.

(** X12.  Capacities below 1, which the range check reports as errors,
    never raise a feasibility warning as well.  For records that carry
    their lists, the overload check appends the same findings with the
    workers whose [MaxLoadPerPhase] is below 1 as without them, and the
    concurrency check the same findings with the tasks whose
    [MaxConcurrent] is below 1 as without them. *)
Theorem capacities_below_one_never_warned
    (workersData : list WorkerData) (tasksData : list TaskData) :
  Forall workerComplete workersData -> Forall taskComplete tasksData ->
  exists overload feasibility,
    appends (validateWorkerOverload workersData) tt overload
    /\ appends
         (validateWorkerOverload
            (List.filter (fun worker => 1 <=? MaxLoadPerPhase worker)
               workersData)) tt overload
    /\ appends (validateMaxConcurrencyFeasibility workersData tasksData) tt
         feasibility
    /\ appends
         (validateMaxConcurrencyFeasibility workersData
            (List.filter (fun task => 1 <=? MaxConcurrent task) tasksData))
         tt feasibility.
Proof.
  intros Hw Ht.
  assert (Hslots : forall ws, Forall workerComplete ws ->
            forall worker, worker ∈ ws -> is_Some (AvailableSlots worker)).
  { intros ws H worker Hin. rewrite Forall_forall in H. by apply H. }
  exists (flat_map overloadFindings workersData),
         (flat_map (concurrencyFindings workersData) tasksData).
  split_and!.
  - by apply validateWorkerOverload_appends, Hslots.
  - rewrite <- (flat_map_filter_nil overloadFindings
                  (fun worker => 1 <=? MaxLoadPerPhase worker))
      by apply overloadFindings_no_load.
    by apply validateWorkerOverload_appends, Hslots, Forall_filter_keeps.
  - by apply validateMaxConcurrencyFeasibility_appends.
  - rewrite <- (flat_map_filter_nil (concurrencyFindings workersData)
                  (fun task => 1 <=? MaxConcurrent task))
      by apply concurrencyFindings_no_concurrency.
    apply validateMaxConcurrencyFeasibility_appends; [done|].
    by apply Forall_filter_keeps.
Qed.

(** The theorem at a worker without load and a task without
    concurrency. *)
Lemma capacities_below_one_never_warned_witness :
  exists overload feasibility,
    appends (validateWorkerOverload [workerOfNoLoad; soleWorker]) tt overload
    /\ appends (validateWorkerOverload [soleWorker]) tt overload
    /\ appends (validateMaxConcurrencyFeasibility
                  [workerOfNoLoad; soleWorker]
                  [taskOfNoConcurrency; taskNeedingThree]) tt feasibility
    /\ appends (validateMaxConcurrencyFeasibility
                  [workerOfNoLoad; soleWorker] [taskNeedingThree])
         tt feasibility.
Proof.
  apply (capacities_below_one_never_warned [workerOfNoLoad; soleWorker]
           [taskOfNoConcurrency; taskNeedingThree]).
  - repeat constructor; by eexists.
  - repeat constructor; by eexists.
Defined.

(** ** Saturation and the number of workers *)

Lemma filter_length_implied {A} (p q : A -> bool) (xs : list A) :
  (forall x, p x = true -> q x = true) ->
  (length (List.filter p xs) <= length (List.filter q xs))%nat.
Proof.
  intros H. induction xs as [|x xs IH]; simpl; [done|].
  destruct (p x) eqn:Ep.
  - rewrite (H x Ep). simpl. lia.
  - destruct (q x); simpl; lia.
Qed.

Lemma availableTotal_double workersData p :
  Js.toDouble (availableTotal workersData p) = availableTotal workersData p.
Proof.
  unfold availableTotal, phaseSlotsOf.
  by apply (getOr0_totals_double MaxLoadPerPhase slotsOf).
Qed.

(** Workers whose loads are not negative do not lower a total, rounded
    as it is. *)
Lemma availableTotal_grows workersData more p :
  Forall (fun worker => 0 <= MaxLoadPerPhase worker) more ->
  availableTotal workersData p <= availableTotal (workersData ++ more) p.
Proof.
  intros Hpos. unfold availableTotal at 2. unfold phaseSlotsOf.
  rewrite fold_left_app. fold (phaseSlotsOf workersData).
  apply (getOr0_totals_grows MaxLoadPerPhase slotsOf); [done|].
  apply availableTotal_double.
Qed.

(** X13.  More capacity never adds a saturation warning.  When workers
    whose [MaxLoadPerPhase] is not negative join the others, the
    saturation check appends at most as many warnings as before, and each
    of them was there before, for the same phase (under the same id) and
    the same requirement, with an available total that was not larger.
    This holds of the totals as the numbers add up, rounded or not; the
    total reported before is the plain sum of the loads whenever their
    magnitudes sum up to 2^53 at most. *)
Theorem validatePhaseSlotSaturation_more_workers_fewer_warnings
    (workersData more : list WorkerData) (tasksData : list TaskData) :
  Forall workerComplete workersData -> Forall workerComplete more ->
  Forall taskComplete tasksData ->
  Forall (fun worker => 0 <= MaxLoadPerPhase worker) more ->
  exists before after,
    appends (validatePhaseSlotSaturation workersData tasksData) tt before
    /\ appends (validatePhaseSlotSaturation (workersData ++ more) tasksData)
         tt after
    /\ (length after <= length before)%nat
    /\ forall e, e ∈ after ->
         exists phase required now was,
           e = phaseSaturation phase required now
           /\ phaseSaturation phase required was ∈ before
           /\ was <= now
           /\ (loadVolume workersData phase <= 2 ^ 53 ->
               was = available workersData phase).
Proof.
  intros Hw Hm Ht Hpos.
  assert (Hslots : forall ws, Forall workerComplete ws ->
            forall worker, worker ∈ ws -> is_Some (AvailableSlots worker)).
  { intros ws H worker Hin. rewrite Forall_forall in H. by apply H. }
  assert (Hphases : forall task, task ∈ tasksData ->
            is_Some (PreferredPhases task)).
  { intros task Hin. rewrite Forall_forall in Ht. by apply Ht. }
  assert (Himp : forall p,
            (requiredTotal tasksData p
             >? availableTotal (workersData ++ more) p) = true
            -> (requiredTotal tasksData p >? availableTotal workersData p)
               = true).
  { intros p. pose proof (availableTotal_grows workersData more p Hpos).
    rewrite !Z.gtb_gt. lia. }
  eexists _, _. split_and!.
  - by apply validatePhaseSlotSaturation_totals; [apply Hslots|].
  - apply validatePhaseSlotSaturation_totals; [|done].
    apply Hslots. by apply Forall_app.
  - rewrite !length_map. by apply filter_length_implied.
  - intros e Hin. apply list_elem_of_In, in_map_iff in Hin
      as (p & <- & Hp).
    apply filter_In in Hp as [Hp Hc].
    exists p, (requiredTotal tasksData p),
           (availableTotal (workersData ++ more) p),
           (availableTotal workersData p).
    split_and!.
    + done.
    + apply list_elem_of_In,
        (in_map (fun p => phaseSaturation p (requiredTotal tasksData p)
                            (availableTotal workersData p))).
      apply filter_In. split; [done | by apply Himp].
    + by apply availableTotal_grows.
    + apply availableTotal_exact.
Qed.

(** The theorem at two workers of capacity 2 for a task of duration 5,
    joined by two more. *)
Lemma validatePhaseSlotSaturation_more_workers_fewer_warnings_witness :
  exists before after,
    appends (validatePhaseSlotSaturation twoWorkersPhase1 [taskOfFive]) tt
      before
    /\ appends (validatePhaseSlotSaturation
                  (twoWorkersPhase1 ++ reinforcements) [taskOfFive]) tt after
    /\ (length after <= length before)%nat
    /\ forall e, e ∈ after ->
         exists phase required now was,
           e = phaseSaturation phase required now
           /\ phaseSaturation phase required was ∈ before
           /\ was <= now
           /\ (loadVolume twoWorkersPhase1 phase <= 2 ^ 53 ->
               was = available twoWorkersPhase1 phase).
Proof.
  apply (validatePhaseSlotSaturation_more_workers_fewer_warnings
           twoWorkersPhase1 reinforcements [taskOfFive]).
  - repeat constructor; by eexists.
  - repeat constructor; by eexists.
  - repeat constructor; by eexists.
  - repeat constructor; simpl; lia.
Defined.

(** ** Which co-run rules the cycle check reports *)

Section SharedTasks.

Variable coRunRules : list BusinessRule.t.
Variable rule : BusinessRule.t.

Lemma relatedTasksLoop_true call taskId relatedTasks st st' :
  relatedTasksLoop call taskId relatedTasks st = Some (true, st') ->
  exists x, x ∈ relatedTasks /\ x <> taskId.
Proof.
  revert st. induction relatedTasks as [|x rest IH]; intros st; simpl.
  - done.
  - destruct (String.eqb_spec x taskId) as [->|Hx].
    + intros H. destruct (IH _ H) as (y & Hy & Hne).
      exists y. split; [by right | done].
    + intros _. exists x. split; [left | done].
Qed.

Lemma relatedRulesLoop_true call taskId relatedRules st st' :
  relatedRulesLoop call taskId relatedRules st = Some (true, st') ->
  exists r x, r ∈ relatedRules /\ x ∈ tasksOf r /\ x <> taskId.
Proof.
  revert st. induction relatedRules as [|r rest IH]; intros st; simpl.
  - done.
  - destruct (relatedTasksLoop call taskId (tasksOf r) st)
      as [[[] s1]|] eqn:E; [| |done].
    + intros _. apply relatedTasksLoop_true in E as (x & Hx & Hne).
      exists r, x. split; [left | done].
    + intros H. destruct (IH _ H) as (r' & x & Hr' & Hx).
      exists r', x. split; [by right | done].
Qed.

(** A call that answers [true] from the top of the scan found a shared
    task. *)
Lemma hasCycle_true fuel taskId st st' :
  recursionStack st = ∅ ->
  hasCycle coRunRules rule fuel taskId st = Some (true, st') ->
  sharedTask coRunRules rule taskId.
Proof.
  intros Hstack. destruct fuel as [|fuel]; [done|]. cbn [hasCycle].
  rewrite bool_decide_eq_false_2 by (rewrite Hstack; set_solver).
  case_bool_decide; [done|].
  destruct (relatedRulesLoop _ _ _ _) as [[[] s1]|] eqn:E; [|done..].
  intros _. apply relatedRulesLoop_true in E as (r & x & Hr & Hx & Hne).
  apply list_elem_of_In, filter_In in Hr as [Hr Hrel].
  apply isRelated_spec in Hrel as [Hid Ht].
  exists r, x. split; [by apply list_elem_of_In | done].
Qed.

(** A call that answers [false] from the top of the scan, while the
    visited tasks are unshared, was made on an unshared task. *)
Lemma hasCycle_false fuel taskId st st' :
  recursionStack st = ∅ ->
  (forall v, v ∈ visited st -> unsharedTask coRunRules rule v) ->
  hasCycle coRunRules rule fuel taskId st = Some (false, st') ->
  recursionStack st' = ∅
  /\ unsharedTask coRunRules rule taskId
  /\ forall v, v ∈ visited st' -> unsharedTask coRunRules rule v.
Proof.
  intros Hstack Hinv Hcall.
  destruct (decide (taskId ∈ visited st)) as [Hv|Hv].
  - apply hasCycle_visited in Hcall as ->; [|done..].
    split; [done|]. split; [by apply Hinv | done].
  - apply hasCycle_quiet in Hcall as (Hvis & Hstack' & Hneigh); [|done..].
    assert (Hun : unsharedTask coRunRules rule taskId).
    { intros r x Hr Hid Ht Hx.
      destruct (Hneigh r x Hr) as [? | Hseen]; [|done..|].
      { by apply isRelated_spec. }
      symmetry. by apply (Hinv x Hseen r taskId). }
    split; [done|]. split; [done|]. intros v. rewrite Hvis.
    intros [->%elem_of_singleton | Hin]%elem_of_union; [done|].
    by apply Hinv.
Qed.

Lemma scanTasks_first_shared taskIds st :
  recursionStack st = ∅ ->
  (forall v, v ∈ visited st -> unsharedTask coRunRules rule v) ->
  exists out,
    appends (scanTasks coRunRules rule (cycleFuel coRunRules) taskIds st)
      tt out
    /\ ((out = []
         /\ forall t, t ∈ taskIds -> unsharedTask coRunRules rule t)
        \/ (exists pre t post,
              taskIds = pre ++ t :: post
              /\ (forall v, v ∈ pre -> unsharedTask coRunRules rule v)
              /\ sharedTask coRunRules rule t
              /\ out = [circularCoRun rule t])).
Proof.
  revert st. induction taskIds as [|taskId rest IH]; intros st Hstack Hinv;
    cbn [scanTasks].
  - exists []. split; [apply appends_ret|]. left. split; [done|].
    by intros t ?%elem_of_nil.
  - destruct (hasCycle_returns coRunRules rule (cycleFuel coRunRules)
                taskId st (unvisited_below_cycleFuel coRunRules st))
      as (b & st1 & Hcall & _).
    rewrite Hcall. destruct b.
    + exists [circularCoRun rule taskId]. split; [apply appends_push|].
      right. exists [], taskId, rest. split_and!; try done.
      * by intros v ?%elem_of_nil.
      * by apply (hasCycle_true _ _ _ _ Hstack Hcall).
    + destruct (hasCycle_false _ _ _ _ Hstack Hinv Hcall)
        as (Hstack1 & Hun & Hinv1).
      destruct (IH st1 Hstack1 Hinv1) as (out & Hout & Hshape).
      exists out. split; [done|].
      destruct Hshape as [[-> Hall] | (pre & t & post & -> & Hpre & Ht & ->)].
      * left. split; [done|].
        intros t [->|Hin]%elem_of_cons; [done | by apply Hall].
      * right. exists (taskId :: pre), t, post. split_and!; try done.
        intros v [->|Hin]%elem_of_cons; [done | by apply Hpre].
Qed.

End SharedTasks.

Lemma cycleFindingOf_nonempty coRunRules rule out :
  cycleFindingOf coRunRules rule out ->
  (out <> [] <-> exists t, t ∈ tasksOf rule /\ sharedTask coRunRules rule t).
Proof.
  intros [[-> Hall] | (pre & t & post & E & _ & Ht & ->)].
  - split; [done|]. intros (t & Hin & r & x & Hr & Hid & Ht & Hx & Hne).
    destruct Hne. by apply (Hall t Hin r x).
  - split; [|done]. intros _. exists t. split; [|done].
    rewrite E. apply elem_of_app. right. left.
Qed.


(** ** The order of the workers *)

Lemma sumZ_map_Permutation {A} (f : A -> Z) (xs ys : list A) :
  xs ≡ₚ ys -> sumZ (map f xs) = sumZ (map f ys).
Proof. unfold sumZ. induction 1; simpl; lia. Qed.

Lemma existsb_Permutation {A} (f : A -> bool) (xs ys : list A) :
  xs ≡ₚ ys -> existsb f xs = existsb f ys.
Proof.
  induction 1 as [|x xs ys _ IH|x y xs|xs ys zs _ IH1 _ IH2]; simpl.
  - done.
  - by rewrite IH.
  - by destruct (f x), (f y).
  - by rewrite IH1.
Qed.

Lemma filter_Permutation_proper {A} (f : A -> bool) (xs ys : list A) :
  xs ≡ₚ ys -> List.filter f xs ≡ₚ List.filter f ys.
Proof.
  induction 1 as [|x xs ys _ IH|x y xs|xs ys zs _ IH1 _ IH2]; simpl.
  - done.
  - destruct (f x); by rewrite IH.
  - destruct (f x), (f y); try done. apply perm_swap.
  - by rewrite IH1.
Qed.

Lemma concurrencyFindings_Permutation workersData workersData' task :
  workersData ≡ₚ workersData' ->
  concurrencyFindings workersData task = concurrencyFindings workersData' task.
Proof.
  intros Hp. unfold concurrencyFindings, phaseConstrained, qualifiedFor, Js.len.
  assert (Hq : List.filter (qualified task) workersData
               ≡ₚ List.filter (qualified task) workersData')
    by by apply filter_Permutation_proper.
  pose proof (filter_Permutation_proper (availableIn task) _ _ Hq) as Ha.
  by rewrite (Permutation_length Hq), (Permutation_length Ha).
Qed.

(** Beyond the exact range the order of the workers does matter: the
    loads 2^53, 1 and 1 add up to 2^53 in this order, each 1 being rounded
    away, and to 2^53 + 2 when the small loads come first.  A task of
    duration 2^53 + 2 is reported in the first order only. *)
Lemma validatePhaseSlotSaturation_rounds_beyond_exact_range :
  heavyFirst ≡ₚ heavyLast
  /\ validatePhaseSlotSaturation heavyFirst [taskOfHugeDuration] []
     = Returned (tt, [phaseSaturation 1 (2 ^ 53 + 2) (2 ^ 53)])
  /\ validatePhaseSlotSaturation heavyLast [taskOfHugeDuration] []
     = Returned (tt, []).
Proof.
  split; [|split; by vm_compute].
  apply (Permutation_cons_append
           [sampleWorker "W2" ["X"] [1] 1; sampleWorker "W3" ["X"] [1] 1]
           (sampleWorker "W1" ["X"] [1] (2 ^ 53))).
Qed.

(** X15.  The order of the workers does not matter to the warnings about
    tasks.  For records that carry their lists, the skill coverage and
    concurrency checks append the same findings, in the same order, for
    any two orderings of the same workers; so does the saturation check
    when the magnitudes of the loads of every phase sum up to 2^53 at
    most, the range in which numbers add up exactly. *)
Theorem task_warnings_ignore_worker_order
    (workersData workersData' : list WorkerData) (tasksData : list TaskData) :
  workersData ≡ₚ workersData' ->
  Forall workerComplete workersData -> Forall taskComplete tasksData ->
  (exists coverage feasibility,
     appends (validateSkillCoverage workersData tasksData) tt coverage
     /\ appends (validateSkillCoverage workersData' tasksData) tt coverage
     /\ appends (validateMaxConcurrencyFeasibility workersData tasksData) tt
          feasibility
     /\ appends (validateMaxConcurrencyFeasibility workersData' tasksData) tt
          feasibility)
  /\ ((forall p, loadVolume workersData p <= 2 ^ 53) ->
      exists saturation,
        appends (validatePhaseSlotSaturation workersData tasksData) tt
          saturation
        /\ appends (validatePhaseSlotSaturation workersData' tasksData) tt
             saturation).
Proof.
  intros Hp Hw Ht.
  assert (Hw' : Forall workerComplete workersData') by by rewrite <- Hp.
  assert (Hskills : forall ws, Forall workerComplete ws ->
            forall worker, worker ∈ ws -> is_Some (Skills worker)).
  { intros ws H worker Hin. rewrite Forall_forall in H. by apply H. }
  assert (Hslots : forall ws, Forall workerComplete ws ->
            forall worker, worker ∈ ws -> is_Some (AvailableSlots worker)).
  { intros ws H worker Hin. rewrite Forall_forall in H. by apply H. }
  assert (Hrequired : forall task, task ∈ tasksData ->
            is_Some (RequiredSkills task)).
  { intros task Hin. rewrite Forall_forall in Ht. by apply Ht. }
  assert (Hphases : forall task, task ∈ tasksData ->
            is_Some (PreferredPhases task)).
  { intros task Hin. rewrite Forall_forall in Ht. by apply Ht. }
  split.
  - eexists _, _. split_and!.
    + by apply validateSkillCoverage_appends; [apply Hskills|].
    + assert (E : forall skill,
                  covered workersData skill = covered workersData' skill).
      { intros skill. unfold covered. by apply existsb_Permutation. }
      rewrite (flat_map_ext _
                 (fun task =>
                    map (missingSkill task)
                      (uncoveredSkills workersData' task))).
      * by apply validateSkillCoverage_appends; [apply Hskills|].
      * intros task. unfold uncoveredSkills. f_equal.
        apply List.filter_ext. intros skill. by rewrite E.
    + by apply validateMaxConcurrencyFeasibility_appends.
    + rewrite (flat_map_ext _ (concurrencyFindings workersData'))
        by (intros task; by apply concurrencyFindings_Permutation).
      by apply validateMaxConcurrencyFeasibility_appends.
  - intros Hl.
    assert (Hl' : forall p, loadVolume workersData' p <= 2 ^ 53).
    { intros p. unfold loadVolume.
      rewrite <- (sumZ_map_Permutation _ _ _ Hp). apply Hl. }
    assert (E : forall p,
                availableTotal workersData p = availableTotal workersData' p).
    { intros p. rewrite !availableTotal_exact by done.
      unfold available. by apply sumZ_map_Permutation. }
    eexists. split.
    + by apply validatePhaseSlotSaturation_totals; [apply Hslots|].
    + rewrite (map_ext _
                 (fun p => phaseSaturation p (requiredTotal tasksData p)
                             (availableTotal workersData' p)))
        by (intros p; by rewrite E).
      rewrite (List.filter_ext _
                 (fun p => requiredTotal tasksData p
                           >? availableTotal workersData' p))
        by (intros p; by rewrite E).
      by apply validatePhaseSlotSaturation_totals; [apply Hslots|].
Qed.

(** The theorem at the three sample workers, the last one moved to the
    front. *)
Lemma task_warnings_ignore_worker_order_witness :
  (exists coverage feasibility,
     appends (validateSkillCoverage twoWithX [taskNeedingThree]) tt coverage
     /\ appends (validateSkillCoverage
                   [sampleWorker "W3" ["Y"] [1] 1;
                    sampleWorker "W1" ["X"] [1] 1;
                    sampleWorker "W2" ["X"; "Y"] [2] 1]
                   [taskNeedingThree]) tt coverage
     /\ appends (validateMaxConcurrencyFeasibility twoWithX
                   [taskNeedingThree]) tt feasibility
     /\ appends (validateMaxConcurrencyFeasibility
                   [sampleWorker "W3" ["Y"] [1] 1;
                    sampleWorker "W1" ["X"] [1] 1;
                    sampleWorker "W2" ["X"; "Y"] [2] 1]
                   [taskNeedingThree]) tt feasibility)
  /\ (forall p, loadVolume twoWithX p <= 2 ^ 53)
  /\ exists saturation,
       appends (validatePhaseSlotSaturation twoWithX [taskNeedingThree]) tt
         saturation
       /\ appends (validatePhaseSlotSaturation
                     [sampleWorker "W3" ["Y"] [1] 1;
                      sampleWorker "W1" ["X"] [1] 1;
                      sampleWorker "W2" ["X"; "Y"] [2] 1]
                     [taskNeedingThree]) tt saturation.
Proof.
  assert (Hl : forall p, loadVolume twoWithX p <= 2 ^ 53).
  { intros p. etransitivity; [apply loadVolume_le|]. by vm_compute. }
  destruct (task_warnings_ignore_worker_order twoWithX
              [sampleWorker "W3" ["Y"] [1] 1; sampleWorker "W1" ["X"] [1] 1;
               sampleWorker "W2" ["X"; "Y"] [2] 1] [taskNeedingThree])
    as [H1 H2].
  - symmetry.
    apply (Permutation_cons_append
             [sampleWorker "W1" ["X"] [1] 1; sampleWorker "W2" ["X"; "Y"] [2] 1]
             (sampleWorker "W3" ["Y"] [1] 1)).
  - repeat constructor; by eexists.
  - repeat constructor; by eexists.
  - split; [exact H1|]. split; [exact Hl|]. exact (H2 Hl).
Defined.

(** ** The two concurrency warnings *)

(** X16.  For a task that has preferred phases, the qualified workers
    available in those phases are among the qualified ones, so the two
    concurrency warnings are nested: the check of the task appends nothing,
    or the warning about the preferred phases alone, or the shortfall
    warning followed by the warning about the preferred phases; the
    shortfall warning never comes alone. *)
Theorem checkTaskConcurrency_warnings_nested
    (workersData : list WorkerData) (task : TaskData) :
  Forall workerComplete workersData -> taskComplete task ->
  preferredOf task <> [] ->
  let q := Js.len (qualifiedFor workersData task) in
  let a := Js.len (phaseConstrained workersData task) in
  a <= q
  /\ ((MaxConcurrent task <= a
       /\ appends (checkTaskConcurrency workersData task) tt [])
      \/ (a < MaxConcurrent task <= q
          /\ appends (checkTaskConcurrency workersData task) tt
               [infeasiblePhaseConcurrency task a])
      \/ (q < MaxConcurrent task
          /\ appends (checkTaskConcurrency workersData task) tt
               [infeasibleConcurrency task q;
                infeasiblePhaseConcurrency task a])).
Proof.
  intros Hw Ht Hpref q a.
  pose proof (checkTaskConcurrency_appends workersData task Hw Ht) as H.
  cbv zeta in H. fold q a in H.
  assert (Hle : a <= q).
  { subst q a. unfold phaseConstrained, Js.len.
    pose proof (List.filter_length_le (availableIn task)
                  (qualifiedFor workersData task)). lia. }
  assert (Hlen : (Js.len (preferredOf task) >? 0) = true).
  { apply Z.gtb_lt. unfold Js.len.
    destruct (preferredOf task); [done | simpl; lia]. }
  rewrite Hlen in H. simpl in H. split; [done|].
  destruct (Z.gtb_spec (MaxConcurrent task) q) as [Hq|Hq];
    destruct (Z.gtb_spec (MaxConcurrent task) a) as [Ha|Ha]; simpl in H.
  - right. right. by split.
  - lia.
  - right. left. split; [lia | done].
  - left. by split.
Qed.

(** The theorem at a task that wants three workers where two are
    qualified, one of them in its preferred phase. *)
Lemma checkTaskConcurrency_warnings_nested_witness :
  appends (checkTaskConcurrency twoWithX taskNeedingThree) tt
    [infeasibleConcurrency taskNeedingThree 2;
     infeasiblePhaseConcurrency taskNeedingThree 1].
Proof.
  destruct (checkTaskConcurrency_warnings_nested twoWithX taskNeedingThree)
    as [_ [[Hle _] | [[[_ Hle] _] | [_ H]]]].
  - repeat constructor; by eexists.
  - split; by eexists.
  - done.
  - by vm_compute in Hle.
  - by vm_compute in Hle.
  - exact H.
Defined.

(** ** The counts of the panel after a run *)

Lemma warningCount_app errors1 errors2 :
  warningCount (errors1 ++ errors2)
  = warningCount errors1 + warningCount errors2.
Proof.
  unfold warningCount, Js.len. rewrite List.filter_app, length_app. lia.
Qed.

Lemma warningCount_errors errs :
  Forall isError errs -> warningCount errs = 0.
Proof.
  unfold warningCount, Js.len. induction 1 as [|e errs He _ IH]; [done|].
  simpl. rewrite bool_decide_eq_false_2; [done|].
  unfold isError in He. by rewrite He.
Qed.

Lemma warningCount_warnings warns :
  Forall isWarning warns -> warningCount warns = Js.len warns.
Proof.
  unfold warningCount, Js.len. induction 1 as [|w warns Hw _ IH]; [done|].
  simpl. rewrite bool_decide_eq_true_2 by done. simpl. lia.
Qed.

(** X17.  What the panel shows after a run on records that carry their
    lists: the findings are errors followed by warnings, its two counters
    are the lengths of the two parts, and the score is 100 exactly when
    the run raised no error, however many warnings it raised. *)
Theorem panel_counts_after_run
    (JSON_parses : string -> bool) (errors : list ValidationError.t)
    (clientsData : list ClientData) (workersData : list WorkerData)
    (tasksData : list TaskData) :
  Forall clientComplete clientsData ->
  Forall workerComplete workersData ->
  Forall taskComplete tasksData ->
  exists errs warns,
    handleValidation JSON_parses errors clientsData workersData tasksData
    = errs ++ warns
    /\ Forall isError errs /\ Forall isWarning warns
    /\ errorCount (errs ++ warns) = Js.len errs
    /\ warningCount (errs ++ warns) = Js.len warns
    /\ (getValidationScore (errs ++ warns) = 100 <-> errs = []).
Proof.
  intros Hc Hw Ht.
  destruct (runChecks_errors_then_warnings JSON_parses clientsData workersData
              tasksData [] Hc Hw Ht)
    as (errs & warns & H & Herrs & Hwarns).
  assert (Hcount : errorCount (errs ++ warns) = Js.len errs).
  { rewrite errorCount_app, errorCount_errors, errorCount_warnings by done.
    lia. }
  exists errs, warns. split_and!; try done.
  - unfold handleValidation, runValidations. by rewrite (H []).
  - rewrite warningCount_app, warningCount_errors, warningCount_warnings
      by done. lia.
  - pose proof (score_of_count (errorCount (errs ++ warns))
                  (errorCount_nonneg _)) as (_ & Hfull & _).
    cbv zeta in Hfull. unfold getValidationScore. cbv zeta.
    rewrite Hfull, Hcount. unfold Js.len.
    destruct errs; simpl; split; (done || lia).
Qed.

(** The theorem at one client, two workers and one task. *)
Lemma panel_counts_after_run_witness :
  exists errs warns,
    handleValidation (fun _ => true) [] [sampleClient] twoWithX
      [taskNeedingThree]
    = errs ++ warns
    /\ Forall isError errs /\ Forall isWarning warns
    /\ errorCount (errs ++ warns) = Js.len errs
    /\ warningCount (errs ++ warns) = Js.len warns
    /\ (getValidationScore (errs ++ warns) = 100 <-> errs = []).
Proof.
  apply (panel_counts_after_run (fun _ => true) [] [sampleClient] twoWithX
           [taskNeedingThree]).
  - repeat constructor; by eexists.
  - repeat constructor; by eexists.
  - repeat constructor; by eexists.
Defined.

(** ** The rule builder *)

Lemma map_id_in {A} (f : A -> A) (xs : list A) :
  (forall x, x ∈ xs -> f x = x) -> map f xs = xs.
Proof.
  induction xs as [|x xs IH]; intros H; simpl; [done|].
  rewrite H by left. rewrite IH; [done|]. intros y Hy. apply H. by right.
Qed.

(** X18.  Switching a rule off and on.  Toggling the same rule twice
    gives the rule list back, and a toggle never changes what the engine
    answers for the list: the engine does not read the flag. *)
Theorem handleToggleRule_twice_and_unseen
    (rules : list BusinessRule.t) (ruleId : string) :
  handleToggleRule (handleToggleRule rules ruleId) ruleId = rules
  /\ forall JSON_parses clientsData workersData tasksData,
       runValidations JSON_parses clientsData workersData tasksData
         (handleToggleRule rules ruleId)
       = runValidations JSON_parses clientsData workersData tasksData rules.
Proof.
  split.
  - unfold handleToggleRule. rewrite map_map. apply map_id_in.
    intros rule _. destruct (String.eqb_spec (BusinessRule.id rule) ruleId)
      as [E|E]; simpl.
    + rewrite (proj2 (String.eqb_eq _ _) E).
      destruct rule as [i t n d p a]. simpl. by rewrite negb_involutive.
    + by rewrite (proj2 (String.eqb_neq _ _) E).
  - intros JSON_parses clientsData workersData tasksData.
    rewrite <- (runValidations_activated _ _ _ _ (handleToggleRule _ _)).
    rewrite <- (runValidations_activated _ _ _ _ rules).
    f_equal. unfold handleToggleRule. rewrite map_map. apply map_ext.
    intros rule. by destruct (String.eqb _ _).
Qed.

(** X19.  Editing the rule list.  An update keeps the ids of the list and
    their order, is the same done twice as once, and changes nothing when
    no rule has the id of the updated rule; deleting the id of an updated
    rule gives the same list as deleting it before the update; and a
    deletion and a toggle can be done in either order. *)
Theorem rule_list_edits_compose
    (rules : list BusinessRule.t) (updatedRule : BusinessRule.t)
    (ruleId otherId : string) :
  map BusinessRule.id (handleUpdateRule rules updatedRule)
  = map BusinessRule.id rules
  /\ handleUpdateRule (handleUpdateRule rules updatedRule) updatedRule
     = handleUpdateRule rules updatedRule
  /\ ((forall rule, rule ∈ rules ->
         BusinessRule.id rule <> BusinessRule.id updatedRule) ->
      handleUpdateRule rules updatedRule = rules)
  /\ handleDeleteRule (handleUpdateRule rules updatedRule)
       (BusinessRule.id updatedRule)
     = handleDeleteRule rules (BusinessRule.id updatedRule)
  /\ handleDeleteRule (handleToggleRule rules otherId) ruleId
     = handleToggleRule (handleDeleteRule rules ruleId) otherId.
Proof.
  split_and!.
  - unfold handleUpdateRule. rewrite map_map. apply map_ext. intros rule.
    by destruct (String.eqb_spec (BusinessRule.id rule)
                   (BusinessRule.id updatedRule)).
  - unfold handleUpdateRule. rewrite map_map. apply map_ext. intros rule.
    destruct (String.eqb_spec (BusinessRule.id rule)
                (BusinessRule.id updatedRule)) as [E|E].
    + by rewrite String.eqb_refl.
    + by rewrite (proj2 (String.eqb_neq _ _) E).
  - intros Hnone. unfold handleUpdateRule. apply map_id_in. intros rule Hin.
    by rewrite (proj2 (String.eqb_neq _ _) (Hnone rule Hin)).
  - unfold handleDeleteRule, handleUpdateRule.
    induction rules as [|rule rest IH]; simpl; [done|].
    destruct (String.eqb_spec (BusinessRule.id rule)
                (BusinessRule.id updatedRule)) as [E|E]; simpl.
    + by rewrite String.eqb_refl.
    + rewrite (proj2 (String.eqb_neq _ _) E). simpl. by rewrite IH.
  - unfold handleDeleteRule, handleToggleRule.
    induction rules as [|rule rest IH]; simpl; [done|].
    destruct (String.eqb (BusinessRule.id rule) otherId) eqn:Eo; simpl;
      destruct (String.eqb (BusinessRule.id rule) ruleId) eqn:Er; simpl;
      rewrite ?Eo; simpl; by rewrite ?IH.
Qed.

(** The theorem at the three sample co-run rules and an update for an id
    that none of them has. *)
Lemma rule_list_edits_compose_witness :
  handleUpdateRule cyclicRules (samplePhaseWindow "P" "T1" [3]) = cyclicRules.
Proof.
  destruct (rule_list_edits_compose cyclicRules
              (samplePhaseWindow "P" "T1" [3]) "A" "B") as (_ & _ & H & _).
  apply H. intros rule Hin.
  repeat (apply elem_of_cons in Hin as [-> | Hin]; [done|]).
  by apply elem_of_nil in Hin.
Defined.
